(** * Split-mongo modulestore: versioned course structures

    A shallow embedding of
    [common/lib/xmodule/xmodule/modulestore/split_mongo/split.py]
    (class [SplitMongoModuleStore]) and the properties of its versioning
    engine: locator resolution and the head check, definition and structure
    versioning, publishing between branches, history and orphans.

    Python dictionaries are finite maps ([gmap]); an operation of the store
    is a function of the state of the three collections that returns either
    an exception or a value, together with the state it leaves behind. *)

From stdpp Require Import gmap strings list fin_maps pretty.
From Stdlib Require Import Ascii DecimalString DecimalNat.

Local Open Scope string_scope.

(** ** Data model *)

(** [ObjectId()]: opaque ids, handed out by a generator kept in the store. *)
Abbreviation ObjectId := N (only parsing).
Abbreviation timestamp := N (only parsing).
Abbreviation UserId := string (only parsing).
Abbreviation BlockId := string (only parsing).

(** Field values: the JSON scalars the store compares with [==] and [!=]. *)
Inductive value :=
  | VNull
  | VInt (z : Z)
  | VStr (s : string).

#[global] Instance value_eq_dec : EqDecision value.
Proof. solve_decision. Defined.

(** [block['edit_info']] *)
Record block_edit_info := BlockEditInfo {
  ei_edited_on : timestamp;
  ei_edited_by : UserId;
  ei_previous_version : option ObjectId;
  ei_update_version : ObjectId
}.

(** [block['fields']]: the settings of the block and, under the key
    ['children'], the list of its children. The key ['children'] is kept
    apart from the other keys, as [_compare_settings] does; [None] is a
    dictionary without that key. *)
Record block_fields := BlockFields {
  f_settings : gmap string value;
  f_children : option (list BlockId)
}.

(** An entry of [structure['blocks']]. *)
Record block := Block {
  b_category : string;
  b_definition : ObjectId;
  b_fields : block_fields;
  b_edit_info : block_edit_info
}.

(** A document of the [structures] collection. *)
Record structure := Structure {
  s_id : ObjectId;
  s_root : BlockId;
  s_previous_version : option ObjectId;
  s_original_version : ObjectId;
  s_edited_by : UserId;
  s_edited_on : timestamp;
  s_blocks : gmap string block
}.

(** [definition['edit_info']] *)
Record definition_edit_info := DefinitionEditInfo {
  d_edited_by : UserId;
  d_edited_on : timestamp;
  d_previous_version : option ObjectId;
  d_original_version : ObjectId
}.

(** A document of the [definitions] collection. *)
Record definition_doc := DefinitionDoc {
  d_id : ObjectId;
  d_category : string;
  d_fields : gmap string value;
  d_edit_info : definition_edit_info
}.

(** A document of the [course_index] collection. *)
Record course_index := CourseIndex {
  ci_id : string;
  ci_org : string;
  ci_prettyid : string;
  ci_edited_by : UserId;
  ci_edited_on : timestamp;
  ci_versions : gmap string ObjectId
}.

(** Locators. A [CourseLocator] has no [BlockId]; a [BlockUsageLocator]
    may have one. *)
Record locator := Locator {
  l_package_id : option string;
  l_branch : option string;
  l_version_guid : option ObjectId;
  l_block_id : option BlockId
}.

#[global] Instance locator_eq_dec : EqDecision locator.
Proof. solve_decision. Defined.

Definition CourseLocator (p : option string) (b : option string)
    (v : option ObjectId) : locator :=
  Locator p b v None.

Definition as_course_locator (l : locator) : locator :=
  Locator (l_package_id l) (l_branch l) (l_version_guid l) None.

(** Modelled from the spec: [is_fully_specified] of the locator module,
    which is not part of this file; "at least one of [package_id] or
    [version_guid]". *)
Definition is_fully_specified (l : locator) : bool :=
  bool_decide (is_Some (l_package_id l)) || bool_decide (is_Some (l_version_guid l)).

(** Modelled from the spec: the key encoder of [LocMapperStore], which is not
    part of this file. It escapes the characters that a document key cannot
    hold and [decode (encode x) = x]; block ids are taken free of such
    characters, where the encoder leaves them as they are. *)
Definition encode_key_for_mongo (b : BlockId) : string := b.
Definition decode_key_from_mongo (k : string) : BlockId := k.

(** ** The store and its exceptions *)

Inductive error :=
  | InsufficientSpecificationError
  | ItemNotFoundError
  | VersionConflictError (l : locator) (head : ObjectId)
  | DuplicateItemError (b : BlockId)
  | ValueError
  | KeyError
  | AttributeError
  | TypeError
  | AssertionError
  | RecursionError
  | InvalidDocument.

#[global] Instance error_eq_dec : EqDecision error.
Proof. solve_decision. Defined.

(** The three collections of the database, the generator of [ObjectId()],
    the clock read by [datetime.now(UTC)] and the keys of
    [thread_cache.course_cache]; the cache is [None] as long as the thread
    has not created the attribute. *)
Record store := Store {
  course_indexes : gmap string course_index;
  structures : gmap N structure;
  definitions : gmap N definition_doc;
  next_oid : ObjectId;
  clock : timestamp;
  course_cache : option (gset N)
}.

(** A computation reads and writes the store and either raises or returns. *)
Definition M (A : Type) : Type := store → (error + A) * store.

Definition raise {A} (e : error) : M A := λ s, (inl e, s).

#[global] Instance M_ret : MRet M := λ A a s, (inr a, s).
#[global] Instance M_bind : MBind M :=
  λ A B k m s, match m s with
               | (inl e, s') => (inl e, s')
               | (inr a, s') => k a s'
               end.

Definition ret {A} (a : A) : M A := mret a.

Definition gets {A} (f : store → A) : M A := λ s, (inr (f s), s).
Definition modify (f : store → store) : M unit := λ s, (inr tt, f s).

(** [d[k]] on a dictionary: [KeyError] when the key is missing. *)
Definition getitem {A} (o : option A) : M A :=
  match o with Some a => ret a | None => raise KeyError end.

(** Subscripting the result of a query that found nothing ([None]). *)
Definition subscript {A} (o : option A) : M A :=
  match o with Some a => ret a | None => raise TypeError end.

(** [ObjectId()] *)
Definition new_ObjectId : M ObjectId :=
  λ s, (inr (next_oid s),
        Store (course_indexes s) (structures s) (definitions s)
              (N.succ (next_oid s)) (clock s) (course_cache s)).

(** [datetime.datetime.now(UTC)] *)
Definition now : M timestamp := gets clock.

(** *** The document connector

    Modelled from the spec: [MongoConnection] is not part of this file. Each
    collection is keyed by [_id]; reads return the document or [None], a
    write replaces the document stored under its [_id]. *)

Definition set_course_indexes (f : gmap string course_index → gmap string course_index)
    (s : store) : store :=
  Store (f (course_indexes s)) (structures s) (definitions s)
        (next_oid s) (clock s) (course_cache s).

Definition set_structures (f : gmap N structure → gmap N structure)
    (s : store) : store :=
  Store (course_indexes s) (f (structures s)) (definitions s)
        (next_oid s) (clock s) (course_cache s).

Definition set_definitions (f : gmap N definition_doc → gmap N definition_doc)
    (s : store) : store :=
  Store (course_indexes s) (structures s) (f (definitions s))
        (next_oid s) (clock s) (course_cache s).

(** A write to [thread_cache.course_cache]; [_get_cache] and [_add_cache]
    start from [{}] when the attribute is missing. *)
Definition set_course_cache (f : gset N → gset N) (s : store) : store :=
  Store (course_indexes s) (structures s) (definitions s)
        (next_oid s) (clock s) (Some (f (default ∅ (course_cache s)))).

Definition get_course_index (p : string) : M (option course_index) :=
  gets (λ s, course_indexes s !! p).

Definition insert_course_index (i : course_index) : M unit :=
  modify (set_course_indexes (insert (ci_id i) i)).

Definition update_course_index (i : course_index) : M unit :=
  modify (set_course_indexes (insert (ci_id i) i)).

Definition delete_course_index (p : string) : M unit :=
  modify (set_course_indexes (delete p)).

Definition get_structure (v : option ObjectId) : M (option structure) :=
  gets (λ s, v ≫= λ i, structures s !! i).

Definition insert_structure (st : structure) : M unit :=
  modify (set_structures (insert (s_id st) st)).

Definition update_structure (st : structure) : M unit :=
  modify (set_structures (insert (s_id st) st)).

Definition get_definition (d : ObjectId) : M (option definition_doc) :=
  gets (λ s, definitions s !! d).

Definition insert_definition (d : definition_doc) : M unit :=
  modify (set_definitions (insert (d_id d) d)).

(** [find_matching_structures({'previous_version': v})] and
    [find_matching_structures({'previous_version': {'$in': vs}})] *)
Definition has_previous_in (vs : list ObjectId) (st : structure) : bool :=
  match s_previous_version st with
  | Some p => bool_decide (p ∈ vs)
  | None => false
  end.

Definition find_structures_by_previous (vs : list ObjectId) : M (list structure) :=
  gets (λ s, filter (λ st, has_previous_in vs st = true)
                    (snd <$> map_to_list (structures s))).

(** [find_matching_course_indexes({"_id": {"$regex": ...}})], the regular
    expression given as a test on the id. *)
Definition find_course_indexes_by_id (matches : string → bool) : M (list course_index) :=
  gets (λ s, filter (λ i, matches (ci_id i) = true)
                    (snd <$> map_to_list (course_indexes s))).

(** ** Resolving a locator *)

(** The envelope returned by [_lookup_course]. *)
Record envelope := Envelope {
  env_package_id : option string;
  env_branch : option string;
  env_structure : option structure
}.

Definition _lookup_course (course_locator : locator) : M envelope :=
  if negb (is_fully_specified course_locator) then
    raise InsufficientSpecificationError
  else
    version_guid ←
      match l_package_id course_locator, l_branch course_locator with
      | Some p, Some b =>
          index ← get_course_index p;
          match index with
          | None => raise ItemNotFoundError
          | Some index =>
              match ci_versions index !! b with
              | None => raise ItemNotFoundError
              | Some head =>
                  match l_version_guid course_locator with
                  | Some v =>
                      if bool_decide (head ≠ v)
                      then raise (VersionConflictError course_locator head)
                      else ret (Some head)
                  | None => ret (Some head)
                  end
              end
          end
      | _, _ => ret (l_version_guid course_locator)
      end;
    entry ← get_structure version_guid;
    ret (Envelope (l_package_id course_locator) (l_branch course_locator) entry).

Definition _get_index_if_valid (l : locator) (force continue_version : bool)
    : M (option course_index) :=
  match l_package_id l, l_branch l with
  | Some p, Some b =>
      index_entry ← get_course_index p;
      is_head ←
        match l_version_guid l with
        | None => ret true
        | Some v =>
            index ← subscript index_entry;
            head ← getitem (ci_versions index !! b);
            ret (bool_decide (head = v))
        end;
      if is_head || (force && negb continue_version) then
        ret index_entry
      else
        index ← subscript index_entry;
        head ← getitem (ci_versions index !! b);
        raise (VersionConflictError l head)
  | _, _ =>
      if continue_version then raise InsufficientSpecificationError
      else ret None
  end.

(** A branch that is not a string cannot be a key of [versions]: the
    connector refuses the document. *)
Definition _update_head (index_entry : course_index) (b : option string)
    (new_id : ObjectId) : M unit :=
  match b with
  | None => raise InvalidDocument
  | Some b =>
      update_course_index
        (CourseIndex (ci_id index_entry) (ci_org index_entry) (ci_prettyid index_entry)
                     (ci_edited_by index_entry) (ci_edited_on index_entry)
                     (<[b := new_id]> (ci_versions index_entry)))
  end.

(** [for x in l: acc = body acc x], for loops that update local data. *)
Fixpoint foldM {A B} (body : B → A → M B) (acc : B) (l : list A) : M B :=
  match l with
  | [] => ret acc
  | x :: l' => acc' ← body acc x; foldM body acc' l'
  end.

(** ** Definitions *)

(** [definition_locator.definition_id]: a database id, or the placeholder
    [LocalId] of a definition that is not persisted yet. *)
Inductive definition_id :=
  | LocalId
  | DefinitionId (d : ObjectId).

#[global] Instance definition_id_eq_dec : EqDecision definition_id.
Proof. solve_decision. Defined.

Definition _filter_special_fields (fields : gmap string value) : gmap string value :=
  let fields := if bool_decide (is_Some (fields !! "location"))
                then delete "location" fields else fields in
  let fields := if bool_decide (is_Some (fields !! "category"))
                then delete "category" fields else fields in
  fields.

Definition create_definition_from_data (new_def_data : gmap string value)
    (category : string) (user_id : UserId) : M definition_id :=
  let new_def_data := _filter_special_fields new_def_data in
  new_id ← new_ObjectId;
  t ← now;
  insert_definition
    (DefinitionDoc new_id category new_def_data
                   (DefinitionEditInfo user_id t None new_id));;
  ret (DefinitionId new_id).

(** The local function [needs_saved] of [update_definition_from_data]. *)
Definition needs_saved (new_def_data old_fields : gmap string value) : bool :=
  existsb (λ '(key, v), bool_decide (old_fields !! key = None)
                        || bool_decide (Some v ≠ old_fields !! key))
          (map_to_list new_def_data)
  || existsb (λ '(key, _), bool_decide (new_def_data !! key = None))
             (map_to_list old_fields).

Definition get_definition_by_locator (d : definition_id) : M (option definition_doc) :=
  match d with
  | LocalId => ret None
  | DefinitionId d => get_definition d
  end.

Definition update_definition_from_data (definition_locator : definition_id)
    (new_def_data : gmap string value) (user_id : UserId)
    : M (definition_id * bool) :=
  let new_def_data := _filter_special_fields new_def_data in
  old_definition ← get_definition_by_locator definition_locator;
  match old_definition, definition_locator with
  | Some old_definition, DefinitionId old_id =>
      if needs_saved new_def_data (d_fields old_definition) then
        new_id ← new_ObjectId;
        t ← now;
        insert_definition
          (DefinitionDoc new_id (d_category old_definition) new_def_data
             (DefinitionEditInfo user_id t (Some old_id)
                (d_original_version (d_edit_info old_definition))));;
        ret (DefinitionId new_id, true)
      else
        ret (definition_locator, false)
  | _, _ => raise ItemNotFoundError
  end.

(** ** Structures and blocks *)

(** [str(n)] and [int(s)] on decimal numerals. *)
Definition str (n : nat) : string := NilEmpty.string_of_uint (Nat.to_uint n).
Definition int (s : string) : option nat := Nat.of_uint <$> NilEmpty.uint_of_string s.

Definition set_blocks (f : gmap string block → gmap string block)
    (st : structure) : structure :=
  Structure (s_id st) (s_root st) (s_previous_version st) (s_original_version st)
            (s_edited_by st) (s_edited_on st) (f (s_blocks st)).

Definition set_fields (f : block_fields → block_fields) (b : block) : block :=
  Block (b_category b) (b_definition b) (f (b_fields b)) (b_edit_info b).

Definition set_children (c : list BlockId) (f : block_fields) : block_fields :=
  BlockFields (f_settings f) (Some c).

(** [fields.get('children', [])] *)
Definition get_children (f : block_fields) : list BlockId :=
  default [] (f_children f).

Definition _get_block_from_structure (st : structure) (b : BlockId) : option block :=
  s_blocks st !! encode_key_for_mongo b.

Definition _update_block_in_structure (st : structure) (b : BlockId)
    (content : block) : structure :=
  set_blocks (insert (encode_key_for_mongo b) content) st.

(** The loop of [_generate_block_id]; it ends within [size course_blocks + 1]
    tests, which is the fuel [_generate_block_id] gives it. *)
Fixpoint _generate_block_id_from (fuel : nat) (course_blocks : gmap string block)
    (category : string) (serial : nat) : string :=
  match fuel with
  | 0 => category +:+ str serial
  | S fuel' =>
      if bool_decide (is_Some (course_blocks !! (category +:+ str serial)))
      then _generate_block_id_from fuel' course_blocks category (S serial)
      else category +:+ str serial
  end.

Definition _generate_block_id (course_blocks : gmap string block)
    (category : string) : string :=
  _generate_block_id_from (S (size course_blocks)) course_blocks category 1.

Definition _version_structure (st : option structure) (user_id : UserId)
    : M structure :=
  new_id ← new_ObjectId;
  st ← subscript st;
  t ← now;
  ret (Structure new_id (s_root st) (Some (s_id st)) (s_original_version st)
                 user_id t (s_blocks st)).

Definition _new_block (user_id : UserId) (category : string)
    (block_fields : block_fields) (definition_id new_id : ObjectId) : M block :=
  t ← now;
  ret (Block category definition_id block_fields
             (BlockEditInfo t user_id None new_id)).

(** [_new_structure]; [root_block] holds [root_category], [block_fields] and
    [definition_id] when [root_category] is given. *)
Definition _new_structure (user_id : UserId) (root_block_id : BlockId)
    (root_block : option (string * block_fields * ObjectId)) : M structure :=
  new_id ← new_ObjectId;
  blocks ←
    match root_block with
    | Some (root_category, block_fields, definition_id) =>
        b ← _new_block user_id root_category block_fields definition_id new_id;
        ret ({[ encode_key_for_mongo root_block_id := b ]} : gmap string block)
    | None => ret ∅
    end;
  t ← now;
  ret (Structure new_id root_block_id None new_id user_id t blocks).

Definition _get_parents_from_structure (b : BlockId) (st : structure)
    : list string :=
  '(parent_id, value) ← map_to_list (s_blocks st);
  child_id ← get_children (b_fields value);
  if bool_decide (b = child_id) then [parent_id] else [].

Definition _compare_settings (new_settings : gmap string value)
    (original_fields : block_fields) : bool :=
  let original_keys := (map_to_list (f_settings original_fields)).*1 in
  if bool_decide (size new_settings ≠ length original_keys) then true
  else existsb (λ key, bool_decide (new_settings !! key = None)
                       || bool_decide (f_settings original_fields !! key
                                       ≠ new_settings !! key))
               original_keys.

(** ** Reading items *)

(** What [update_item] reads from an xblock descriptor: its location, its
    definition, the fields set in the content and settings scopes and its
    children. *)
Record descriptor := Descriptor {
  x_location : locator;
  x_definition_locator : definition_id;
  x_content_fields : gmap string value;
  x_settings_fields : gmap string value;
  x_has_children : bool;
  x_children : list BlockId
}.

(** Modelled from the spec: [CachingDescriptorSystem.load_item], the runtime
    that materializes a cached block into a descriptor, is not part of this
    file. The descriptor carries what the block and its definition hold; a
    block that the structure lacks is [ItemNotFoundError]. *)
Definition load_item (course_entry : envelope) (st : structure)
    (b : BlockId) : M descriptor :=
  match _get_block_from_structure st b with
  | None => raise ItemNotFoundError
  | Some json_data =>
      def ← get_definition (b_definition json_data);
      ret (Descriptor
             (Locator (env_package_id course_entry) (env_branch course_entry)
                      (Some (s_id st)) (Some b))
             (DefinitionId (b_definition json_data))
             (from_option d_fields ∅ def)
             (f_settings (b_fields json_data))
             (bool_decide (is_Some (f_children (b_fields json_data))))
             (get_children (b_fields json_data)))
  end.

(** [_load_items]: the structure gets an entry in the cache of the thread,
    then each block is materialized. *)
Definition _load_items (course_entry : envelope) (block_ids : list BlockId)
    : M (list descriptor) :=
  st ← subscript (env_structure course_entry);
  modify (set_course_cache (λ c, {[ s_id st ]} ∪ c));;
  mapM (load_item course_entry st) block_ids.

(** [_clear_cache]: [del self.thread_cache.course_cache[v]] reads the
    attribute, which is [AttributeError] on a thread that never created it,
    and deletes the key, which is [KeyError] when the cache lacks it. *)
Definition _clear_cache (course_version_guid : option ObjectId) : M unit :=
  match course_version_guid with
  | Some v =>
      cache ← gets course_cache;
      match cache with
      | None => raise AttributeError
      | Some cache =>
          if bool_decide (v ∈ cache)
          then modify (set_course_cache (λ c, c ∖ {[ v ]}))
          else raise KeyError
      end
  | None => modify (set_course_cache (λ _, ∅))
  end.

Definition get_course (course_locator : locator) : M descriptor :=
  course_entry ← _lookup_course course_locator;
  st ← subscript (env_structure course_entry);
  result ← _load_items course_entry [s_root st];
  getitem (head result).

Definition get_item (l : locator) : M descriptor :=
  match l_block_id l with
  | None => raise InsufficientSpecificationError
  | Some b =>
      course ← _lookup_course l;
      items ← _load_items course [b];
      match items with
      | [] => raise ItemNotFoundError
      | item :: _ => ret item
      end
  end.

(** ** Writing items *)

(** The fields of a new block, as [_partition_fields_by_scope] sorts them
    with the block classes: content, settings and children scope. *)
Record partitioned_fields := PartitionedFields {
  scope_content : gmap string value;
  scope_settings : gmap string value;
  scope_children : option (list BlockId)
}.

Definition no_fields : partitioned_fields := PartitionedFields ∅ ∅ None.

(** [parent['edit_info']] after a change made in structure [new_id]. *)
Definition bump_edit_info (user_id : UserId) (t : timestamp) (new_id : ObjectId)
    (b : block) : block :=
  Block (b_category b) (b_definition b) (b_fields b)
        (BlockEditInfo t user_id (Some (ei_update_version (b_edit_info b))) new_id).

Definition create_item (course_or_parent_locator : locator) (category : string)
    (user_id : UserId) (block_id : option BlockId)
    (definition_locator : option definition_id)
    (fields : option partitioned_fields) (force continue_version : bool)
    : M descriptor :=
  index_entry ← _get_index_if_valid course_or_parent_locator force continue_version;
  course ← _lookup_course course_or_parent_locator;
  let original_structure := env_structure course in
  let partitioned := default no_fields fields in
  let new_def_data := scope_content partitioned in
  definition_locator ←
    match definition_locator with
    | None | Some LocalId => create_definition_from_data new_def_data category user_id
    | Some d =>
        r ← update_definition_from_data d new_def_data user_id;
        ret (fst r)
    end;
  new_structure ←
    (if continue_version then subscript original_structure
     else _version_structure original_structure user_id);
  let new_id := s_id new_structure in
  new_block_id ←
    match block_id with
    | Some block_id =>
        if bool_decide (is_Some (s_blocks new_structure !! encode_key_for_mongo block_id))
        then raise (DuplicateItemError block_id)
        else ret block_id
    | None => ret (_generate_block_id (s_blocks new_structure) category)
    end;
  let block_fields :=
    BlockFields (scope_settings partitioned)
                (scope_children partitioned) in
  definition_id ←
    match definition_locator with
    | DefinitionId d => ret d
    | LocalId => raise TypeError
    end;
  t ← now;
  let new_structure :=
    _update_block_in_structure new_structure new_block_id
      (Block category definition_id block_fields
             (BlockEditInfo t user_id None new_id)) in
  new_structure ←
    match l_block_id course_or_parent_locator with
    | Some parent_id =>
        let encoded_block_id := encode_key_for_mongo parent_id in
        parent ← getitem (s_blocks new_structure !! encoded_block_id);
        let parent :=
          set_fields (set_children (get_children (b_fields parent) ++ [new_block_id]))
                     parent in
        t ← now;
        let parent :=
          if negb continue_version
             || bool_decide (Some (ei_update_version (b_edit_info parent))
                             ≠ s_id <$> original_structure)
          then bump_edit_info user_id t new_id parent
          else parent in
        ret (set_blocks (insert encoded_block_id parent) new_structure)
    | None => ret new_structure
    end;
  (if continue_version then
     update_structure new_structure;;
     _clear_cache (Some new_id)
   else insert_structure new_structure);;
  course_parent ←
    match index_entry with
    | Some index_entry =>
        (if negb continue_version
         then _update_head index_entry (l_branch course_or_parent_locator) new_id
         else ret tt);;
        ret (l_package_id course_or_parent_locator)
    | None => ret None
    end;
  get_item (Locator course_parent None (Some new_id) (Some new_block_id)).

Definition update_item (d : descriptor) (user_id : UserId) (force : bool)
    : M descriptor :=
  course ← _lookup_course (x_location d);
  let original_structure := env_structure course in
  index_entry ← _get_index_if_valid (x_location d) force false;
  '(new_definition_locator, is_updated) ←
    update_definition_from_data (x_definition_locator d) (x_content_fields d) user_id;
  let d := Descriptor (x_location d) new_definition_locator (x_content_fields d)
                      (x_settings_fields d) (x_has_children d)
                      (x_children d) in
  original_structure' ← subscript original_structure;
  block_id ← subscript (l_block_id (x_location d));
  let original_entry := _get_block_from_structure original_structure' block_id in
  is_updated ←
    (if is_updated : bool then ret true
     else if x_has_children d then
       original_entry ← subscript original_entry;
       original_children ← getitem (f_children (b_fields original_entry));
       ret (bool_decide (original_children ≠ x_children d))
     else ret false);
  is_updated ←
    (if is_updated : bool then ret true
     else
       original_entry ← subscript original_entry;
       ret (_compare_settings (x_settings_fields d) (b_fields original_entry)));
  if is_updated : bool then
    new_structure ← _version_structure original_structure user_id;
    block_data ← subscript (_get_block_from_structure new_structure block_id);
    definition_id ←
      match x_definition_locator d with
      | DefinitionId i => ret i
      | LocalId => raise TypeError
      end;
    let new_id := s_id new_structure in
    t ← now;
    let block_data :=
      Block (b_category block_data) definition_id
            (BlockFields (x_settings_fields d)
                         (if x_has_children d then Some (x_children d)
                          else None))
            (BlockEditInfo t user_id
                           (Some (ei_update_version (b_edit_info block_data)))
                           new_id) in
    let new_structure :=
      set_blocks (insert (encode_key_for_mongo block_id) block_data) new_structure in
    insert_structure new_structure;;
    match index_entry with
    | Some index_entry => _update_head index_entry (l_branch (x_location d)) new_id
    | None => ret tt
    end;;
    get_item (Locator (l_package_id (x_location d)) (l_branch (x_location d))
                      (Some new_id) (l_block_id (x_location d)))
  else
    ret d.

(** [l.remove(x)]: the first occurrence goes; [ValueError] when there is
    none. *)
Fixpoint list_remove (x : BlockId) (l : list BlockId) : option (list BlockId) :=
  match l with
  | [] => None
  | y :: l' => if bool_decide (x = y) then Some l'
               else (y ::.) <$> list_remove x l'
  end.

(** [del d[k]] *)
Definition del_block (k : string) (m : gmap string block) : M (gmap string block) :=
  if bool_decide (is_Some (m !! k)) then ret (delete k m) else raise KeyError.

(** The block ids of the parents, as [get_parent_locations] returns them in
    locators. *)
Definition get_parent_locations (l : locator) : M (list BlockId) :=
  course ← _lookup_course l;
  st ← subscript (env_structure course);
  block_id ← subscript (l_block_id l);
  ret (decode_key_from_mongo <$> _get_parents_from_structure block_id st).

(** The local function [remove_subtree] of [delete_item]; [fuel] bounds the
    depth of the recursion, as the interpreter does. *)
Fixpoint remove_subtree (fuel : nat) (new_blocks : gmap string block)
    (block_id : BlockId) : M (gmap string block) :=
  match fuel with
  | 0 => raise RecursionError
  | S fuel' =>
      let encoded_block_id := encode_key_for_mongo block_id in
      b ← getitem (new_blocks !! encoded_block_id);
      new_blocks ← foldM (remove_subtree fuel') new_blocks (get_children (b_fields b));
      del_block encoded_block_id new_blocks
  end.

Definition delete_item (fuel : nat) (usage_locator : locator) (user_id : UserId)
    (delete_children force : bool) : M locator :=
  match l_block_id usage_locator with
  | None => raise AssertionError
  | Some block_id =>
      course ← _lookup_course usage_locator;
      let original_structure := env_structure course in
      original ← subscript original_structure;
      if bool_decide (s_root original = block_id) then raise ValueError
      else
        index_entry ← _get_index_if_valid usage_locator force false;
        new_structure ← _version_structure original_structure user_id;
        let new_blocks := s_blocks new_structure in
        let new_id := s_id new_structure in
        parents ← get_parent_locations usage_locator;
        new_blocks ←
          foldM (λ new_blocks parent,
                   let encoded_block_id := encode_key_for_mongo parent in
                   parent_block ← getitem (new_blocks !! encoded_block_id);
                   children ← getitem (f_children (b_fields parent_block));
                   match list_remove block_id children with
                   | None => raise ValueError
                   | Some children =>
                       t ← now;
                       ret (<[encoded_block_id :=
                                bump_edit_info user_id t new_id
                                  (set_fields (set_children children) parent_block)]>
                              new_blocks)
                   end)
                new_blocks parents;
        new_blocks ←
          (if delete_children then remove_subtree fuel new_blocks block_id
           else del_block (encode_key_for_mongo block_id) new_blocks);
        let new_structure := set_blocks (λ _, new_blocks) new_structure in
        insert_structure new_structure;;
        match index_entry with
        | Some index_entry =>
            _update_head index_entry (l_branch usage_locator) new_id;;
            ret (CourseLocator (l_package_id usage_locator)
                               (l_branch usage_locator) (Some new_id))
        | None => ret (CourseLocator None None (Some new_id))
        end
  end.

(** ** Publishing *)

Definition _filter_blacklist (fields : block_fields) (blacklist : list BlockId)
    : block_fields :=
  set_children (filter (λ child, child ∉ blacklist) (get_children fields)) fields.

(** [_sync_children] returns the orphans; the destination parent is changed
    in place and is returned with them. *)
Definition _sync_children (source_parent destination_parent : block)
    (new_child : BlockId) : M (gset BlockId * block) :=
  destination_children ← getitem (f_children (b_fields destination_parent));
  source_children ← getitem (f_children (b_fields source_parent));
  let orphans : gset BlockId :=
    list_to_set (filter (λ child, child ∉ source_children) destination_children) in
  let destination_reordered :=
    filter (λ child, child = new_child ∨ child ∈ destination_children)
           source_children in
  ret (orphans,
       set_fields (set_children destination_reordered) destination_parent).

(** [_publish_subdag] returns the orphans it finds; [destination_blocks] is
    changed in place and is returned with them. *)
Fixpoint _publish_subdag (fuel : nat) (user_id : UserId) (block_id : BlockId)
    (source_blocks destination_blocks : gmap string block)
    (blacklist : list BlockId) : M (gset BlockId * gmap string block) :=
  match fuel with
  | 0 => raise RecursionError
  | S fuel' =>
      let encoded_block_id := encode_key_for_mongo block_id in
      new_block ← getitem (source_blocks !! encoded_block_id);
      '(orphans, destination_block) ←
        match destination_blocks !! encoded_block_id with
        | Some destination_block =>
            if bool_decide (ei_update_version (b_edit_info destination_block)
                            ≠ ei_update_version (b_edit_info new_block))
            then
              source_children ← getitem (f_children (b_fields new_block));
              destination_children ←
                getitem (f_children (b_fields destination_block));
              let orphans : gset BlockId :=
                list_to_set (filter (λ child, child ∉ source_children)
                                    destination_children) in
              let previous_version := ei_update_version (b_edit_info new_block) in
              ret (orphans,
                   Block (b_category new_block) (b_definition new_block)
                         (_filter_blacklist (b_fields new_block) blacklist)
                         (BlockEditInfo (ei_edited_on (b_edit_info new_block))
                                        user_id (Some previous_version)
                                        (ei_update_version (b_edit_info new_block))))
            else ret (∅, destination_block)
        | None =>
            b ← _new_block user_id (b_category new_block)
                  (_filter_blacklist (b_fields new_block) blacklist)
                  (b_definition new_block)
                  (ei_update_version (b_edit_info new_block));
            ret (∅, b)
        end;
      '(orphans, destination_blocks) ←
        foldM (λ '(orphans, destination_blocks) child,
                 if bool_decide (child ∈ blacklist)
                 then ret (orphans, destination_blocks)
                 else
                   '(more, destination_blocks) ←
                     _publish_subdag fuel' user_id child source_blocks
                                     destination_blocks blacklist;
                   ret (orphans ∪ more, destination_blocks))
              (orphans, destination_blocks)
              (get_children (b_fields destination_block));
      ret (orphans, <[encoded_block_id := destination_block]> destination_blocks)
  end.

Fixpoint _delete_if_true_orphan (fuel : nat) (st : structure) (orphan : BlockId)
    : M structure :=
  match fuel with
  | 0 => raise RecursionError
  | S fuel' =>
      if bool_decide (_get_parents_from_structure orphan st = []) then
        let encoded_block_id := encode_key_for_mongo orphan in
        b ← getitem (s_blocks st !! encoded_block_id);
        st ← foldM (_delete_if_true_orphan fuel') st (get_children (b_fields b));
        new_blocks ← del_block encoded_block_id (s_blocks st);
        ret (set_blocks (λ _, new_blocks) st)
      else ret st
  end.

Definition xblock_publish (fuel : nat) (user_id : UserId)
    (source_course destination_course : locator)
    (subtree_list blacklist : list BlockId) : M unit :=
  source ← _lookup_course source_course;
  let source_structure := env_structure source in
  index_entry ← gets (λ s, l_package_id destination_course ≫= λ p, course_indexes s !! p);
  match index_entry with
  | None => raise ItemNotFoundError
  | Some index_entry =>
      let head := l_branch destination_course ≫= λ b, ci_versions index_entry !! b in
      destination_structure ←
        match head with
        | None =>
            source_structure ← subscript source_structure;
            if bool_decide (s_root source_structure ∉ subtree_list)
            then raise ItemNotFoundError
            else _new_structure user_id (s_root source_structure) None
        | Some _ =>
            destination ← _lookup_course destination_course;
            _version_structure (env_structure destination) user_id
        end;
      '(orphans, destination_blocks) ←
        foldM (λ '(orphans, destination_blocks) subtree_root,
                 source_structure ← subscript source_structure;
                 let parents := _get_parents_from_structure subtree_root source_structure in
                 if negb (forallb (λ parent, bool_decide (is_Some (destination_blocks !! parent))) parents)
                 then raise ItemNotFoundError
                 else
                   '(orphans, destination_blocks) ←
                     foldM (λ '(orphans, destination_blocks) parent_loc,
                              source_parent ← getitem (s_blocks source_structure !! parent_loc);
                              destination_parent ← getitem (destination_blocks !! parent_loc);
                              '(more, destination_parent) ←
                                _sync_children source_parent destination_parent subtree_root;
                              ret (orphans ∪ more,
                                   <[parent_loc := destination_parent]> destination_blocks))
                           (orphans, destination_blocks) parents;
                   '(more, destination_blocks) ←
                     _publish_subdag fuel user_id subtree_root
                                     (s_blocks source_structure) destination_blocks blacklist;
                   ret (orphans ∪ more, destination_blocks))
              ((∅ : gset BlockId), s_blocks destination_structure) subtree_list;
      let destination_structure := set_blocks (λ _, destination_blocks) destination_structure in
      destination_structure ←
        foldM (_delete_if_true_orphan fuel) destination_structure (elements orphans);
      insert_structure destination_structure;;
      _update_head index_entry (l_branch destination_course) (s_id destination_structure)
  end.

(** ** History *)

(** [VersionTree(locator, tree_dict)]: the root and the dictionary from a
    structure id to the locators of its successors. *)
Record VersionTree := MkVersionTree {
  vt_locator : locator;
  vt_tree : gmap N (list locator)
}.

(** [result.setdefault(k, []).append(x)] *)
Definition setdefault_append (k : ObjectId) (x : locator)
    (result : gmap N (list locator)) : gmap N (list locator) :=
  <[k := (default [] (result !! k) ++ [x])%list]> result.

(** The [while] loop of [get_course_successors]; [levels] is
    [version_history_depth - depth]. The variable [struct] of the list
    comprehension stays bound after it (Python 2), to the last structure of
    [next_versions]: that is the one the body of the [for] loop reads. *)
Fixpoint successors_loop (levels : nat) (next_versions : list structure)
    (result : gmap N (list locator)) : M (gmap N (list locator)) :=
  match levels with
  | 0 => ret result
  | S levels' =>
      if bool_decide (0 < length next_versions) then
        next_versions ← find_structures_by_previous (s_id <$> next_versions);
        let result :=
          match last next_versions with
          | None => result
          | Some struct =>
              foldl (λ result course_structure,
                       match s_previous_version course_structure with
                       | Some previous =>
                           setdefault_append previous
                             (CourseLocator None None (Some (s_id struct))) result
                       | None => result
                       end)
                    result next_versions
          end in
        successors_loop levels' next_versions result
      else ret result
  end.

Definition get_course_successors (course_locator : locator)
    (version_history_depth : nat) : M (option VersionTree) :=
  if bool_decide (version_history_depth < 1) then ret None
  else
    version_guid ←
      match l_version_guid course_locator with
      | None =>
          course ← _lookup_course course_locator;
          st ← subscript (env_structure course);
          ret (s_id st)
      | Some v => ret v
      end;
    next_versions ← find_structures_by_previous [version_guid];
    let result : gmap N (list locator) :=
      {[ version_guid :=
           (λ struct, CourseLocator None None (Some (s_id struct))) <$> next_versions ]} in
    result ← successors_loop (version_history_depth - 1) next_versions result;
    ret (Some (MkVersionTree
                 (CourseLocator (l_package_id course_locator)
                                (l_branch course_locator) (Some version_guid))
                 result)).

(** ** Orphans *)

(** [detached_categories] stands for the names that
    [XBlock.load_tagged_classes("detached")] gives. *)
Definition get_orphans (detached_categories : list string)
    (package_id branch : string) : M (list locator) :=
  course ← _lookup_course (CourseLocator (Some package_id) (Some branch) None);
  st ← subscript (env_structure course);
  let items : gset BlockId :=
    list_to_set (decode_key_from_mongo <$> (map_to_list (s_blocks st)).*1) in
  items ← (if bool_decide (s_root st ∈ items) then ret (items ∖ {[ s_root st ]})
           else raise KeyError);
  let items :=
    foldl (λ (items : gset BlockId) '(block_id, block_data),
             let items := items ∖ list_to_set (get_children (b_fields block_data)) in
             if bool_decide (b_category block_data ∈ detached_categories)
             then items ∖ {[ decode_key_from_mongo block_id ]}
             else items)
          items (map_to_list (s_blocks st)) in
  ret ((λ block_id, Locator (Some package_id) (Some branch) None (Some block_id))
         <$> elements items).

(** ** Creating courses *)

(** The regular expressions of [_generate_package_id] are built from
    [id_root] as it comes, without [re.escape]. The searches below are those
    of an [id_root] that is [regex_literal]: one without a character that a
    regular expression reads as an operator, so that it matches exactly where
    it occurs. What the searches do for any other [id_root] is not modelled,
    and the theorems on the generated id assume [regex_literal]. *)

(** The characters with a meaning of their own in a regular expression. *)
Definition regex_special (c : ascii) : bool :=
  bool_decide (c ∈ String.list_ascii_of_string "\^$.|?*+()[]{}").

Fixpoint regex_literal (id_root : string) : bool :=
  match id_root with
  | String c rest => negb (regex_special c) && regex_literal rest
  | EmptyString => true
  end.

Definition is_digit (c : ascii) : bool :=
  (48 <=? nat_of_ascii c)%nat && (nat_of_ascii c <=? 57)%nat.

(** The longest prefix of digits: what [(\d+)] takes. *)
Fixpoint take_digits (s : string) : string :=
  match s with
  | String c s' => if is_digit c then String c (take_digits s') else ""
  | EmptyString => ""
  end.

Fixpoint strip_prefix (p s : string) : option string :=
  match p, s with
  | EmptyString, _ => Some s
  | String a p', String b s' => if Ascii.eqb a b then strip_prefix p' s' else None
  | String _ _, EmptyString => None
  end.

(** [re.search(id_root, s) is not None], for a [regex_literal] [id_root]:
    whether [id_root] occurs in [s]. *)
Fixpoint re_search (id_root s : string) : bool :=
  match strip_prefix id_root s with
  | Some _ => true
  | None => match s with
            | String _ s' => re_search id_root s'
            | EmptyString => false
            end
  end.

(** [re.search(id_root + r'(\d+)', s)], for a [regex_literal] [id_root]:
    [group(1)] of the leftmost match, the digits after the first occurrence
    of [id_root] that a digit follows. *)
Fixpoint re_search_serial (id_root s : string) : option string :=
  let next := match s with
              | String _ s' => re_search_serial id_root s'
              | EmptyString => None
              end in
  match strip_prefix id_root s with
  | Some rest =>
      match take_digits rest with
      | EmptyString => next
      | digits => Some digits
      end
  | None => next
  end.

(** [serial.groups > 0] compares a bound method with a number, which is true
    in Python 2: every match sets [value]. *)
Definition _generate_package_id (id_root : string) : M string :=
  existing_uses ← find_course_indexes_by_id (re_search id_root);
  if bool_decide (0 < length existing_uses) then
    let max_found :=
      foldl (λ max_found entry,
               match re_search_serial id_root (ci_id entry) with
               | Some digits =>
                   let value := default 0 (int digits) in
                   if bool_decide (max_found < value) then value else max_found
               | None => max_found
               end)
            0 existing_uses in
    ret (id_root +:+ str (max_found + 1))
  else ret id_root.

(** [d.update(other)] on the fields of a block. *)
Definition update_fields (other : block_fields) (f : block_fields) : block_fields :=
  BlockFields (f_settings other ∪ f_settings f)
              (match f_children other with
               | Some c => Some c
               | None => f_children f
               end).

Definition create_course (org prettyid : string) (user_id : UserId)
    (id_root : option string) (fields : option partitioned_fields)
    (master_branch : string) (versions_dict : option (gmap string ObjectId))
    (root_category : string) (root_block_id : BlockId) : M descriptor :=
  let partitioned := default no_fields fields in
  let block_fields :=
    BlockFields (scope_settings partitioned) (scope_children partitioned) in
  let definition_fields := _filter_special_fields (scope_content partitioned) in
  versions_dict ←
    match versions_dict ≫= λ d, d !! master_branch with
    | None =>
        definition_id ← new_ObjectId;
        t ← now;
        insert_definition
          (DefinitionDoc definition_id root_category definition_fields
                         (DefinitionEditInfo user_id t None definition_id));;
        draft_structure ←
          _new_structure user_id root_block_id
                         (Some (root_category, block_fields, definition_id));
        let new_id := s_id draft_structure in
        insert_structure draft_structure;;
        ret (<[master_branch := new_id]> (default ∅ versions_dict))
    | Some draft_version =>
        let versions_dict := default ∅ versions_dict in
        course ← _lookup_course (CourseLocator None None (Some draft_version));
        let draft_structure := env_structure course in
        if bool_decide (definition_fields ≠ ∅)
           || bool_decide (f_settings block_fields ≠ ∅)
           || bool_decide (is_Some (f_children block_fields))
        then
          draft_structure ← _version_structure draft_structure user_id;
          let new_id := s_id draft_structure in
          let encoded_block_id := encode_key_for_mongo (s_root draft_structure) in
          root_block ← getitem (s_blocks draft_structure !! encoded_block_id);
          let root_block := set_fields (update_fields block_fields) root_block in
          definition ← get_definition (b_definition root_block);
          definition ← subscript definition;
          t ← now;
          new_definition_id ← new_ObjectId;
          insert_definition
            (DefinitionDoc new_definition_id (d_category definition)
               (definition_fields ∪ d_fields definition)
               (DefinitionEditInfo user_id t (Some (d_id definition))
                  (d_original_version (d_edit_info definition))));;
          let root_block :=
            Block (b_category root_block) new_definition_id (b_fields root_block)
                  (BlockEditInfo t user_id
                     (Some (ei_update_version (b_edit_info root_block))) new_id) in
          insert_structure (set_blocks (insert encoded_block_id root_block) draft_structure);;
          ret (<[master_branch := new_id]> versions_dict)
        else ret versions_dict
    end;
  let id_root := default org id_root in
  new_id ← _generate_package_id id_root;
  t ← now;
  insert_course_index (CourseIndex new_id org prettyid user_id t versions_dict);;
  get_course (CourseLocator (Some new_id) (Some master_branch) None).

(** ** Predicates of the statements *)

(** The blocks that [get_orphans] reports. *)
Definition is_orphan (detached_categories : list string) (st : structure)
    (b : BlockId) : Prop :=
  is_Some (s_blocks st !! b)
  ∧ b ≠ s_root st
  ∧ (∀ parent blk, s_blocks st !! parent = Some blk →
       b ∉ get_children (b_fields blk))
  ∧ (∀ blk, s_blocks st !! b = Some blk →
       b_category blk ∉ detached_categories).

(** [m'] holds the blocks of [m], each with the same category and with
    children taken from those it had. *)
Definition blocks_pruned (m m' : gmap string block) : Prop :=
  ∀ k, option_Forall2
         (λ b b', b_category b' = b_category b
                  ∧ sublist (get_children (b_fields b')) (get_children (b_fields b)))
         (m !! k) (m' !! k).


(** The largest serial found, as the loop of [_generate_package_id] keeps
    it. *)
Definition max_serial (id_root : string) (max_found : nat)
    (existing_uses : list course_index) : nat :=
  foldl (λ max_found entry,
           match re_search_serial id_root (ci_id entry) with
           | Some digits =>
               let value := default 0 (int digits) in
               if bool_decide (max_found < value) then value else max_found
           | None => max_found
           end)
        max_found existing_uses.

(** [id_root] occurs in the package id [p]. *)
Definition occurs_in (id_root p : string) : Prop :=
  ∃ before after, p = before +:+ id_root +:+ after.

Fixpoint all_digits (s : string) : bool :=
  match s with
  | String c s' => is_digit c && all_digits s'
  | EmptyString => true
  end.

(** A decimal suffix: one digit or more, what [(\d+)] stands for. *)
Definition is_serial (digits : string) : Prop :=
  digits ≠ "" ∧ all_digits digits = true.

(** Modelled from the spec (its wording, to compare with the code):
    [generated] is [id_root] with the lowest decimal suffix, or no suffix,
    that is not the id of an existing course. *)
Definition lowest_unique_suffix (id_root : string)
    (existing : gmap string course_index) (generated : string) : Prop :=
  existing !! generated = None
  ∧ (generated = id_root
     ∨ ∃ n : nat, generated = id_root +:+ str n
                  ∧ is_Some (existing !! id_root)
                  ∧ ∀ m : nat, (m < n)%nat →
                      is_Some (existing !! (id_root +:+ str m))).

(** A computation that leaves the store as it found it. *)
Definition read_only {A} (m : M A) : Prop := ∀ s, (m s).2 = s.

(** A computation that leaves the course indexes as it found them; the
    generator of ids only moves forward. *)
Definition keeps_indexes {A} (m : M A) : Prop :=
  ∀ s, course_indexes (m s).2 = course_indexes s
       ∧ (next_oid s ≤ next_oid (m s).2)%N.

(** The index entry once [_update_head] has moved the head of a branch. *)
Definition with_head (index_entry : course_index) (b : string) (new_id : N)
    : course_index :=
  CourseIndex (ci_id index_entry) (ci_org index_entry) (ci_prettyid index_entry)
              (ci_edited_by index_entry) (ci_edited_on index_entry)
              (<[b := new_id]> (ci_versions index_entry)).

(** Reading through [l] and writing through it without force raise
    [VersionConflictError] with the head [h], and the store stays as it is. *)
Definition conflicts (l : locator) (h : N) (s : store) : Prop :=
  _lookup_course l s = (inl (VersionConflictError l h), s)
  ∧ (∀ continue_version,
       _get_index_if_valid l false continue_version s
       = (inl (VersionConflictError l h), s))
  ∧ (∀ category user block_id definition_locator fields continue_version,
       create_item l category user block_id definition_locator fields
                   false continue_version s
       = (inl (VersionConflictError l h), s))
  ∧ (∀ d user, x_location d = l →
       update_item d user false s = (inl (VersionConflictError l h), s))
  ∧ (∀ fuel user delete_children, is_Some (l_block_id l) →
       delete_item fuel l user delete_children false s
       = (inl (VersionConflictError l h), s))
  ∧ (is_Some (l_block_id l) →
       get_item l s = (inl (VersionConflictError l h), s)).

(** The destination already holds block [b] and the blocks below it, the
    blacklist left out, each at the [update_version] it has in the source:
    what [_publish_subdag] looks at to leave a block as it is. *)
Fixpoint subdag_current (fuel : nat) (b : string)
    (source_blocks destination_blocks : gmap string block)
    (blacklist : list string) : bool :=
  match fuel with
  | 0 => false
  | S fuel' =>
      match source_blocks !! b, destination_blocks !! b with
      | Some sb, Some db =>
          bool_decide (ei_update_version (b_edit_info db)
                       = ei_update_version (b_edit_info sb))
          && forallb (λ child,
                        bool_decide (child ∈ blacklist)
                        || subdag_current fuel' child source_blocks
                                          destination_blocks blacklist)
                     (get_children (b_fields db))
      | _, _ => false
      end
  end.

(** Each parent that [subtree_root] has in the source is in the destination,
    with children that [_sync_children] would leave as they are. *)
Definition children_reconciled (source_structure : structure)
    (destination_blocks : gmap string block) (subtree_root : string) : bool :=
  forallb (λ parent,
             match s_blocks source_structure !! parent,
                   destination_blocks !! parent with
             | Some sp, Some dp =>
                 match f_children (b_fields sp), f_children (b_fields dp) with
                 | Some source_children, Some destination_children =>
                     bool_decide
                       (filter (λ c, c = subtree_root ∨ c ∈ destination_children)
                               source_children
                        = destination_children)
                 | _, _ => false
                 end
             | _, _ => false
             end)
          (_get_parents_from_structure subtree_root source_structure).

Definition already_published (fuel : nat) (source_structure : structure)
    (destination_blocks : gmap string block)
    (subtree_list blacklist : list string) : bool :=
  forallb (λ subtree_root,
             children_reconciled source_structure destination_blocks subtree_root
             && subdag_current fuel subtree_root (s_blocks source_structure)
                               destination_blocks blacklist)
          subtree_list.

(** ** Example stores *)

Definition leaf (category : string) (definition_id update_version : N)
    (children : list string) : block :=
  Block category definition_id (BlockFields ∅ (Some children))
        (BlockEditInfo 0%N "author" None update_version).

Definition course_of (versions : list (string * N)) : course_index :=
  CourseIndex "edu" "edu" "Education" "author" 0%N (list_to_map versions).

(** A course whose draft head is structure 2, the successor of structure 1:
    a chapter was added to the root. *)
Definition forked_store : store :=
  Store {[ "edu" := course_of [("draft", 2%N)] ]}
        {[ 1%N := Structure 1 "course" None 1 "author" 0
                    {[ "course" := leaf "course" 10 1 [] ]};
           2%N := Structure 2 "course" (Some 1%N) 1 "author" 0
                    {[ "course" := leaf "course" 10 2 ["chapter1"];
                       "chapter1" := leaf "chapter" 11 2 [] ]} ]}
        {[ 10%N := DefinitionDoc 10 "course" ∅ (DefinitionEditInfo "author" 0 None 10);
           11%N := DefinitionDoc 11 "chapter" ∅ (DefinitionEditInfo "author" 0 None 11) ]}
        20 100 None.

(** The locator of the root in the version that is no longer the head. *)
Definition stale_root : locator :=
  Locator (Some "edu") (Some "draft") (Some 1%N) (Some "course").

Definition stale_descriptor : descriptor :=
  Descriptor stale_root (DefinitionId 10) ∅ {[ "display_name" := VStr "New" ]}
             true [].

(** A published branch that still holds the vertical [o] with its child [c];
    the draft removed [o] from the root. *)
Definition publish_store : store :=
  Store {[ "edu" := course_of [("draft", 1%N); ("published", 2%N)] ]}
        {[ 1%N := Structure 1 "course" None 1 "author" 0
                    {[ "course" := leaf "course" 10 1 [] ]};
           2%N := Structure 2 "course" None 2 "author" 0
                    {[ "course" := leaf "course" 10 0 ["o"];
                       "o" := leaf "vertical" 11 0 ["c"];
                       "c" := leaf "problem" 12 0 [] ]} ]}
        ∅ 3 100 None.

Definition draft_course : locator := Locator (Some "edu") (Some "draft") None None.
Definition published_course : locator :=
  Locator (Some "edu") (Some "published") None None.

(** Structure 0 and its history: 1 follows 0; 2 and 3 follow 1. *)
Definition history_store : store :=
  Store ∅
        {[ 0%N := Structure 0 "course" None 0 "author" 0 ∅;
           1%N := Structure 1 "course" (Some 0%N) 0 "author" 0 ∅;
           2%N := Structure 2 "course" (Some 1%N) 0 "author" 0 ∅;
           3%N := Structure 3 "course" (Some 1%N) 0 "author" 0 ∅ ]}
        ∅ 4 100 None.

Definition version_locator (v : N) : locator := Locator None None (Some v) None.

Definition stale_chapter : locator :=
  Locator (Some "edu") (Some "draft") (Some 1%N) (Some "chapter1").

(** The example of [xblock_publish]: the source parent lists [a] to [e], the
    destination parent has [e], [b] and a block [x] that the source dropped. *)
Definition source_parent_example : block :=
  leaf "chapter" 10 1 ["a"; "b"; "c"; "d"; "e"].
Definition destination_parent_example : block :=
  leaf "chapter" 10 0 ["e"; "b"; "x"].

(** The chapter of [forked_store], as it is stored at the head. *)
Definition chapter_locator : locator :=
  Locator (Some "edu") (Some "draft") (Some 2%N) (Some "chapter1").
Definition chapter_descriptor : descriptor :=
  Descriptor chapter_locator (DefinitionId 11) ∅ ∅ true [].

(** A course with a chapter that holds a problem. *)
Definition nested_store : store :=
  Store {[ "edu" := course_of [("draft", 2%N)] ]}
        {[ 2%N := Structure 2 "course" (Some 1%N) 1 "author" 0
                    {[ "course" := leaf "course" 10 2 ["chapter1"];
                       "chapter1" := leaf "chapter" 11 2 ["problem1"];
                       "problem1" := leaf "problem" 12 2 [] ]} ]}
        ∅ 20 100 None.

(** Two courses of the organisation [edu]: [edu] and [edu5]. *)
Definition catalog_store : store :=
  Store {[ "edu" := CourseIndex "edu" "edu" "First" "author" 0 {[ "draft" := 1%N ]};
           "edu5" := CourseIndex "edu5" "edu" "Second" "author" 0 {[ "draft" := 2%N ]} ]}
        ∅ ∅ 20 100 None.

(** The root of [forked_store], named with the head of the branch. *)
Definition head_root : locator :=
  Locator (Some "edu") (Some "draft") (Some 2%N) (Some "course").

(** A draft with the subtree [a], [b], [c] under the root, not published
    yet. *)
Definition unpublished_store : store :=
  Store {[ "edu" := course_of [("draft", 1%N)] ]}
        {[ 1%N := Structure 1 "course" None 1 "author" 0
                    {[ "course" := leaf "course" 10 1 ["a"];
                       "a" := leaf "chapter" 11 1 ["b"; "c"];
                       "b" := leaf "vertical" 12 1 [];
                       "c" := leaf "vertical" 13 1 [] ]} ]}
        ∅ 3 100 None.

(** The draft holds [r] outside the tree of its root; the published branch
    still has [r] under [q]. *)
Definition reclaim_store : store :=
  Store {[ "edu" := course_of [("draft", 1%N); ("published", 2%N)] ]}
        {[ 1%N := Structure 1 "course" None 1 "author" 0
                    {[ "course" := leaf "course" 10 1 ["q"];
                       "q" := leaf "chapter" 11 1 [];
                       "r" := leaf "vertical" 12 1 [] ]};
           2%N := Structure 2 "course" None 2 "author" 0
                    {[ "course" := leaf "course" 10 1 ["q"];
                       "q" := leaf "chapter" 11 0 ["r"];
                       "r" := leaf "vertical" 12 0 [] ]} ]}
        ∅ 3 100 None.

(** ** Looking items up *)

(** [try: body except ItemNotFoundError: handler] *)
Definition try_except_ItemNotFoundError {A} (body handler : M A) : M A :=
  λ s, match body s with
       | (inl ItemNotFoundError, s') => handler s'
       | r => r
       end.

(** [has_item]; [package_id] is not read. *)
Definition has_item (package_id : string) (block_location : locator) : M bool :=
  match l_block_id block_location with
  | None => raise InsufficientSpecificationError
  | Some block_id =>
      course_structure ←
        try_except_ItemNotFoundError
          (course ← _lookup_course block_location;
           ret (Some (env_structure course)))
          (ret None);
      match course_structure with
      | None => ret false
      | Some course_structure =>
          st ← subscript course_structure;
          ret (bool_decide (is_Some (_get_block_from_structure st block_id)))
      end
  end.

(** ** History records *)

Definition get_course_index_info (course_locator : locator)
    : M (option course_index) :=
  match l_package_id course_locator with
  | None => ret None
  | Some p => get_course_index p
  end.

(** The dictionary that [get_course_history_info] builds. *)
Record history_info := HistoryInfo {
  h_original_version : ObjectId;
  h_previous_version : option ObjectId;
  h_edited_by : UserId;
  h_edited_on : timestamp
}.

Definition get_course_history_info (course_locator : locator) : M history_info :=
  envelope ← _lookup_course course_locator;
  course ← subscript (env_structure envelope);
  ret (HistoryInfo (s_original_version course) (s_previous_version course)
                   (s_edited_by course) (s_edited_on course)).

Definition get_definition_history_info (definition_locator : definition_id)
    : M (option definition_edit_info) :=
  definition ← get_definition_by_locator definition_locator;
  match definition with
  | None => ret None
  | Some definition => ret (Some (d_edit_info definition))
  end.

(** ** Removing a course *)

Definition delete_course (package_id : string) : M unit :=
  index ← get_course_index package_id;
  match index with
  | None => raise ItemNotFoundError
  | Some index => delete_course_index (ci_id index)
  end.

(** ** Cleaning the children lists *)

Definition internal_clean_children (course_locator : locator) : M unit :=
  course ← _lookup_course course_locator;
  original_structure ← subscript (env_structure course);
  let blocks := s_blocks original_structure in
  let cleaned :=
    (λ b : block,
       match f_children (b_fields b) with
       | Some children =>
           set_fields
             (set_children
                (filter (λ block_id,
                           is_Some (blocks !! encode_key_for_mongo block_id))
                        children))
             b
       | None => b
       end) <$> blocks in
  let original_structure := set_blocks (λ _, cleaned) original_structure in
  update_structure original_structure;;
  _clear_cache (Some (s_id original_structure)).

(** ** Descendants *)

(** [descendants]; [depth] is a number of levels or [None] for all of them,
    and [fuel] bounds the depth of the recursion, as the interpreter does. *)
Fixpoint descendants (fuel : nat) (block_map : gmap string block)
    (block_id : BlockId) (depth : option nat)
    (descendent_map : gmap string block) : M (gmap string block) :=
  match fuel with
  | 0 => raise RecursionError
  | S fuel' =>
      let encoded_block_id := encode_key_for_mongo block_id in
      match block_map !! encoded_block_id with
      | None => ret descendent_map
      | Some b =>
          let descendent_map :=
            if bool_decide (is_Some (descendent_map !! block_id))
            then descendent_map
            else <[block_id := b]> descendent_map in
          match depth with
          | Some 0 => ret descendent_map
          | _ =>
              let depth := pred <$> depth in
              entry ← getitem (descendent_map !! block_id);
              foldM (λ descendent_map child,
                       descendants fuel' block_map child depth descendent_map)
                    descendent_map (get_children (b_fields entry))
          end
      end
  end.

(** ** The history of a block *)

(** [for x in l: if f(x): return True] followed by [return False]. *)
Fixpoint anyM {A} (f : A → M bool) (l : list A) : M bool :=
  match l with
  | [] => ret false
  | x :: l' => found ← f x; if found : bool then ret true else anyM f l'
  end.

(** [_find_local_root]; [tree] maps an id to the set of its successors. *)
Fixpoint _find_local_root (fuel : nat) (element_to_find possibility : ObjectId)
    (tree : gmap N (gset N)) : M bool :=
  match fuel with
  | 0 => raise RecursionError
  | S fuel' =>
      match tree !! possibility with
      | None => ret false
      | Some successors =>
          if bool_decide (element_to_find ∈ successors) then ret true
          else anyM (λ subtree, _find_local_root fuel' element_to_find subtree tree)
                    (elements successors)
      end
  end.

(** ** Predicates on the history *)

(** Every id in use was handed out by the generator of [ObjectId()]. *)
Definition ids_fresh (s : store) : Prop :=
  map_Forall (λ k _, (k < next_oid s)%N) (structures s)
  ∧ map_Forall (λ k _, (k < next_oid s)%N) (definitions s).

(** [s'] holds every structure and every definition of [s], as they were. *)
Definition extends (s s' : store) : Prop :=
  structures s ⊆ structures s'
  ∧ definitions s ⊆ definitions s'
  ∧ (next_oid s ≤ next_oid s')%N.

(** An id that was handed out and names no document yet. *)
Definition reserved (n : N) (s : store) : Prop :=
  (n < next_oid s)%N ∧ structures s !! n = None ∧ definitions s !! n = None.

(** A computation that adds documents under ids of its own only. *)
Definition preserving {A} (m : M A) : Prop :=
  ∀ s, ids_fresh s →
       ids_fresh (m s).2 ∧ extends s (m s).2
       ∧ ∀ n, reserved n s → reserved n (m s).2.

(** The outcome [r] of a run that started after [s0]. *)
Definition adds {A} (s0 : store) (r : (error + A) * store) : Prop :=
  ids_fresh r.2 ∧ extends s0 r.2.

(** How often [x] occurs in [l]. *)
Abbreviation occurrences x l := (length (filter (λ y, y = x) l)).

(** What the loop over the parents in [delete_item] makes of a block. *)
Definition detached (bid : string) (user : string) (new_id : N) (kb kb' : block)
    : Prop :=
  b_category kb' = b_category kb
  ∧ b_definition kb' = b_definition kb
  ∧ f_settings (b_fields kb') = f_settings (b_fields kb)
  ∧ get_children (b_fields kb') = filter (λ c, c ≠ bid) (get_children (b_fields kb))
  ∧ (bid ∉ get_children (b_fields kb) → kb' = kb)
  ∧ (bid ∈ get_children (b_fields kb) →
       ei_update_version (b_edit_info kb') = new_id
       ∧ ei_edited_by (b_edit_info kb') = user).


(** [k] is a block of [block_map] at most [d] levels below the block [b]. *)
Inductive within (block_map : gmap string block) : nat → string → string → Prop :=
  | within_here d b : is_Some (block_map !! b) → within block_map d b b
  | within_child d b c k blk :
      block_map !! b = Some blk → c ∈ get_children (b_fields blk) →
      within block_map d c k → within block_map (S d) b k.

(** [y] is a successor of [x] in [tree]. *)
Definition successor_in (tree : gmap N (gset N)) (x y : N) : Prop :=
  ∃ successors, tree !! x = Some successors ∧ y ∈ successors.

(** ** Searching the blocks of a course *)

(** The values that blocks and qualifiers are made of. A dictionary is the
    list of its items, in the order in which it is iterated. *)
Local Unset Elimination Schemes.
Inductive pyvalue :=
  | PyNone
  | PyInt (z : Z)
  | PyStr (s : string)
  | PyObjectId (i : N)
  | PyDatetime (t : N)
  | PyList (l : list pyvalue)
  | PyDict (d : list (string * pyvalue)).
Local Set Elimination Schemes.

(** [d.get(key)] *)
Fixpoint dict_get (key : string) (d : list (string * pyvalue)) : option pyvalue :=
  match d with
  | [] => None
  | (k, v) :: d' => if bool_decide (k = key) then Some v else dict_get key d'
  end.

(** [criteria == target] where [criteria] is no dictionary and [target] no
    list: equal values of the same kind. *)
Definition py_eq (criteria target : pyvalue) : bool :=
  match criteria, target with
  | PyNone, PyNone => true
  | PyInt a, PyInt b => bool_decide (a = b)
  | PyStr a, PyStr b => bool_decide (a = b)
  | PyObjectId a, PyObjectId b => bool_decide (a = b)
  | PyDatetime a, PyDatetime b => bool_decide (a = b)
  | _, _ => false
  end.

(** [re.search(pattern, target) is not None], for a pattern free of special
    characters; anything but strings is a [TypeError]. *)
Definition re_search_value (pattern target : pyvalue) : error + bool :=
  match pattern, target with
  | PyStr p, PyStr t => inr (re_search p t)
  | _, _ => inl TypeError
  end.

(** [_value_matches]; the loop of [_block_matches] is written out where
    [_value_matches] calls it. *)
Fixpoint _value_matches (criteria : pyvalue) : pyvalue → error + bool :=
  fix value_matches (target : pyvalue) : error + bool :=
    match target with
    | PyList elements =>
        (fix any (l : list pyvalue) : error + bool :=
           match l with
           | [] => inr false
           | ele :: l' =>
               match value_matches ele with
               | inl e => inl e
               | inr true => inr true
               | inr false => any l'
               end
           end) elements
    | _ =>
        match criteria with
        | PyDict qualifiers =>
            match dict_get "$regex" qualifiers with
            | Some pattern => re_search_value pattern target
            | None =>
                match target with
                | PyDict value =>
                    (fix block_matches (qs : list (string * pyvalue))
                       : error + bool :=
                       match qs with
                       | [] => inr true
                       | (key, criteria) :: qs' =>
                           match dict_get key value with
                           | Some target =>
                               match _value_matches criteria target with
                               | inl e => inl e
                               | inr false => inr false
                               | inr true => block_matches qs'
                               end
                           | None =>
                               match criteria with
                               | PyNone => block_matches qs'
                               | _ => inr false
                               end
                           end
                       end) qualifiers
                | _ => inr false
                end
            end
        | _ => inr (py_eq criteria target)
        end
    end.

Fixpoint _block_matches (value qualifiers : list (string * pyvalue))
    : error + bool :=
  match qualifiers with
  | [] => inr true
  | (key, criteria) :: qualifiers' =>
      match dict_get key value with
      | Some target =>
          match _value_matches criteria target with
          | inl e => inl e
          | inr false => inr false
          | inr true => _block_matches value qualifiers'
          end
      | None =>
          match criteria with
          | PyNone => _block_matches value qualifiers'
          | _ => inr false
          end
      end
  end.

(** A block as the dictionary that the structure holds. *)
Definition value_to_py (v : value) : pyvalue :=
  match v with
  | VNull => PyNone
  | VInt z => PyInt z
  | VStr s => PyStr s
  end.

Definition fields_to_py (f : block_fields) : list (string * pyvalue) :=
  match f_children f with
  | Some children => [("children", PyList (PyStr <$> children))]
  | None => []
  end
  ++ (prod_map id value_to_py <$> map_to_list (delete "children" (f_settings f))).

Definition edit_info_to_py (e : block_edit_info) : list (string * pyvalue) :=
  [ ("edited_on", PyDatetime (ei_edited_on e));
    ("edited_by", PyStr (ei_edited_by e));
    ("previous_version",
     from_option PyObjectId PyNone (ei_previous_version e));
    ("update_version", PyObjectId (ei_update_version e)) ].

Definition block_to_py (b : block) : list (string * pyvalue) :=
  [ ("category", PyStr (b_category b));
    ("definition", PyObjectId (b_definition b));
    ("fields", PyDict (fields_to_py (b_fields b)));
    ("edit_info", PyDict (edit_info_to_py (b_edit_info b))) ].

(** An outcome computed without the store. *)
Definition lift {A} (r : error + A) : M A := λ s, (r, s).

(** [get_items]; [course_id] and [depth] are not read. *)
Definition get_items (l : locator) (qualifiers : option (list (string * pyvalue)))
    : M (list descriptor) :=
  let qualifiers := default [] qualifiers in
  course ← _lookup_course l;
  st ← subscript (env_structure course);
  items ←
    foldM (λ items '(block_id, value),
             matches ← lift (_block_matches (block_to_py value) qualifiers);
             if matches : bool then ret (items ++ [block_id])%list
             else ret items)
          [] (map_to_list (s_blocks st));
  if bool_decide (0 < length items)%nat then _load_items course items
  else ret [].

(** ** The courses of a branch *)

(** Modelled from the spec: [MongoConnection] is not part of this file.
    [find_matching_course_indexes({'versions.<branch>': {'$exists': True}})]:
    the indexes that have a head for the branch. *)
Definition find_course_indexes_with_branch (branch : string)
    : M (list course_index) :=
  gets (λ s, filter (λ i, is_Some (ci_versions i !! branch))
                    (snd <$> map_to_list (course_indexes s))).

(** Modelled from the spec: [MongoConnection] is not part of this file.
    [find_matching_structures({'_id': {'$in': ids}})]: the structures whose
    id is one of [ids], each once. *)
Definition find_structures_by_id (ids : list ObjectId) : M (list structure) :=
  gets (λ s, filter (λ st, s_id st ∈ ids) (snd <$> map_to_list (structures s))).

(** [get_courses] without qualifiers. *)
Definition get_courses (branch : string) : M (list descriptor) :=
  matching ← find_course_indexes_with_branch branch;
  '(version_guids, id_version_map) ←
    foldM (λ '(version_guids, id_version_map) structure,
             version_guid ← getitem (ci_versions structure !! branch);
             ret ((version_guids ++ [version_guid])%list,
                  <[version_guid := ci_id structure]> id_version_map))
          ([], (∅ : gmap N string)) matching;
  course_entries ← find_structures_by_id version_guids;
  foldM (λ result entry,
           package_id ← getitem (id_version_map !! s_id entry);
           let envelope := Envelope (Some package_id) (Some branch) (Some entry) in
           let root := s_root entry in
           items ← _load_items envelope [root];
           ret (result ++ items)%list)
        [] course_entries.

(** ** Subtrees *)

(** [c] is a child of the block [x] of [m]. *)
Definition child_in (m : gmap string block) (x c : string) : Prop :=
  ∃ blk, m !! x = Some blk ∧ c ∈ get_children (b_fields blk).

(** [k] is one of [roots] or a descendant of one of them. *)
Definition below (m : gmap string block) (roots : list string) (k : string)
    : Prop :=
  ∃ c, c ∈ roots ∧ rtc (child_in m) c k.

(** The blocks below [roots] are trees: each child that is listed is a block,
    it is listed once, and by one block only; the roots are listed by no
    block of the trees. [rank] bounds the height. *)
Record forest (m : gmap string block) (roots : list string)
    (rank : string → nat) : Prop := Forest {
  forest_roots : NoDup roots;
  forest_present : ∀ k, below m roots k → is_Some (m !! k);
  forest_children :
    ∀ x blk, below m roots x → m !! x = Some blk →
             NoDup (get_children (b_fields blk));
  forest_parent :
    ∀ x x' y, below m roots x → below m roots x' →
              child_in m x y → child_in m x' y → x = x';
  forest_top : ∀ x c, below m roots x → c ∈ roots → ¬ child_in m x c;
  forest_rank :
    ∀ x y, below m roots x → child_in m x y → (rank y < rank x)%nat
}.

(** What a successful removal leaves: the map without the set [D]. *)
Definition removed_from (m : gmap string block) (D : gset string)
    (m' : gmap string block) : Prop :=
  ∀ k, m' !! k = if decide (k ∈ D) then None else m !! k.

(** The children of a block of [m], none for a block that is missing. *)
Definition children_of (m : gmap string block) (x : string) : list string :=
  from_option (λ blk, get_children (b_fields blk)) [] (m !! x).

(** A test for [forest]: [D] lists the blocks below [roots]. *)
Definition forest_check (m : gmap string block) (roots D : list string)
    (rank : string → nat) : bool :=
  bool_decide (NoDup roots)
  && forallb (λ c, bool_decide (c ∈ D)) roots
  && forallb
       (λ x,
          bool_decide (is_Some (m !! x))
          && bool_decide (NoDup (children_of m x))
          && forallb (λ y, bool_decide (y ∈ D)
                           && bool_decide (rank y < rank x)%nat
                           && bool_decide (y ∉ roots))
                     (children_of m x)
          && forallb (λ x', bool_decide (x' = x)
                            || forallb (λ y, bool_decide (y ∉ children_of m x'))
                                       (children_of m x))
                     D)
       D.

(** ** What a publish copies *)

(** [c] is a child of the block [x] of the source that the blacklist lets
    through. *)
Definition publish_link (source_blocks : gmap string block)
    (blacklist : list BlockId) (x c : string) : Prop :=
  ∃ sb, source_blocks !! x = Some sb
        ∧ c ∈ get_children (b_fields sb) ∧ c ∉ blacklist.

(** The block that [_publish_subdag] makes of a source block that the
    destination lacks. *)
Definition published_copy (user_id : UserId) (t : timestamp)
    (blacklist : list BlockId) (sb : block) : block :=
  Block (b_category sb) (b_definition sb)
        (_filter_blacklist (b_fields sb) blacklist)
        (BlockEditInfo t user_id None (ei_update_version (b_edit_info sb))).

(** Every block of the destination is the copy of the source block of the
    same id. *)
Definition copies_of (user_id : UserId) (t : timestamp)
    (blacklist : list BlockId) (source_blocks destination_blocks : gmap string block)
    : Prop :=
  ∀ k db, destination_blocks !! k = Some db →
          ∃ sb, source_blocks !! k = Some sb
                ∧ db = published_copy user_id t blacklist sb.

(** The destination after the blocks of [D] were copied into it. *)
Definition copied_into (user_id : UserId) (t : timestamp)
    (blacklist : list BlockId) (source_blocks : gmap string block)
    (D : gset string) (destination_blocks result : gmap string block) : Prop :=
  ∀ k, result !! k
       = if decide (k ∈ D)
         then published_copy user_id t blacklist <$> source_blocks !! k
         else destination_blocks !! k.

(** A test for the conditions of a publish: [D] lists the blocks that are
    reached. *)
Definition publish_check (source_blocks : gmap string block)
    (blacklist D : list string) (rank : string → nat) : bool :=
  forallb (λ x,
             bool_decide (is_Some (source_blocks !! x))
             && forallb (λ y, bool_decide (y ∈ blacklist)
                              || (bool_decide (y ∈ D)
                                  && bool_decide (rank y < rank x)%nat))
                        (children_of source_blocks x))
          D.

(** ** More example stores *)

(** The head structure of [forked_store]. *)
Definition forked_head : structure :=
  Structure 2 "course" (Some 1%N) 1 "author" 0
            {[ "course" := leaf "course" 10 2 ["chapter1"];
               "chapter1" := leaf "chapter" 11 2 [] ]}.

(** A locator of a course that has no index. *)
Definition unknown_block : locator :=
  Locator (Some "nope") (Some "draft") None (Some "course").

(** The chapter of [forked_store] with a new display name. *)
Definition renamed_chapter : descriptor :=
  Descriptor chapter_locator (DefinitionId 11) ∅
             {[ "display_name" := VStr "New" ]} true [].

(** A course whose root lists a block that is gone; its structure is in the
    cache. *)
Definition dangling_store : store :=
  Store {[ "edu" := course_of [("draft", 1%N)] ]}
        {[ 1%N := Structure 1 "course" None 1 "author" 0
                    {[ "course" := leaf "course" 10 1 ["gone"; "chapter1"];
                       "chapter1" := leaf "chapter" 11 1 [] ]} ]}
        ∅ 3 100 (Some {[ 1%N ]}).

(** The blocks of [unpublished_store]. *)
Definition subtree_blocks : gmap string block :=
  {[ "course" := leaf "course" 10 1 ["a"];
     "a" := leaf "chapter" 11 1 ["b"; "c"];
     "b" := leaf "vertical" 12 1 [];
     "c" := leaf "vertical" 13 1 [] ]}.

(** The successors of [history_store]. *)
Definition history_tree : gmap N (gset N) :=
  {[ 0%N := {[ 1%N ]}; 1%N := {[ 2%N; 3%N ]} ]}.

(** The chapter [a] of [unpublished_store]. *)
Definition subtree_locator : locator :=
  Locator (Some "edu") (Some "draft") None (Some "a").

(** The height of a block of [unpublished_store] above the leaves. *)
Definition unpublished_rank (k : string) : nat :=
  if bool_decide (k = "course") then 2%nat
  else if bool_decide (k = "a") then 1%nat else 0%nat.

(** * Properties *)

(** ** Running computations *)

Lemma bind_unfold {A B} (m : M A) (k : A → M B) (s : store) :
  (m ≫= k) s = match m s with
               | (inl e, s') => (inl e, s')
               | (inr a, s') => k a s'
               end.
Proof. reflexivity. Qed.

Lemma bind_ok {A B} (m : M A) (k : A → M B) s a s' :
  m s = (inr a, s') → (m ≫= k) s = k a s'.
Proof. intros H. rewrite bind_unfold, H. reflexivity. Qed.

Lemma bind_err {A B} (m : M A) (k : A → M B) s e s' :
  m s = (inl e, s') → (m ≫= k) s = (inl e, s').
Proof. intros H. rewrite bind_unfold, H. reflexivity. Qed.

Lemma bind_inr_inv {A B} (m : M A) (k : A → M B) s b s' :
  (m ≫= k) s = (inr b, s') → ∃ a s1, m s = (inr a, s1) ∧ k a s1 = (inr b, s').
Proof.
  rewrite bind_unfold. destruct (m s) as [[e|a] s1]; [discriminate|]. eauto.
Qed.

(** Closed decidable statements are settled by evaluation. *)
Ltac by_decide :=
  match goal with
  | |- ?P => apply (bool_decide_unpack P); vm_compute; exact I
  end.

(** ** Child-order reconciliation *)

(** C5: [_sync_children] sets the children of the destination parent to the
    subsequence of the source children [S] made of the ids that are the
    published root [r] or are among the destination children [D], and
    returns as orphans the elements of [D] that are not in [S]; an element
    of [S] that is neither in [D] nor [r] is not in the result. Nothing else
    of the parent changes, and the store is only read. *)
Theorem sync_children_reconciles (source_parent destination_parent : block)
    (r : BlockId) (S D : list BlockId) (s : store) :
  f_children (b_fields source_parent) = Some S →
  f_children (b_fields destination_parent) = Some D →
  ∃ (orphans : gset BlockId) (parent' : block) (D' : list BlockId),
    _sync_children source_parent destination_parent r s = (inr (orphans, parent'), s)
    ∧ f_children (b_fields parent') = Some D'
    ∧ D' = filter (λ c, c = r ∨ c ∈ D) S
    ∧ sublist D' S
    ∧ (∀ x, x ∈ D' ↔ x ∈ S ∧ (x = r ∨ x ∈ D))
    ∧ (∀ x, x ∈ orphans ↔ x ∈ D ∧ x ∉ S)
    ∧ (∀ x, x ∈ S → x ∉ D → x ≠ r → x ∉ D')
    ∧ f_settings (b_fields parent') = f_settings (b_fields destination_parent)
    ∧ b_category parent' = b_category destination_parent
    ∧ b_definition parent' = b_definition destination_parent
    ∧ b_edit_info parent' = b_edit_info destination_parent.
Proof.
  intros HS HD. unfold _sync_children.
  eexists _, _, _. split.
  { erewrite bind_ok by (rewrite HD; reflexivity).
    erewrite bind_ok by (rewrite HS; reflexivity). reflexivity. }
  simpl. split; [reflexivity|]. split; [reflexivity|].
  split; [apply sublist_filter|].
  split; [intros x; rewrite list_elem_of_filter; tauto|].
  split; [intros x; rewrite elem_of_list_to_set, list_elem_of_filter; tauto|].
  split; [|done].
  intros x _ HnD Hr. rewrite list_elem_of_filter. tauto.
Qed.

Lemma sync_children_witness :
  ∃ (orphans : gset string) (parent' : block),
    _sync_children source_parent_example destination_parent_example "c"
                   publish_store
    = (inr (orphans, parent'), publish_store)
    ∧ f_children (b_fields parent') = Some ["b"; "c"; "e"]
    ∧ "x" ∈ orphans ∧ "e" ∉ orphans.
Proof.
  destruct (sync_children_reconciles
              source_parent_example destination_parent_example "c"
              ["a"; "b"; "c"; "d"; "e"] ["e"; "b"; "x"] publish_store
              eq_refl eq_refl)
    as (orphans & parent' & D' & Hrun & Hc & HD & _ & _ & Ho & _).
  exists orphans, parent'. split; [exact Hrun|].
  split; [rewrite Hc, HD; reflexivity|].
  rewrite !Ho. split; [split; by_decide|].
  intros [_ Hn]. apply Hn. by_decide.
Defined.

(** ** Updating a definition *)

Lemma filter_special_fields_lookup (fields : gmap string value) (k : string) :
  _filter_special_fields fields !! k =
  if bool_decide (k = "location" ∨ k = "category") then None else fields !! k.
Proof.
  unfold _filter_special_fields.
  repeat case_bool_decide; simplify_map_eq; try done; try tauto.
  all: repeat match goal with
       | H : ¬ (_ ∨ _) |- _ => apply Decidable.not_or in H; destruct H
       | H : ¬ is_Some _ |- _ => apply eq_None_not_Some in H
       | H : _ ∨ _ |- _ => destruct H; subst
       end; simplify_map_eq; try done.
Qed.

Lemma needs_saved_false (new old : gmap string value) :
  needs_saved new old = false ↔ new = old.
Proof.
  unfold needs_saved. rewrite orb_false_iff.
  split.
  - intros [H1 H2]. apply map_eq. intros k.
    destruct (new !! k) as [v|] eqn:Hk.
    + assert (Hin : (k, v) ∈ map_to_list new) by (by apply elem_of_map_to_list).
      destruct (existsb _ (map_to_list new)) eqn:E in H1; [discriminate|].
      apply not_true_iff_false in E. rewrite existsb_exists in E.
      destruct (decide (old !! k = Some v)) as [->|Hne]; [done|].
      exfalso. apply E. exists (k, v). split; [by apply list_elem_of_In|].
      simpl. apply orb_true_iff. right. apply bool_decide_eq_true. congruence.
    + destruct (old !! k) as [w|] eqn:Ho; [|done].
      exfalso. apply not_true_iff_false in H2. apply H2.
      apply existsb_exists. exists (k, w). split.
      * apply list_elem_of_In. by apply elem_of_map_to_list.
      * simpl. by apply bool_decide_eq_true.
  - intros ->. split.
    + apply not_true_iff_false. rewrite existsb_exists.
      intros [[k v] [Hin Hb]]. apply list_elem_of_In, elem_of_map_to_list in Hin.
      simpl in Hb. apply orb_true_iff in Hb as [Hb|Hb];
        apply bool_decide_eq_true in Hb; congruence.
    + apply not_true_iff_false. rewrite existsb_exists.
      intros [[k v] [Hin Hb]]. apply list_elem_of_In, elem_of_map_to_list in Hin.
      simpl in Hb. apply bool_decide_eq_true in Hb. congruence.
Qed.

(** What [update_definition_from_data] does to an existing definition. *)
Lemma update_definition_run (s : store) (d : ObjectId) (old : definition_doc)
    (new_fields : gmap string value) (user : UserId) :
  definitions s !! d = Some old →
  update_definition_from_data (DefinitionId d) new_fields user s
  = if needs_saved (_filter_special_fields new_fields) (d_fields old)
    then (inr (DefinitionId (next_oid s), true),
          set_definitions
            (insert (next_oid s)
               (DefinitionDoc (next_oid s) (d_category old)
                  (_filter_special_fields new_fields)
                  (DefinitionEditInfo user (clock s) (Some d)
                     (d_original_version (d_edit_info old)))))
            (Store (course_indexes s) (structures s) (definitions s)
                   (N.succ (next_oid s)) (clock s) (course_cache s)))
    else (inr (DefinitionId d, false), s).
Proof.
  intros Hd. unfold update_definition_from_data. cbv zeta.
  erewrite bind_ok by (simpl; unfold get_definition, gets; rewrite Hd; reflexivity).
  cbv beta iota. destruct (needs_saved _ _); reflexivity.
Qed.

(** C7: [update_definition_from_data] on an existing definition. The new
    fields are first filtered of ['location'] and ['category']. When they are
    the persisted fields, key for key and value for value, the definition id
    comes back with [False] and the store is as it was. Otherwise a clone is
    inserted under a new id, with the new fields, [previous_version] the old
    id and the [original_version] of the old definition, and the new id
    comes back with [True]; structures and indexes are as they were. *)
Theorem update_definition_from_data_spec (s : store) (d : ObjectId)
    (old : definition_doc) (new_fields : gmap string value) (user : UserId) :
  definitions s !! d = Some old →
  let new := _filter_special_fields new_fields in
  let new_id := next_oid s in
  let clone :=
    DefinitionDoc new_id (d_category old) new
      (DefinitionEditInfo user (clock s) (Some d)
                          (d_original_version (d_edit_info old))) in
  (∀ k, new !! k = if bool_decide (k = "location" ∨ k = "category")
                   then None else new_fields !! k)
  ∧ (new = d_fields old →
       update_definition_from_data (DefinitionId d) new_fields user s
       = (inr (DefinitionId d, false), s))
  ∧ (new ≠ d_fields old →
       ∃ s', update_definition_from_data (DefinitionId d) new_fields user s
             = (inr (DefinitionId new_id, true), s')
           ∧ definitions s' = <[new_id := clone]> (definitions s)
           ∧ structures s' = structures s
           ∧ course_indexes s' = course_indexes s
           ∧ (definitions s !! new_id = None →
                new_id ≠ d ∧ definitions s' !! d = Some old)).
Proof.
  intros Hd new new_id clone. split; [apply filter_special_fields_lookup|].
  pose proof (update_definition_run s d old new_fields user Hd) as Hrun.
  fold new new_id clone in Hrun.
  rewrite Hrun. split.
  - intros Heq. apply needs_saved_false in Heq. by rewrite Heq.
  - intros Hne.
    destruct (needs_saved new (d_fields old)) eqn:E;
      [|by apply needs_saved_false in E].
    eexists. split; [reflexivity|]. simpl.
    split; [reflexivity|]. split; [reflexivity|]. split; [reflexivity|].
    intros Hfresh. assert (new_id ≠ d) by congruence.
    split; [done|]. by rewrite lookup_insert_ne.
Qed.

Lemma update_definition_witness :
  definitions forked_store !! 11%N
  = Some (DefinitionDoc 11 "chapter" ∅ (DefinitionEditInfo "author" 0 None 11))
  ∧ update_definition_from_data (DefinitionId 11)
      {[ "location" := VStr "chapter1" ]} "editor" forked_store
    = (inr (DefinitionId 11, false), forked_store)
  ∧ ∃ s', update_definition_from_data (DefinitionId 11)
            {[ "data" := VStr "<p/>"; "category" := VStr "chapter" ]}
            "editor" forked_store
          = (inr (DefinitionId 20, true), s')
          ∧ definitions s' !! 20%N
            = Some (DefinitionDoc 20 "chapter" {[ "data" := VStr "<p/>" ]}
                      (DefinitionEditInfo "editor" 100 (Some 11%N) 11)).
Proof.
  split; [reflexivity|]. split.
  - pose proof (update_definition_from_data_spec forked_store 11 _
                  {[ "location" := VStr "chapter1" ]} "editor" eq_refl) as H.
    cbv zeta in H. destruct H as (_ & Hsame & _). apply Hsame.
    vm_compute. reflexivity.
  - pose proof (update_definition_from_data_spec forked_store 11 _
                  {[ "data" := VStr "<p/>"; "category" := VStr "chapter" ]}
                  "editor" eq_refl) as H.
    cbv zeta in H. destruct H as (_ & _ & Hnew).
    destruct Hnew as (s' & Hrun & Hdefs & _).
    { vm_compute. discriminate. }
    exists s'. split; [exact Hrun|]. rewrite Hdefs.
    vm_compute. reflexivity.
Defined.

(** ** Updating an item with what it holds *)

Lemma compare_settings_same (m : gmap string value) (c : option (list BlockId)) :
  _compare_settings m (BlockFields m c) = false.
Proof.
  unfold _compare_settings. simpl.
  rewrite length_fmap, length_map_to_list.
  rewrite bool_decide_eq_false_2 by (intros H; by apply H).
  apply not_true_iff_false. rewrite existsb_exists.
  intros (k & Hin & Hb).
  apply orb_true_iff in Hb as [Hb|Hb]; apply bool_decide_eq_true in Hb; [|done].
  apply list_elem_of_In, list_elem_of_fmap in Hin as ([k' v] & -> & Hin).
  apply elem_of_map_to_list in Hin. simpl in Hb. congruence.
Qed.

Lemma filter_special_fields_id (fields : gmap string value) :
  fields !! "location" = None → fields !! "category" = None →
  _filter_special_fields fields = fields.
Proof.
  intros H1 H2. apply map_eq. intros k. rewrite filter_special_fields_lookup.
  case_bool_decide as H; [|done]. destruct H as [-> | ->]; done.
Qed.

Lemma lookup_course_head (s : store) (l : locator) p br idx h :
  l_package_id l = Some p → l_branch l = Some br →
  course_indexes s !! p = Some idx → ci_versions idx !! br = Some h →
  (l_version_guid l = None ∨ l_version_guid l = Some h) →
  _lookup_course l s = (inr (Envelope (Some p) (Some br) (structures s !! h)), s).
Proof.
  intros Hp Hb Hidx Hh Hv.
  unfold _lookup_course, is_fully_specified, get_course_index, get_structure,
    gets, raise, ret, mret, M_ret, mbind, M_bind.
  rewrite Hp, Hb. simpl. rewrite Hidx, Hh.
  destruct Hv as [-> | ->]; [reflexivity|].
  by rewrite bool_decide_eq_false_2 by (intros H; by apply H).
Qed.

Lemma get_index_if_valid_head (s : store) (l : locator) p br idx h force :
  l_package_id l = Some p → l_branch l = Some br →
  course_indexes s !! p = Some idx → ci_versions idx !! br = Some h →
  (l_version_guid l = None ∨ l_version_guid l = Some h) →
  _get_index_if_valid l force false s = (inr (Some idx), s).
Proof.
  intros Hp Hb Hidx Hh Hv.
  unfold _get_index_if_valid, get_course_index, subscript, getitem,
    gets, raise, ret, mret, M_ret, mbind, M_bind.
  rewrite Hp, Hb. simpl. rewrite Hidx.
  destruct Hv as [-> | ->]; [reflexivity|].
  rewrite Hh. by rewrite bool_decide_eq_true_2.
Qed.

(** C6: [update_item] with a descriptor whose content fields, children and
    settings are those stored for the block at the head of the branch returns
    the descriptor as it was given and leaves the store as it was: no
    structure and no definition is inserted and [versions[branch]] stays. *)
Theorem update_item_unchanged (s : store) (d : descriptor) (user : UserId)
    (force : bool) p br idx h st bid blk def :
  l_package_id (x_location d) = Some p →
  l_branch (x_location d) = Some br →
  l_block_id (x_location d) = Some bid →
  (l_version_guid (x_location d) = None ∨ l_version_guid (x_location d) = Some h) →
  course_indexes s !! p = Some idx →
  ci_versions idx !! br = Some h →
  structures s !! h = Some st →
  s_blocks st !! bid = Some blk →
  x_definition_locator d = DefinitionId (b_definition blk) →
  definitions s !! b_definition blk = Some def →
  d_fields def !! "location" = None →
  d_fields def !! "category" = None →
  x_content_fields d = d_fields def →
  x_settings_fields d = f_settings (b_fields blk) →
  (x_has_children d = true → f_children (b_fields blk) = Some (x_children d)) →
  update_item d user force s = (inr d, s).
Proof.
  intros Hp Hb Hbid Hv Hidx Hh Hst Hblk Hdl Hdef Hloc Hcat Hcont Hset Hch.
  unfold update_item.
  erewrite bind_ok by (eapply lookup_course_head; eauto).
  cbv zeta. simpl env_structure.
  erewrite bind_ok by (eapply get_index_if_valid_head; eauto).
  rewrite Hdl.
  erewrite bind_ok.
  2:{ rewrite (update_definition_run s _ def) by done.
      rewrite Hcont, filter_special_fields_id by done.
      by rewrite (proj2 (needs_saved_false _ _) eq_refl). }
  cbv beta iota. rewrite Hst.
  erewrite bind_ok by reflexivity.
  simpl x_location. rewrite Hbid.
  erewrite bind_ok by reflexivity.
  unfold _get_block_from_structure, encode_key_for_mongo. rewrite Hblk.
  simpl x_has_children. simpl x_children. simpl x_settings_fields.
  destruct (x_has_children d) eqn:Hhc.
  - erewrite bind_ok.
    2:{ erewrite bind_ok by reflexivity. rewrite (Hch eq_refl).
        erewrite bind_ok by reflexivity.
        rewrite bool_decide_eq_false_2 by (intros H; by apply H). reflexivity. }
    erewrite bind_ok.
    2:{ erewrite bind_ok by reflexivity. rewrite Hset.
        destruct (b_fields blk) as [m c]. simpl. rewrite compare_settings_same.
        reflexivity. }
    destruct d; simpl in *; subst. reflexivity.
  - erewrite bind_ok by reflexivity.
    erewrite bind_ok.
    2:{ erewrite bind_ok by reflexivity. rewrite Hset.
        destruct (b_fields blk) as [m c]. simpl. rewrite compare_settings_same.
        reflexivity. }
    destruct d; simpl in *; subst. reflexivity.
Qed.

Lemma update_item_witness :
  update_item chapter_descriptor "editor" false forked_store
  = (inr chapter_descriptor, forked_store).
Proof.
  apply (update_item_unchanged forked_store chapter_descriptor "editor" false
           "edu" "draft" (course_of [("draft", 2%N)]) 2
           (Structure 2 "course" (Some 1%N) 1 "author" 0
              {[ "course" := leaf "course" 10 2 ["chapter1"];
                 "chapter1" := leaf "chapter" 11 2 [] ]})
           "chapter1" (leaf "chapter" 11 2 [])
           (DefinitionDoc 11 "chapter" ∅ (DefinitionEditInfo "author" 0 None 11)));
    try reflexivity.
  right. reflexivity.
Defined.

(** ** What a computation leaves untouched *)

Lemma read_only_ret {A} (a : A) : read_only (ret a).
Proof. by intros s. Qed.

Lemma read_only_mret {A} (a : A) : read_only (mret a).
Proof. by intros s. Qed.

Lemma read_only_raise {A} (e : error) : read_only (@raise A e).
Proof. by intros s. Qed.

Lemma read_only_gets {A} (f : store → A) : read_only (gets f).
Proof. by intros s. Qed.

Lemma read_only_bind {A B} (m : M A) (k : A → M B) :
  read_only m → (∀ a, read_only (k a)) → read_only (m ≫= k).
Proof.
  intros Hm Hk s. rewrite bind_unfold. specialize (Hm s).
  destruct (m s) as [[e|a] s']; simpl in *; subst; [done|]. apply Hk.
Qed.

Lemma read_only_foldM {A B} (body : B → A → M B) (l : list A) (acc : B) :
  (∀ acc x, read_only (body acc x)) → read_only (foldM body acc l).
Proof.
  intros Hbody. revert acc. induction l as [|x l IH]; intros acc; simpl.
  - apply read_only_ret.
  - apply read_only_bind; [apply Hbody|]. intros acc'. apply IH.
Qed.

Lemma read_only_run {A} (m : M A) (s : store) r s' :
  read_only m → m s = (r, s') → s' = s.
Proof. intros Hm Hrun. specialize (Hm s). by rewrite Hrun in Hm. Qed.

Ltac read_only_step :=
  first
    [ apply read_only_ret | apply read_only_mret | apply read_only_raise
    | apply read_only_gets
    | apply read_only_bind; [|intros ?]
    | apply read_only_foldM; intros ? ?
    | match goal with
      | |- read_only (match ?x with _ => _ end) => destruct x
      | |- read_only ((match ?x with _ => _ end) _) => destruct x
      | |- read_only (let _ := _ in _) => cbv zeta
      end ].

Ltac solve_read_only := repeat read_only_step.

Lemma read_only_getitem {A} (o : option A) : read_only (getitem o).
Proof. unfold getitem. solve_read_only. Qed.

Lemma read_only_subscript {A} (o : option A) : read_only (subscript o).
Proof. unfold subscript. solve_read_only. Qed.

Lemma read_only_now : read_only now.
Proof. apply read_only_gets. Qed.

Lemma read_only_get_course_index p : read_only (get_course_index p).
Proof. apply read_only_gets. Qed.

Lemma read_only_get_structure v : read_only (get_structure v).
Proof. apply read_only_gets. Qed.

Lemma read_only_get_definition d : read_only (get_definition d).
Proof. apply read_only_gets. Qed.

Lemma read_only_lookup_course l : read_only (_lookup_course l).
Proof.
  unfold _lookup_course.
  repeat first [ apply read_only_get_course_index | apply read_only_get_structure
               | read_only_step ].
Qed.

Lemma read_only_get_index_if_valid l force continue_version :
  read_only (_get_index_if_valid l force continue_version).
Proof.
  unfold _get_index_if_valid.
  repeat first [ apply read_only_get_course_index | apply read_only_getitem
               | apply read_only_subscript | read_only_step ].
Qed.

Lemma read_only_del_block k m : read_only (del_block k m).
Proof. unfold del_block. solve_read_only. Qed.

Lemma read_only_new_block user category f d n :
  read_only (_new_block user category f d n).
Proof. unfold _new_block. repeat first [apply read_only_now | read_only_step]. Qed.

Lemma read_only_get_parent_locations l : read_only (get_parent_locations l).
Proof.
  unfold get_parent_locations.
  repeat first [ apply read_only_lookup_course | apply read_only_subscript
               | read_only_step ].
Qed.

Lemma read_only_remove_subtree fuel m b : read_only (remove_subtree fuel m b).
Proof.
  revert m b. induction fuel as [|fuel IH]; intros m b; simpl.
  - apply read_only_raise.
  - repeat first [ apply read_only_getitem | apply read_only_del_block
                 | apply IH | read_only_step ].
Qed.

Lemma read_only_sync_children sp dp r : read_only (_sync_children sp dp r).
Proof.
  unfold _sync_children. repeat first [apply read_only_getitem | read_only_step].
Qed.

Lemma read_only_publish_subdag fuel user b src dst blacklist :
  read_only (_publish_subdag fuel user b src dst blacklist).
Proof.
  revert b dst. induction fuel as [|fuel IH]; intros b dst; simpl.
  - apply read_only_raise.
  - repeat first [ apply read_only_getitem | apply read_only_new_block
                 | apply IH | read_only_step ].
Qed.

Lemma read_only_delete_if_true_orphan fuel st orphan :
  read_only (_delete_if_true_orphan fuel st orphan).
Proof.
  revert st orphan. induction fuel as [|fuel IH]; intros st orphan; simpl.
  - apply read_only_raise.
  - repeat first [ apply read_only_getitem | apply read_only_del_block
                 | apply IH | read_only_step ].
Qed.

Lemma read_only_keeps_indexes {A} (m : M A) : read_only m → keeps_indexes m.
Proof. intros Hm s. rewrite Hm. split; [done|lia]. Qed.

Lemma keeps_indexes_bind {A B} (m : M A) (k : A → M B) :
  keeps_indexes m → (∀ a, keeps_indexes (k a)) → keeps_indexes (m ≫= k).
Proof.
  intros Hm Hk s. rewrite bind_unfold. destruct (Hm s) as [Hi Hn].
  destruct (m s) as [[e|a] s']; simpl in *; [done|].
  destruct (Hk a s') as [Hi' Hn']. split; [congruence|lia].
Qed.

Lemma keeps_indexes_new_ObjectId : keeps_indexes new_ObjectId.
Proof. intros s. simpl. split; [done|lia]. Qed.

Lemma keeps_indexes_modify (f : store → store) :
  (∀ s, course_indexes (f s) = course_indexes s ∧ next_oid (f s) = next_oid s) →
  keeps_indexes (modify f).
Proof. intros Hf s. simpl. destruct (Hf s) as [-> ->]. split; [done|lia]. Qed.

Lemma keeps_indexes_insert_structure st : keeps_indexes (insert_structure st).
Proof. by apply keeps_indexes_modify. Qed.

Lemma keeps_indexes_update_structure st : keeps_indexes (update_structure st).
Proof. by apply keeps_indexes_modify. Qed.

Lemma keeps_indexes_insert_definition d : keeps_indexes (insert_definition d).
Proof. by apply keeps_indexes_modify. Qed.

Lemma keeps_indexes_mapM {A B} (f : A → M B) (l : list A) :
  (∀ x, keeps_indexes (f x)) → keeps_indexes (mapM f l).
Proof.
  intros Hf. induction l as [|x l IH]; simpl.
  - apply read_only_keeps_indexes, read_only_mret.
  - apply keeps_indexes_bind; [apply Hf|]. intros y.
    apply keeps_indexes_bind; [apply IH|]. intros k.
    apply read_only_keeps_indexes, read_only_mret.
Qed.

Lemma keeps_indexes_run {A} (m : M A) (s : store) r s' :
  keeps_indexes m → m s = (r, s') →
  course_indexes s' = course_indexes s ∧ (next_oid s ≤ next_oid s')%N.
Proof. intros Hm Hrun. specialize (Hm s). by rewrite Hrun in Hm. Qed.

Ltac keeps_indexes_step :=
  first
    [ apply keeps_indexes_new_ObjectId
    | apply keeps_indexes_insert_structure
    | apply keeps_indexes_update_structure
    | apply keeps_indexes_insert_definition
    | apply read_only_keeps_indexes;
      first [ apply read_only_ret | apply read_only_mret | apply read_only_raise
            | apply read_only_gets | apply read_only_now
            | apply read_only_getitem | apply read_only_subscript
            | apply read_only_get_definition
            | apply read_only_lookup_course
            | apply read_only_get_index_if_valid
            | apply read_only_new_block ]
    | apply keeps_indexes_bind; [|intros ?]
    | apply keeps_indexes_mapM; intros ?
    | match goal with
      | |- keeps_indexes (match ?x with _ => _ end) => destruct x
      | |- keeps_indexes ((match ?x with _ => _ end) _) => destruct x
      | |- keeps_indexes (let _ := _ in _) => cbv zeta
      end ].

Lemma keeps_indexes_create_definition f category user :
  keeps_indexes (create_definition_from_data f category user).
Proof. unfold create_definition_from_data. repeat keeps_indexes_step. Qed.

Lemma keeps_indexes_update_definition d f user :
  keeps_indexes (update_definition_from_data d f user).
Proof.
  unfold update_definition_from_data, get_definition_by_locator.
  repeat keeps_indexes_step.
Qed.

Lemma keeps_indexes_version_structure st user :
  keeps_indexes (_version_structure st user).
Proof. unfold _version_structure. repeat keeps_indexes_step. Qed.

Lemma keeps_indexes_new_structure user root_block_id root_block :
  keeps_indexes (_new_structure user root_block_id root_block).
Proof. unfold _new_structure. repeat keeps_indexes_step. Qed.

Lemma keeps_indexes_load_items course block_ids :
  keeps_indexes (_load_items course block_ids).
Proof.
  unfold _load_items, load_item.
  repeat first [ by apply keeps_indexes_modify | keeps_indexes_step ].
Qed.

Lemma keeps_indexes_clear_cache v : keeps_indexes (_clear_cache v).
Proof.
  unfold _clear_cache.
  repeat first [ by apply keeps_indexes_modify | keeps_indexes_step ].
Qed.

Lemma keeps_indexes_get_item l : keeps_indexes (get_item l).
Proof.
  unfold get_item.
  repeat first [ apply keeps_indexes_load_items | keeps_indexes_step ].
Qed.

Lemma keeps_indexes_get_course l : keeps_indexes (get_course l).
Proof.
  unfold get_course.
  repeat first [ apply keeps_indexes_load_items | keeps_indexes_step ].
Qed.

Ltac solve_frame :=
  repeat first
    [ apply read_only_getitem | apply read_only_subscript | apply read_only_now
    | apply read_only_get_course_index | apply read_only_get_structure
    | apply read_only_get_definition | apply read_only_lookup_course
    | apply read_only_get_index_if_valid | apply read_only_del_block
    | apply read_only_new_block | apply read_only_get_parent_locations
    | apply read_only_remove_subtree | apply read_only_sync_children
    | apply read_only_publish_subdag | apply read_only_delete_if_true_orphan
    | read_only_step
    | apply keeps_indexes_create_definition
    | apply keeps_indexes_update_definition
    | apply keeps_indexes_version_structure
    | apply keeps_indexes_new_structure
    | apply keeps_indexes_load_items | apply keeps_indexes_clear_cache
    | apply keeps_indexes_get_item | apply keeps_indexes_get_course
    | keeps_indexes_step ].

(** Inverting a successful run of [m ≫= k]. *)
Ltac inv_bind H a s' H1 :=
  apply bind_inr_inv in H as (a & s' & H1 & H).

Lemma version_structure_inv (st : option structure) (user : string)
    (s s' : store) (new_structure : structure) :
  _version_structure st user s = (inr new_structure, s') →
  s_id new_structure = next_oid s
  ∧ s_previous_version new_structure = s_id <$> st
  ∧ (∀ st0, st = Some st0 → s_blocks new_structure = s_blocks st0
                            ∧ s_root new_structure = s_root st0)
  ∧ course_indexes s' = course_indexes s
  ∧ structures s' = structures s
  ∧ next_oid s' = N.succ (next_oid s).
Proof.
  unfold _version_structure. rewrite bind_unfold. simpl.
  destruct st as [st0|]; simpl; [|discriminate].
  intros [= <- <-]. simpl. split; [done|]. split; [done|].
  split; [by intros ? [= <-]|]. done.
Qed.

(** ** Orphans *)

Lemma orphans_fold (detached_categories : list string)
    (l : list (string * block)) (items : gset string) (x : string) :
  (x ∈ foldl (λ (items : gset string) '(block_id, block_data),
               let items := items ∖ list_to_set (get_children (b_fields block_data)) in
               if bool_decide (b_category block_data ∈ detached_categories)
               then items ∖ {[ decode_key_from_mongo block_id ]}
               else items)
            items l)
  ↔ x ∈ items
    ∧ (∀ k blk, (k, blk) ∈ l →
         (x ∉ get_children (b_fields blk))
         ∧ (b_category blk ∈ detached_categories → x ≠ k)).
Proof.
  revert items. induction l as [|[k blk] l IH]; intros items; simpl.
  - split; [|tauto]. intros H. split; [done|]. intros ? ? Hin. inversion Hin.
  - rewrite IH. unfold decode_key_from_mongo.
    split.
    + intros [Hx Hl]. case_bool_decide as Hdet.
      * apply elem_of_difference in Hx as [Hx Hk].
        apply elem_of_difference in Hx as [Hx Hc].
        rewrite elem_of_list_to_set in Hc. rewrite elem_of_singleton in Hk.
        split; [done|]. intros k' blk' [Heq|Hin]%elem_of_cons.
        -- injection Heq as -> ->. done.
        -- by apply Hl.
      * apply elem_of_difference in Hx as [Hx Hc].
        rewrite elem_of_list_to_set in Hc.
        split; [done|]. intros k' blk' [Heq|Hin]%elem_of_cons.
        -- injection Heq as -> ->. done.
        -- by apply Hl.
    + intros [Hx Hl].
      destruct (Hl k blk) as [Hc Hk]; [by left|].
      split; [|intros k' blk' Hin; apply Hl; by right].
      case_bool_decide as Hdet.
      * apply elem_of_difference. rewrite elem_of_singleton.
        split; [|by apply Hk].
        apply elem_of_difference. by rewrite elem_of_list_to_set.
      * apply elem_of_difference. by rewrite elem_of_list_to_set.
Qed.

Lemma get_orphans_run (detached_categories : list string) (p br : string)
    (s : store) idx h st :
  course_indexes s !! p = Some idx →
  ci_versions idx !! br = Some h →
  structures s !! h = Some st →
  is_Some (s_blocks st !! s_root st) →
  ∃ locs,
    get_orphans detached_categories p br s = (inr locs, s)
    ∧ NoDup locs
    ∧ (∀ l, l ∈ locs →
         ∃ b, l = Locator (Some p) (Some br) None (Some b))
    ∧ (∀ b, Locator (Some p) (Some br) None (Some b) ∈ locs
            ↔ is_orphan detached_categories st b).
Proof.
  intros Hidx Hh Hst Hroot. unfold get_orphans.
  erewrite bind_ok
    by (eapply (lookup_course_head s (CourseLocator (Some p) (Some br) None));
        eauto).
  rewrite Hst. simpl env_structure.
  erewrite bind_ok by reflexivity.
  unfold decode_key_from_mongo at 1. rewrite list_fmap_id.
  assert (Hin : s_root st ∈ (list_to_set (map_to_list (s_blocks st)).*1 : gset string)).
  { rewrite elem_of_list_to_set. destruct Hroot as [rb Hrb].
    apply list_elem_of_fmap. exists (s_root st, rb). split; [done|].
    by apply elem_of_map_to_list. }
  rewrite bool_decide_eq_true_2 by done.
  erewrite bind_ok by reflexivity.
  eexists. split; [reflexivity|].
  split.
  { apply NoDup_fmap_2; [|apply NoDup_elements].
    intros x y Heq. by injection Heq. }
  split.
  { intros l (b & -> & _)%list_elem_of_fmap. eauto. }
  intros b. rewrite list_elem_of_fmap. split.
  - intros (b' & Heq & Hb'). injection Heq as <-.
    apply elem_of_elements, orphans_fold in Hb' as [Hb' Hall].
    apply elem_of_difference in Hb' as [Hdom Hr].
    rewrite elem_of_singleton in Hr.
    apply elem_of_list_to_set, list_elem_of_fmap in Hdom as ([k blk] & -> & Hk).
    apply elem_of_map_to_list in Hk. simpl in *.
    split; [eauto|]. split; [done|]. split.
    + intros parent pb Hp. apply (Hall parent pb). by apply elem_of_map_to_list.
    + intros blk' Hblk' Hdet. rewrite Hk in Hblk'. injection Hblk' as <-.
      destruct (Hall k blk) as [_ Hne]; [by apply elem_of_map_to_list|].
      by apply Hne.
  - intros ([blk Hblk] & Hr & Hpar & Hdet). exists b. split; [done|].
    apply elem_of_elements, orphans_fold. split.
    + apply elem_of_difference. rewrite elem_of_singleton. split; [|done].
      apply elem_of_list_to_set, list_elem_of_fmap. exists (b, blk).
      split; [done|]. by apply elem_of_map_to_list.
    + intros k kb Hk. apply elem_of_map_to_list in Hk. split.
      * by apply (Hpar k kb).
      * intros Hd ->. apply (Hdet kb); done.
Qed.

Lemma blocks_pruned_refl m : blocks_pruned m m.
Proof. intros k. destruct (m !! k); constructor. done. Qed.

Lemma blocks_pruned_trans m1 m2 m3 :
  blocks_pruned m1 m2 → blocks_pruned m2 m3 → blocks_pruned m1 m3.
Proof.
  intros H12 H23 k. specialize (H12 k). specialize (H23 k).
  destruct H12 as [b1 b2 [Hc Hs]|]; inversion H23 as [? b3 [Hc' Hs']|]; subst;
    constructor.
  split; [congruence|]. by etrans.
Qed.

Lemma list_remove_sublist (x : string) (l l' : list string) :
  list_remove x l = Some l' → sublist l' l.
Proof.
  revert l'. induction l as [|y l IH]; intros l'; simpl; [discriminate|].
  case_bool_decide.
  - intros [= <-]. by constructor.
  - destruct (list_remove x l) as [l0|]; [|discriminate].
    intros [= <-]. constructor. by apply IH.
Qed.

Lemma detach_parents_inv (block_id : string) (user : string) (new_id : N)
    (parents : list string) (m : gmap string block) (s : store) r s' :
  foldM (λ new_blocks parent,
           let encoded_block_id := encode_key_for_mongo parent in
           parent_block ← getitem (new_blocks !! encoded_block_id);
           children ← getitem (f_children (b_fields parent_block));
           match list_remove block_id children with
           | None => raise ValueError
           | Some children =>
               t ← now;
               ret (<[encoded_block_id :=
                        bump_edit_info user t new_id
                          (set_fields (set_children children) parent_block)]>
                      new_blocks)
           end)
        m parents s = (r, s') →
  s' = s ∧ ∀ m', r = inr m' → blocks_pruned m m'.
Proof.
  revert m. induction parents as [|parent parents IH]; intros m; simpl.
  - intros [= <- <-]. split; [done|]. intros m' [= <-]. apply blocks_pruned_refl.
  - rewrite bind_unfold. unfold encode_key_for_mongo.
    rewrite bind_unfold.
    destruct (m !! parent) as [pb|] eqn:Hpb; simpl;
      [|intros [= <- <-]; split; [done|discriminate]].
    rewrite bind_unfold.
    destruct (f_children (b_fields pb)) as [cs|] eqn:Hcs; simpl;
      [|intros [= <- <-]; split; [done|discriminate]].
    destruct (list_remove block_id cs) as [cs'|] eqn:Hrm; simpl;
      [|intros [= <- <-]; split; [done|discriminate]].
    intros Hrun. apply IH in Hrun as [-> Hrel]. split; [done|].
    intros m' ->. eapply blocks_pruned_trans; [|by apply Hrel].
    intros k. destruct (decide (k = parent)) as [->|Hne].
    + rewrite Hpb, lookup_insert_eq. constructor. simpl. split; [done|].
      unfold get_children. rewrite Hcs. simpl. by eapply list_remove_sublist.
    + rewrite lookup_insert_ne by done. destruct (m !! k); constructor. done.
Qed.

Lemma delete_leaf_inv (fuel : nat) (l : locator) (user : string) (force : bool)
    (s s1 : store) (r : locator) p br idx h st bid blk :
  l_package_id l = Some p → l_branch l = Some br → l_block_id l = Some bid →
  (l_version_guid l = None ∨ l_version_guid l = Some h) →
  course_indexes s !! p = Some idx →
  ci_id idx = p →
  ci_versions idx !! br = Some h →
  structures s !! h = Some st →
  s_blocks st !! bid = Some blk →
  delete_item fuel l user false force s = (inr r, s1) →
  ∃ new_blocks idx1,
    blocks_pruned (s_blocks st) new_blocks
    ∧ s_root st ≠ bid
    ∧ course_indexes s1 !! p = Some idx1
    ∧ ci_versions idx1 !! br = Some (next_oid s)
    ∧ structures s1 !! next_oid s
      = Some (Structure (next_oid s) (s_root st) (Some (s_id st))
                        (s_original_version st) user (clock s)
                        (delete bid new_blocks)).
Proof.
  intros Hp Hb Hbid Hv Hidx Hid Hh Hst Hblk. unfold delete_item. rewrite Hbid.
  erewrite bind_ok by (eapply lookup_course_head; eauto).
  simpl env_structure. rewrite Hst.
  erewrite bind_ok by reflexivity.
  case_bool_decide as Hroot; [discriminate|].
  erewrite bind_ok by (eapply get_index_if_valid_head; eauto).
  erewrite bind_ok by reflexivity.
  set (s_a := Store _ _ _ (N.succ (next_oid s)) _ _).
  erewrite bind_ok.
  2:{ unfold get_parent_locations.
      erewrite bind_ok by (eapply (lookup_course_head s_a); eauto).
      simpl env_structure. subst s_a. simpl structures. rewrite Hst.
      erewrite bind_ok by reflexivity. rewrite Hbid.
      erewrite bind_ok by reflexivity. reflexivity. }
  cbv zeta. simpl s_blocks. simpl s_id.
  rewrite bind_unfold.
  match goal with
  | |- context [foldM ?body ?m ?ps ?s0] =>
      destruct (foldM body m ps s0) as [[e|new_blocks] s_b] eqn:Hfold
  end; [discriminate|].
  apply detach_parents_inv in Hfold as [-> Hpruned].
  specialize (Hpruned _ eq_refl).
  assert (Hin : is_Some (new_blocks !! bid)).
  { specialize (Hpruned bid). rewrite Hblk in Hpruned.
    inversion Hpruned; eauto. }
  unfold del_block, encode_key_for_mongo.
  rewrite bool_decide_eq_true_2 by done.
  erewrite bind_ok by reflexivity.
  erewrite bind_ok by reflexivity.
  rewrite Hb, Hp. simpl.
  erewrite bind_ok by reflexivity.
  unfold ret, mret, M_ret. intros [= <- <-].
  exists new_blocks. eexists. split; [done|]. split; [done|].
  simpl. rewrite Hid. rewrite !lookup_insert_eq.
  split; [reflexivity|]. simpl. rewrite lookup_insert_eq. done.
Qed.

Lemma sublist_not_elem_of (x : string) (l1 l2 : list string) :
  sublist l1 l2 → x ∉ l2 → x ∉ l1.
Proof. intros Hs Hn Hin. apply Hn. by eapply elem_of_sublist. Qed.

(** C10: [get_orphans] returns, once each, the locators of the blocks of the
    structure at the head of the branch that are not the root, are in no
    list of children and whose category is not detached. After a
    [delete_item] without [delete_children], a child of the deleted block
    that no other block lists is among them (unless it is the root or
    detached). *)
Theorem get_orphans_exact (detached_categories : list string) (p br : string) :
  (∀ (s : store) idx h st,
     course_indexes s !! p = Some idx →
     ci_versions idx !! br = Some h →
     structures s !! h = Some st →
     is_Some (s_blocks st !! s_root st) →
     ∃ locs,
       get_orphans detached_categories p br s = (inr locs, s)
       ∧ NoDup locs
       ∧ (∀ l, l ∈ locs → ∃ b, l = Locator (Some p) (Some br) None (Some b))
       ∧ (∀ b, Locator (Some p) (Some br) None (Some b) ∈ locs
               ↔ is_Some (s_blocks st !! b)
                 ∧ b ≠ s_root st
                 ∧ (∀ parent blk, s_blocks st !! parent = Some blk →
                      b ∉ get_children (b_fields blk))
                 ∧ (∀ blk, s_blocks st !! b = Some blk →
                      b_category blk ∉ detached_categories)))
  ∧ (∀ (fuel : nat) (l : locator) (user : string) (force : bool)
       (s s1 : store) (r : locator) idx h st bid blk,
       l_package_id l = Some p → l_branch l = Some br →
       l_block_id l = Some bid →
       (l_version_guid l = None ∨ l_version_guid l = Some h) →
       course_indexes s !! p = Some idx →
       ci_id idx = p →
       ci_versions idx !! br = Some h →
       structures s !! h = Some st →
       is_Some (s_blocks st !! s_root st) →
       s_blocks st !! bid = Some blk →
       delete_item fuel l user false force s = (inr r, s1) →
       ∀ c cb,
         c ∈ get_children (b_fields blk) →
         s_blocks st !! c = Some cb →
         c ≠ bid → c ≠ s_root st →
         b_category cb ∉ detached_categories →
         (∀ k kb, k ≠ bid → s_blocks st !! k = Some kb →
            c ∉ get_children (b_fields kb)) →
         ∃ locs,
           get_orphans detached_categories p br s1 = (inr locs, s1)
           ∧ Locator (Some p) (Some br) None (Some c) ∈ locs).
Proof.
  split.
  - intros s idx h st Hidx Hh Hst Hroot.
    destruct (get_orphans_run detached_categories p br s idx h st)
      as (locs & Hrun & Hnd & Hform & Hiff); try done.
    exists locs. split; [done|]. split; [done|]. split; [done|].
    intros b. rewrite Hiff. reflexivity.
  - intros fuel l user force s s1 r idx h st bid blk Hp Hb Hbid Hv Hidx Hid Hh Hst
      Hroot Hblk Hdel c cb Hc Hcb Hne Hnr Hdet Honly.
    destruct (delete_leaf_inv fuel l user force s s1 r p br idx h st bid blk)
      as (new_blocks & idx1 & Hpruned & Hrb & Hidx1 & Hh1 & Hst1); try done.
    destruct (get_orphans_run detached_categories p br s1 idx1 (next_oid s) _
                Hidx1 Hh1 Hst1)
      as (locs & Hrun & _ & _ & Hiff).
    { simpl. rewrite lookup_delete_ne by done.
      specialize (Hpruned (s_root st)). destruct Hroot as [rb Hrb'].
      rewrite Hrb' in Hpruned. inversion Hpruned; eauto. }
    exists locs. split; [done|]. apply Hiff. unfold is_orphan. simpl.
    assert (Hc' : ∃ cb', new_blocks !! c = Some cb'
                         ∧ b_category cb' = b_category cb).
    { specialize (Hpruned c). rewrite Hcb in Hpruned.
      inversion Hpruned as [? cb' [Hcat _]|]; subst. eauto. }
    destruct Hc' as (cb' & Hcb' & Hcat).
    split; [rewrite lookup_delete_ne by done; eauto|].
    split; [done|]. split.
    + intros k kb'. destruct (decide (k = bid)) as [->|Hk].
      { by rewrite lookup_delete_eq. }
      rewrite lookup_delete_ne by done. intros Hkb'.
      specialize (Hpruned k). rewrite Hkb' in Hpruned.
      inversion Hpruned as [kb ? [_ Hsub] Hkb|]; subst.
      eapply sublist_not_elem_of; [done|]. by eapply Honly.
    + intros blk'. rewrite lookup_delete_ne by done. rewrite Hcb'.
      intros [= <-]. by rewrite Hcat.
Qed.

Lemma get_orphans_witness :
  (∃ locs,
     get_orphans ["about"] "edu" "draft" nested_store = (inr locs, nested_store)
     ∧ Locator (Some "edu") (Some "draft") None (Some "problem1") ∉ locs)
  ∧ ∃ s1 locs,
      snd (delete_item 10 chapter_locator "editor" false false nested_store) = s1
      ∧ get_orphans ["about"] "edu" "draft" s1 = (inr locs, s1)
      ∧ Locator (Some "edu") (Some "draft") None (Some "problem1") ∈ locs.
Proof.
  pose (st := Structure 2 "course" (Some 1%N) 1 "author" 0
                {[ "course" := leaf "course" 10 2 ["chapter1"];
                   "chapter1" := leaf "chapter" 11 2 ["problem1"];
                   "problem1" := leaf "problem" 12 2 [] ]}).
  split.
  - destruct (proj1 (get_orphans_exact ["about"] "edu" "draft")
                nested_store (course_of [("draft", 2%N)]) 2%N st)
      as (locs & Hrun & _ & _ & Hiff); try reflexivity.
    { by_decide. }
    exists locs. split; [exact Hrun|]. rewrite Hiff.
    intros (_ & _ & Hpar & _).
    apply (Hpar "chapter1" (leaf "chapter" 11 2 ["problem1"])); [reflexivity|].
    by_decide.
  - eexists.
    destruct (proj2 (get_orphans_exact ["about"] "edu" "draft")
                10 chapter_locator "editor" false nested_store
                (snd (delete_item 10 chapter_locator "editor" false false nested_store))
                (CourseLocator (Some "edu") (Some "draft") (Some 20%N))
                (course_of [("draft", 2%N)]) 2%N st
                "chapter1" (leaf "chapter" 11 2 ["problem1"]))
      with (c := "problem1") (cb := leaf "problem" 12 2 [])
      as (locs & Hrun & Hin); try reflexivity; try by_decide.
    { intros k kb Hk Hkb.
      destruct (decide (k = "course")) as [->|Hc].
      - injection Hkb as <-. by_decide.
      - destruct (decide (k = "problem1")) as [->|Hp].
        + injection Hkb as <-. by_decide.
        + exfalso. subst st. simpl in Hkb.
          rewrite !lookup_insert_ne, lookup_singleton_ne in Hkb by done.
          discriminate. }
    exists locs. split; [reflexivity|]. split; [exact Hrun|exact Hin].
Defined.

(** ** Writes against a version that is not the head *)

(** Whatever [force] says, a locator that names the branch and a version
    other than its head does not pass [_lookup_course]. *)
Lemma lookup_course_stale (s : store) (l : locator) p br v idx h :
  l_package_id l = Some p → l_branch l = Some br → l_version_guid l = Some v →
  course_indexes s !! p = Some idx → ci_versions idx !! br = Some h →
  h ≠ v →
  _lookup_course l s = (inl (VersionConflictError l h), s).
Proof.
  intros Hp Hb Hv Hidx Hh Hne.
  unfold _lookup_course, is_fully_specified, get_course_index, get_structure,
    gets, raise, ret, mret, M_ret, mbind, M_bind.
  rewrite Hp, Hb, Hv. simpl. rewrite Hidx, Hh.
  by rewrite bool_decide_eq_true_2.
Qed.

Lemma get_index_if_valid_stale (s : store) (l : locator) p br v idx h
    (force continue_version : bool) :
  l_package_id l = Some p → l_branch l = Some br → l_version_guid l = Some v →
  course_indexes s !! p = Some idx → ci_versions idx !! br = Some h →
  h ≠ v →
  _get_index_if_valid l force continue_version s
  = if force && negb continue_version then (inr (Some idx), s)
    else (inl (VersionConflictError l h), s).
Proof.
  intros Hp Hb Hv Hidx Hh Hne.
  unfold _get_index_if_valid, get_course_index, subscript, getitem,
    gets, raise, ret, mret, M_ret, mbind, M_bind.
  rewrite Hp, Hb, Hv. simpl. rewrite Hidx, Hh.
  rewrite bool_decide_eq_false_2 by done. simpl.
  destruct (force && negb continue_version); reflexivity.
Qed.

(** C1, as the code has it: with [force=True] and a locator that names the
    package, the branch and a version other than the head of the branch,
    [create_item], [update_item] and [delete_item] do not fork: each raises
    [VersionConflictError] with the head of the branch and writes nothing. *)
Theorem forced_write_raises_version_conflict :
  create_item stale_root "chapter" "editor" None None None true false forked_store
  = (inl (VersionConflictError stale_root 2), forked_store)
  ∧ update_item stale_descriptor "editor" true forked_store
    = (inl (VersionConflictError stale_root 2), forked_store)
  ∧ delete_item 10 stale_chapter "editor" false true forked_store
    = (inl (VersionConflictError stale_chapter 2), forked_store).
Proof.
  assert (Hidx : course_indexes forked_store !! "edu"
                 = Some (course_of [("draft", 2%N)])) by reflexivity.
  assert (Hh : ci_versions (course_of [("draft", 2%N)]) !! "draft" = Some 2%N)
    by reflexivity.
  split; [|split].
  - unfold create_item.
    erewrite bind_ok
      by (erewrite (get_index_if_valid_stale _ stale_root); eauto; done).
    erewrite bind_err; [reflexivity|].
    by eapply (lookup_course_stale _ stale_root).
  - unfold update_item.
    erewrite bind_err; [reflexivity|].
    by eapply (lookup_course_stale _ stale_root).
  - unfold delete_item.
    change (l_block_id stale_chapter) with (Some "chapter1"). cbv beta iota.
    erewrite bind_err; [reflexivity|].
    by eapply (lookup_course_stale _ stale_chapter).
Qed.

(** ** Orphans of a publish *)

Lemma elem_of_get_parents (c : string) (st : structure) (parent : string) :
  parent ∈ _get_parents_from_structure c st
  ↔ ∃ b, s_blocks st !! parent = Some b ∧ c ∈ get_children (b_fields b).
Proof.
  unfold _get_parents_from_structure. rewrite list_elem_of_bind. split.
  - intros ([k b] & Hin & Hk). apply elem_of_map_to_list in Hk.
    apply list_elem_of_bind in Hin as (child & Hin & Hc).
    case_bool_decide; [|by apply elem_of_nil in Hin].
    apply list_elem_of_singleton in Hin. subst. eauto.
  - intros (b & Hb & Hc). exists (parent, b). split.
    + apply list_elem_of_bind. exists c. split; [|done].
      rewrite bool_decide_eq_true_2 by done. apply list_elem_of_singleton. done.
    + by apply elem_of_map_to_list.
Qed.

(** A child of a block of the structure has a parent: the recursive call of
    [_delete_if_true_orphan], made while the orphan is still among the blocks,
    leaves the structure as it is. *)
Lemma delete_if_true_orphan_children (fuel : nat) (st : structure)
    (orphan : string) (b : block) (cs : list string) (s : store) :
  s_blocks st !! orphan = Some b →
  cs ⊆ get_children (b_fields b) →
  foldM (_delete_if_true_orphan (S fuel)) st cs s = (inr st, s).
Proof.
  intros Hb. induction cs as [|c cs IH]; intros Hcs; [reflexivity|].
  simpl foldM. erewrite bind_ok; [apply IH; set_solver|].
  simpl. rewrite bool_decide_eq_false_2; [reflexivity|].
  intros Hnil.
  assert (Hin : orphan ∈ _get_parents_from_structure c st).
  { apply elem_of_get_parents. exists b. split; [done|]. apply Hcs. by left. }
  rewrite Hnil in Hin. by apply elem_of_nil in Hin.
Qed.

(** [_delete_if_true_orphan] removes the orphan and nothing below it. *)
Lemma delete_if_true_orphan_shallow (fuel : nat) (st : structure)
    (orphan : string) (s : store) :
  _delete_if_true_orphan (S (S fuel)) st orphan s
  = if bool_decide (_get_parents_from_structure orphan st = []) then
      match s_blocks st !! orphan with
      | Some _ => (inr (set_blocks (λ _, delete orphan (s_blocks st)) st), s)
      | None => (inl KeyError, s)
      end
    else (inr st, s).
Proof.
  simpl. case_bool_decide; [|reflexivity].
  unfold encode_key_for_mongo.
  destruct (s_blocks st !! orphan) as [b|] eqn:Hb; [|reflexivity].
  erewrite bind_ok by reflexivity.
  erewrite bind_ok by (by eapply delete_if_true_orphan_children).
  unfold del_block. rewrite Hb.
  rewrite bool_decide_eq_true_2 by eauto.
  reflexivity.
Qed.

(** C3, as the code has it: the orphan [o] is removed from the published
    blocks, and its child [c], which no block lists any more, stays among
    them. *)
Theorem publish_keeps_children_of_deleted_orphan :
  ∃ s' st,
    xblock_publish 10 "publisher" draft_course published_course ["course"] []
                   publish_store
    = (inr tt, s')
    ∧ course_indexes s' !! "edu"
      = Some (course_of [("draft", 1%N); ("published", 3%N)])
    ∧ structures s' !! 3%N = Some st
    ∧ s_blocks st !! "o" = None
    ∧ is_Some (s_blocks st !! "c")
    ∧ _get_parents_from_structure "c" st = [].
Proof.
  eexists _, _. split; [vm_compute; reflexivity|].
  split; [vm_compute; reflexivity|].
  split; [vm_compute; reflexivity|].
  split; [vm_compute; reflexivity|].
  split; [vm_compute; eauto|].
  vm_compute; reflexivity.
Qed.

(** ** Successors *)

(** C9, as the code has it: structures 2 and 3 follow structure 1, and at
    depth 2 the tree lists structure 3 twice under structure 1. *)
Theorem successors_list_last_structure_only :
  ∃ t,
    get_course_successors (version_locator 0) 2 history_store
    = (inr (Some t), history_store)
    ∧ vt_tree t !! 0%N = Some [version_locator 1]
    ∧ vt_tree t !! 1%N = Some [version_locator 3; version_locator 3]
    ∧ (s_previous_version <$> structures history_store !! 2%N) = Some (Some 1%N)
    ∧ (s_previous_version <$> structures history_store !! 3%N) = Some (Some 1%N).
Proof.
  eexists. split; [vm_compute; reflexivity|].
  repeat split; vm_compute; reflexivity.
Qed.

(** ** Package ids *)

Lemma take_digits_string_of_uint (d : Decimal.uint) :
  take_digits (NilEmpty.string_of_uint d) = NilEmpty.string_of_uint d.
Proof. induction d; simpl; [reflexivity|..]; by rewrite IHd. Qed.

Lemma str_nonempty (n : nat) : str n ≠ "".
Proof.
  unfold str. destruct (Nat.to_uint n) eqn:E; try discriminate.
  exfalso. pose proof (DecimalNat.Unsigned.of_to n) as H.
  rewrite E in H. simpl in H. subst n. discriminate.
Qed.

Lemma take_digits_str (n : nat) : take_digits (str n) = str n.
Proof. apply take_digits_string_of_uint. Qed.

Lemma int_str (n : nat) : int (str n) = Some n.
Proof.
  unfold int, str. rewrite NilEmpty.usu. simpl.
  by rewrite DecimalNat.Unsigned.of_to.
Qed.

Lemma strip_prefix_app (p r : string) : strip_prefix p (p +:+ r) = Some r.
Proof.
  induction p as [|a p IH]; simpl; [by destruct r|].
  by rewrite Ascii.eqb_refl.
Qed.

Lemma re_search_app (id_root r : string) : re_search id_root (id_root +:+ r) = true.
Proof.
  destruct (id_root +:+ r) eqn:E; simpl.
  - destruct id_root; [reflexivity|discriminate].
  - rewrite <- E, strip_prefix_app. reflexivity.
Qed.

Lemma re_search_serial_app (id_root : string) (n : nat) :
  re_search_serial id_root (id_root +:+ str n) = Some (str n).
Proof.
  pose proof (str_nonempty n) as Hne.
  destruct (id_root +:+ str n) eqn:E; simpl.
  - destruct id_root; [exfalso; exact (Hne E)|discriminate].
  - rewrite <- E, strip_prefix_app, take_digits_str.
    destruct (str n); [done|reflexivity].
Qed.

Lemma strip_prefix_Some (p s r : string) :
  strip_prefix p s = Some r → s = p +:+ r.
Proof.
  revert s. induction p as [|a p IH]; intros s; simpl.
  - by intros [= ->].
  - destruct s as [|b s]; [discriminate|].
    destruct (Ascii.eqb a b) eqn:E; [|discriminate].
    apply Ascii.eqb_eq in E as ->. intros H. by rewrite (IH _ H).
Qed.

Lemma string_app_length (a b : string) :
  String.length (a +:+ b) = (String.length a + String.length b)%nat.
Proof.
  induction a as [|x a IH]; [reflexivity|].
  change (S (String.length (a +:+ b)) = S (String.length a + String.length b)).
  by rewrite IH.
Qed.

(** For a literal, [re.search] finds [id_root] exactly where it occurs. *)
Lemma re_search_occurs (id_root p : string) :
  re_search id_root p = true ↔ occurs_in id_root p.
Proof.
  split.
  - induction p as [|a p IH]; simpl.
    + destruct (strip_prefix id_root "") as [r|] eqn:E; [|discriminate].
      intros _. exists "", r. exact (strip_prefix_Some _ _ _ E).
    + destruct (strip_prefix id_root (String a p)) as [r|] eqn:E.
      * intros _. exists "", r. exact (strip_prefix_Some _ _ _ E).
      * intros H. destruct (IH H) as (before & after & ->).
        by exists (String a before), after.
  - intros (before & after & ->).
    induction before as [|a before IH]; [exact (re_search_app id_root after)|].
    change (re_search id_root (String a (before +:+ id_root +:+ after)) = true).
    simpl. by destruct (strip_prefix id_root _).
Qed.

Lemma take_digits_all_digits (digits : string) :
  all_digits digits = true → take_digits digits = digits.
Proof.
  induction digits as [|c digits IH]; [done|]. simpl.
  destruct (is_digit c); [|discriminate]. simpl. intros H. by rewrite IH.
Qed.

(** The serial of [id_root] followed by digits only is these digits. *)
Lemma re_search_serial_anchored (id_root digits : string) :
  is_serial digits →
  re_search_serial id_root (id_root +:+ digits) = Some digits.
Proof.
  intros [Hne Hall].
  destruct (id_root +:+ digits) eqn:E; simpl.
  - destruct id_root; [exfalso; exact (Hne E)|discriminate].
  - rewrite <- E, strip_prefix_app, take_digits_all_digits by done.
    destruct digits; [done|reflexivity].
Qed.

(** A serial is found in an id that is longer than [id_root] only. *)
Lemma re_search_serial_longer (id_root p digits : string) :
  re_search_serial id_root p = Some digits →
  (String.length id_root < String.length p)%nat.
Proof.
  induction p as [|a p IH]; simpl.
  - destruct (strip_prefix id_root "") as [r|] eqn:E; [|discriminate].
    apply strip_prefix_Some in E.
    destruct id_root; [|discriminate]. change ("" = r) in E. subst r. discriminate.
  - assert (Hnext : re_search_serial id_root p = Some digits →
                    (String.length id_root < S (String.length p))%nat)
      by (intros H; specialize (IH H); lia).
    destruct (strip_prefix id_root (String a p)) as [r|] eqn:E; [|exact Hnext].
    destruct (take_digits r) as [|c ds] eqn:Ed; [exact Hnext|].
    intros _. apply strip_prefix_Some in E.
    change (S (String.length p)) with (String.length (String a p)).
    rewrite E, string_app_length.
    destruct r; [discriminate|]. simpl. lia.
Qed.

Lemma re_search_serial_self (id_root : string) :
  re_search_serial id_root id_root = None.
Proof.
  destruct (re_search_serial id_root id_root) as [digits|] eqn:E; [|done].
  apply re_search_serial_longer in E. lia.
Qed.

Lemma max_serial_ge (id_root : string) (l : list course_index) (m : nat) :
  (m ≤ max_serial id_root m l)%nat
  ∧ ∀ entry digits, entry ∈ l →
      re_search_serial id_root (ci_id entry) = Some digits →
      (default 0 (int digits) ≤ max_serial id_root m l)%nat.
Proof.
  revert m. induction l as [|e l IH]; intros m; simpl.
  - split; [lia|]. intros ? ? Hin. by apply elem_of_nil in Hin.
  - set (m' := match re_search_serial id_root (ci_id e) with
               | Some digits =>
                   if bool_decide (m < default 0 (int digits))
                   then default 0 (int digits) else m
               | None => m
               end).
    assert (Hm : (m ≤ m')%nat).
    { subst m'. destruct (re_search_serial _ _); [|lia].
      case_bool_decide; lia. }
    destruct (IH m') as [Hle Hall]. split; [unfold max_serial in *; lia|].
    intros entry digits [->|Hin]%elem_of_cons Hd.
    + assert ((default 0 (int digits) ≤ m')%nat).
      { subst m'. rewrite Hd. case_bool_decide; lia. }
      unfold max_serial in *. lia.
    + by eapply Hall.
Qed.

Lemma max_serial_attained (id_root : string) (l : list course_index) (m : nat) :
  max_serial id_root m l = m
  ∨ ∃ entry digits, entry ∈ l
      ∧ re_search_serial id_root (ci_id entry) = Some digits
      ∧ default 0 (int digits) = max_serial id_root m l.
Proof.
  revert m. induction l as [|e l IH]; intros m; simpl; [by left|].
  set (m' := match re_search_serial id_root (ci_id e) with
             | Some digits =>
                 if bool_decide (m < default 0 (int digits))
                 then default 0 (int digits) else m
             | None => m
             end).
  destruct (IH m') as [Heq|(entry & digits & Hin & Hd & Hv)].
  - fold (max_serial id_root m' l). rewrite Heq. subst m'.
    destruct (re_search_serial id_root (ci_id e)) as [digits|] eqn:Hd; [|by left].
    case_bool_decide; [|by left].
    right. exists e, digits. split; [by left|]. done.
  - right. exists entry, digits. split; [by right|]. done.
Qed.

Lemma find_course_indexes_run (matches : string → bool) (s : store) :
  ∃ l, find_course_indexes_by_id matches s = (inr l, s)
       ∧ ∀ idx, idx ∈ l
                ↔ (∃ p, course_indexes s !! p = Some idx)
                  ∧ matches (ci_id idx) = true.
Proof.
  eexists. split; [reflexivity|]. intros idx.
  rewrite list_elem_of_filter, list_elem_of_fmap. split.
  - intros [Hm ([p i] & -> & Hin)]. apply elem_of_map_to_list in Hin. eauto.
  - intros [[p Hp] Hm]. split; [done|]. exists (p, idx). split; [done|].
    by apply elem_of_map_to_list.
Qed.

Lemma string_app_nil_r (s : string) : s +:+ "" = s.
Proof.
  induction s as [|a s IH]; [reflexivity|].
  change (String a (s +:+ "") = String a s). by rewrite IH.
Qed.

Lemma read_only_find_course_indexes matches :
  read_only (find_course_indexes_by_id matches).
Proof. apply read_only_gets. Qed.

Lemma read_only_generate_package_id id_root :
  read_only (_generate_package_id id_root).
Proof.
  unfold _generate_package_id.
  repeat first [apply read_only_find_course_indexes | read_only_step].
Qed.

(** The id generated depends on the course indexes only. *)
Lemma generate_package_id_indexes (id_root : string) (s s' : store) :
  course_indexes s = course_indexes s' →
  (_generate_package_id id_root s).1 = (_generate_package_id id_root s').1.
Proof.
  intros Heq. unfold _generate_package_id, find_course_indexes_by_id, gets.
  rewrite !bind_unfold. rewrite Heq. by case_bool_decide.
Qed.

Lemma lookup_course_envelope (l : locator) (s s' : store) (env : envelope) :
  _lookup_course l s = (inr env, s') →
  env_package_id env = l_package_id l ∧ env_branch env = l_branch l.
Proof.
  unfold _lookup_course. destruct (negb _); [discriminate|].
  intros H. inv_bind H v s_1 H1. inv_bind H e s_2 H2.
  by injection H as <- _.
Qed.

Lemma get_course_location (l : locator) (s s' : store) (d : descriptor) :
  get_course l s = (inr d, s') →
  l_package_id (x_location d) = l_package_id l
  ∧ l_branch (x_location d) = l_branch l.
Proof.
  unfold get_course. intros H.
  inv_bind H env s_1 H1. apply lookup_course_envelope in H1 as [Hp Hb].
  inv_bind H st s_2 H2. inv_bind H ds s_3 H3.
  unfold _load_items in H3.
  inv_bind H3 st' s_4 H4. inv_bind H3 u s_5 H5.
  simpl in H3. inv_bind H3 d0 s_6 H6. inv_bind H3 k s_7 H7.
  injection H7 as <- <-. injection H3 as <- <-. simpl in H.
  injection H as <- <-.
  unfold load_item in H6. destruct (_get_block_from_structure _ _); [|discriminate].
  inv_bind H6 def s_8 H8. injection H6 as <- _. simpl. by rewrite Hp, Hb.
Qed.

Lemma create_course_package_id (org prettyid user : string)
    (id_root : option string) fields (master_branch : string) versions_dict
    (root_category root_block_id : string) (s s' : store) (d : descriptor) :
  create_course org prettyid user id_root fields master_branch versions_dict
                root_category root_block_id s = (inr d, s') →
  ∃ g idx,
    _generate_package_id (default org id_root) s = (inr g, s)
    ∧ l_package_id (x_location d) = Some g
    ∧ course_indexes s' = <[g := idx]> (course_indexes s)
    ∧ ci_id idx = g ∧ ci_org idx = org.
Proof.
  unfold create_course. cbv zeta. intros H.
  inv_bind H vd s_1 H1.
  apply keeps_indexes_run in H1 as [Hi1 _]; [|solve_frame].
  inv_bind H g s_2 H2. pose proof H2 as H2'.
  apply read_only_run in H2' as ->; [|apply read_only_generate_package_id].
  inv_bind H t s_3 H3. injection H3 as <- <-.
  inv_bind H u s_4 H4. injection H4 as _ <-.
  pose proof (get_course_location _ _ _ _ H) as [Hp _].
  apply keeps_indexes_run in H as [Hi _]; [|solve_frame].
  eexists g, _. split.
  { pose proof (generate_package_id_indexes (default org id_root) s s_1
                  (eq_sym Hi1)) as Heq.
    rewrite H2 in Heq. simpl in Heq.
    pose proof (read_only_generate_package_id (default org id_root) s) as Hro.
    destruct (_generate_package_id (default org id_root) s) as [r s0].
    simpl in *. by subst. }
  split; [exact Hp|].
  rewrite Hi. simpl. rewrite Hi1. split; [reflexivity|]. done.
Qed.

(** C8, as the code has it, for an [id_root] without special characters of
    regular expressions: [_generate_package_id] only reads the store and
    returns an id that is not an existing package id. The id is [id_root]
    when [id_root] occurs in no existing package id. When [id_root] is taken
    and the existing package ids in which it occurs are [id_root] itself and
    [id_root] followed by decimal digits, the id is [id_root] followed by the
    decimal numeral of [m + 1], where [m] is the largest number that such
    digits denote (0 when no existing id carries digits): one more than the
    largest suffix in use, which need not be the lowest free one.
    [create_course] inserts the index of the new course under the id so
    generated from [id_root], which is [org] when it is not given. *)
Theorem generate_package_id_unique (id_root : string) (s : store) :
  regex_literal id_root = true →
  (∀ p idx, course_indexes s !! p = Some idx → ci_id idx = p) →
  ∃ g,
    _generate_package_id id_root s = (inr g, s)
    ∧ course_indexes s !! g = None
    ∧ ((∀ p, is_Some (course_indexes s !! p) → ¬ occurs_in id_root p) →
       g = id_root)
    ∧ (is_Some (course_indexes s !! id_root) →
       (∀ p, is_Some (course_indexes s !! p) → occurs_in id_root p →
          p = id_root ∨ ∃ digits, is_serial digits ∧ p = id_root +:+ digits) →
       ∃ m : nat,
         g = id_root +:+ str (m + 1)
         ∧ (∀ digits, is_serial digits →
              is_Some (course_indexes s !! (id_root +:+ digits)) →
              (default 0 (int digits) ≤ m)%nat)
         ∧ (m = 0%nat
            ∨ ∃ digits, is_serial digits
                ∧ is_Some (course_indexes s !! (id_root +:+ digits))
                ∧ default 0 (int digits) = m))
    ∧ (∀ org prettyid user id_root_given fields master_branch versions_dict
         root_category root_block_id d s',
         default org id_root_given = id_root →
         create_course org prettyid user id_root_given fields master_branch
                       versions_dict root_category root_block_id s
         = (inr d, s') →
         l_package_id (x_location d) = Some g
         ∧ ∃ idx, course_indexes s' = <[g := idx]> (course_indexes s)
                  ∧ ci_id idx = g ∧ ci_org idx = org).
Proof.
  intros _ Hkeys.
  destruct (find_course_indexes_run (re_search id_root) s) as (l & Hrun & Hl).
  assert (Hgen : _generate_package_id id_root s
                 = (inr (if bool_decide (0 < length l)%nat
                         then id_root +:+ str (max_serial id_root 0 l + 1)
                         else id_root), s)).
  { unfold _generate_package_id. erewrite bind_ok by exact Hrun.
    fold (max_serial id_root 0 l). by case_bool_decide. }
  eexists. split; [exact Hgen|].
  match goal with
  | |- ?A ∧ ?B ∧ ?C ∧ ?D =>
      assert (Hcreate : D);
      [|assert (Hmain : A ∧ B ∧ C);
        [|destruct Hmain as (HA & HB & HC); auto]]
  end.
  { intros org prettyid user id_root_given fields master_branch versions_dict
      root_category root_block_id d s' Hroot Hcreate.
    apply create_course_package_id in Hcreate
      as (g & idx & Hg & Hloc & Hi & Hid & Horg).
    rewrite Hroot, Hgen in Hg. injection Hg as <-. eauto 10. }
  clear Hcreate.
  pose proof (max_serial_ge id_root l 0) as [_ Hge].
  assert (Hself : ∀ idx, course_indexes s !! id_root = Some idx → idx ∈ l).
  { intros idx Hidx. apply Hl. split; [eauto|]. rewrite (Hkeys _ _ Hidx).
    apply re_search_occurs. exists "", "". rewrite string_app_nil_r. reflexivity. }
  case_bool_decide as Hlen.
  - (* some package id contains id_root *)
    split; [|split].
    + destruct (course_indexes s !! (id_root +:+ _)) as [idx|] eqn:Hidx;
        [|done]. exfalso.
      pose proof (Hkeys _ _ Hidx) as Hid.
      assert (Hin : idx ∈ l).
      { apply Hl. split; [eauto|]. rewrite Hid. apply re_search_app. }
      specialize (Hge idx (str (max_serial id_root 0 l + 1)) Hin).
      rewrite Hid, re_search_serial_app, int_str in Hge.
      specialize (Hge eq_refl). simpl in Hge. lia.
    + intros Hnone. exfalso. destruct l as [|idx l']; [simpl in Hlen; lia|].
      destruct (proj1 (Hl idx)) as [[p Hp] Hm]; [by left|].
      pose proof (Hkeys _ _ Hp) as Hid. rewrite Hid in Hm.
      apply re_search_occurs in Hm. by apply (Hnone p); [eexists|].
    + intros _ Hanchored. exists (max_serial id_root 0 l).
      split; [done|]. split.
      * intros digits Hserial [idx Hq].
        pose proof (Hkeys _ _ Hq) as Hid.
        apply (Hge idx).
        -- apply Hl. split; [eauto|]. rewrite Hid. apply re_search_app.
        -- rewrite Hid. by apply re_search_serial_anchored.
      * destruct (max_serial_attained id_root l 0)
          as [Heq|(entry & digits & Hin & Hd & Hv)]; [by left|].
        right. apply Hl in Hin as [[q Hq] Hm].
        pose proof (Hkeys _ _ Hq) as Hid. rewrite Hid in Hd, Hm.
        apply re_search_occurs in Hm.
        destruct (Hanchored q) as [->|(digits' & Hserial & ->)];
          [by eexists|done| |].
        -- by rewrite re_search_serial_self in Hd.
        -- rewrite re_search_serial_anchored in Hd by done.
           injection Hd as ->. exists digits. split; [done|].
           split; [by eexists|done].
  - (* no package id contains id_root *)
    assert (l = []) as -> by (destruct l; [done|simpl in Hlen; lia]).
    split; [|split; [done|]].
    + destruct (course_indexes s !! id_root) as [idx|] eqn:Hidx; [|done].
      exfalso. by apply (elem_of_nil idx), Hself.
    + intros [idx Hidx] _. exfalso. by apply (elem_of_nil idx), Hself.
Qed.

Lemma generate_package_id_witness :
  regex_literal "edu" = true
  ∧ (∀ p idx, course_indexes catalog_store !! p = Some idx → ci_id idx = p)
  ∧ _generate_package_id "edu" catalog_store = (inr "edu6", catalog_store)
  ∧ course_indexes catalog_store !! "edu6" = None
  ∧ (∃ m : nat, "edu6" = "edu" +:+ str (m + 1) ∧ (5 ≤ m)%nat)
  ∧ ∃ d s', create_course "edu" "Third" "author" None None "draft" None
                          "course" "course" catalog_store = (inr d, s')
            ∧ l_package_id (x_location d) = Some "edu6".
Proof.
  assert (Hids : ∀ p, is_Some (course_indexes catalog_store !! p) →
                      p = "edu" ∨ p = "edu5").
  { intros p. unfold catalog_store. simpl.
    destruct (decide (p = "edu")) as [->|H1]; [by left|].
    destruct (decide (p = "edu5")) as [->|H2]; [by right|].
    rewrite lookup_insert_ne, lookup_singleton_ne by done. by intros [? ?]. }
  assert (Hkeys : ∀ p idx, course_indexes catalog_store !! p = Some idx
                           → ci_id idx = p).
  { intros p idx Hp.
    destruct (Hids p) as [->| ->]; [by eexists| |];
      vm_compute in Hp; by injection Hp as <-. }
  split; [reflexivity|]. split; [exact Hkeys|].
  destruct (generate_package_id_unique "edu" catalog_store eq_refl Hkeys)
    as (g & Hrun & Hfresh & _ & Hsuffix & Hcreate).
  assert (g = "edu6") as ->.
  { assert (H : (_generate_package_id "edu" catalog_store).1 = inr g)
      by (by rewrite Hrun).
    vm_compute in H. by injection H. }
  split; [exact Hrun|]. split; [exact Hfresh|]. split.
  { destruct Hsuffix as (m & Hg & Hmax & _).
    - by eexists.
    - intros p Hp _. destruct (Hids p Hp) as [->| ->]; [by left|].
      right. exists "5". split; [|reflexivity]. split; [discriminate|reflexivity].
    - exists m. split; [exact Hg|].
      apply (Hmax "5"); [split; [discriminate|reflexivity]|by eexists]. }
  destruct (create_course "edu" "Third" "author" None None "draft" None
                          "course" "course" catalog_store)
    as [[e|d] s'] eqn:Hrun'; [vm_compute in Hrun'; discriminate|].
  exists d, s'. split; [reflexivity|].
  by apply (Hcreate "edu" "Third" "author" None None "draft" None
                    "course" "course" d s' eq_refl).
Defined.

(** The id generated for [catalog_store] is not the one with the lowest
    suffix: [edu6] is generated while [edu0] to [edu4] are free. *)
Lemma generate_package_id_not_lowest :
  _generate_package_id "edu" catalog_store = (inr "edu6", catalog_store)
  ∧ ¬ lowest_unique_suffix "edu" (course_indexes catalog_store) "edu6".
Proof.
  split; [vm_compute; reflexivity|].
  intros (_ & [Heq|(n & Hn & _ & Hlow)]); [discriminate|].
  destruct n as [|[|n]]; [vm_compute in Hn; discriminate ..|].
  destruct (Hlow 1%nat) as [idx Hidx]; [lia|].
  vm_compute in Hidx. discriminate.
Qed.

(** ** Optimistic concurrency *)

Lemma create_item_advances_head (l : locator) category user block_id
    definition_locator fields (force : bool) (s s1 : store) r p br idx h :
  l_package_id l = Some p → l_branch l = Some br →
  (l_version_guid l = None ∨ l_version_guid l = Some h) →
  course_indexes s !! p = Some idx → ci_id idx = p →
  ci_versions idx !! br = Some h →
  create_item l category user block_id definition_locator fields force false s
  = (inr r, s1) →
  ∃ n, (next_oid s ≤ n)%N
       ∧ course_indexes s1 = <[p := with_head idx br n]> (course_indexes s).
Proof.
  intros Hp Hb Hv Hidx Hid Hh H. unfold create_item in H.
  inv_bind H ie s_1 H1.
  rewrite (get_index_if_valid_head s l p br idx h force) in H1 by done.
  injection H1 as <- <-.
  inv_bind H course s_2 H2.
  rewrite (lookup_course_head s l p br idx h) in H2 by done.
  injection H2 as <- <-. cbv zeta in H. simpl env_structure in H.
  inv_bind H dl s_3 H3.
  apply keeps_indexes_run in H3 as [Hi3 Hn3]; [|solve_frame].
  inv_bind H ns s_4 H4. simpl in H4.
  apply version_structure_inv in H4 as (Hns & _ & _ & Hi4 & _ & Hn4).
  inv_bind H nb s_5 H5. apply read_only_run in H5 as ->; [|solve_frame].
  inv_bind H di s_6 H6. apply read_only_run in H6 as ->; [|solve_frame].
  inv_bind H t s_7 H7. apply read_only_run in H7 as ->; [|solve_frame].
  inv_bind H ns' s_8 H8. apply read_only_run in H8 as ->; [|solve_frame].
  inv_bind H u s_9 H9. simpl in H9.
  apply keeps_indexes_run in H9 as [Hi9 Hn9]; [|solve_frame].
  inv_bind H cp s_10 H10. rewrite Hb in H10. simpl in H10.
  injection H10 as <- <-.
  apply keeps_indexes_run in H as [Hi Hn]; [|solve_frame].
  exists (s_id ns). split; [lia|].
  rewrite Hi. simpl. rewrite Hi9, Hi4, Hi3. rewrite <- Hid. reflexivity.
Qed.

Lemma update_definition_unchanged d f user (s s' : store) dl :
  update_definition_from_data d f user s = (inr (dl, false), s') → s' = s.
Proof.
  unfold update_definition_from_data. cbv zeta. intros H.
  inv_bind H old s_1 H1. apply read_only_run in H1 as ->.
  2:{ unfold get_definition_by_locator. solve_frame. }
  destruct old as [old|]; [|discriminate]. destruct d as [|d]; [discriminate|].
  destruct (needs_saved _ _).
  - inv_bind H a s_2 H2. inv_bind H t s_3 H3. inv_bind H u s_4 H4.
    discriminate.
  - by injection H as _ ->.
Qed.

Lemma update_item_advances_head (d : descriptor) user (force : bool)
    (s s1 : store) r p br idx h :
  l_package_id (x_location d) = Some p → l_branch (x_location d) = Some br →
  (l_version_guid (x_location d) = None ∨ l_version_guid (x_location d) = Some h) →
  course_indexes s !! p = Some idx → ci_id idx = p →
  ci_versions idx !! br = Some h →
  update_item d user force s = (inr r, s1) →
  s1 ≠ s →
  ∃ n, (next_oid s ≤ n)%N
       ∧ course_indexes s1 = <[p := with_head idx br n]> (course_indexes s).
Proof.
  intros Hp Hb Hv Hidx Hid Hh H Hchanged. unfold update_item in H.
  inv_bind H course s_1 H1.
  rewrite (lookup_course_head s _ p br idx h) in H1 by done.
  injection H1 as <- <-.
  inv_bind H ie s_2 H2.
  rewrite (get_index_if_valid_head s _ p br idx h force) in H2 by done.
  injection H2 as <- <-.
  inv_bind H du s_3 H3. destruct du as [ndl upd].
  pose proof H3 as H3'.
  apply keeps_indexes_run in H3' as [Hi3 Hn3]; [|solve_frame].
  cbv zeta in H. simpl in H.
  inv_bind H os s_4 H4. apply read_only_run in H4 as ->; [|solve_frame].
  inv_bind H bid s_5 H5. apply read_only_run in H5 as ->; [|solve_frame].
  inv_bind H u1 s_6 H6. pose proof H6 as H6'.
  apply read_only_run in H6' as ->; [|solve_frame].
  inv_bind H u2 s_7 H7. pose proof H7 as H7'.
  apply read_only_run in H7' as ->; [|solve_frame].
  destruct u2.
  - inv_bind H ns s_8 H8.
    apply version_structure_inv in H8 as (Hns & _ & _ & Hi8 & _ & Hn8).
    inv_bind H bd s_9 H9. apply read_only_run in H9 as ->; [|solve_frame].
    inv_bind H di s_10 H10. apply read_only_run in H10 as ->; [|solve_frame].
    inv_bind H t s_11 H11. apply read_only_run in H11 as ->; [|solve_frame].
    inv_bind H u s_12 H12.
    apply keeps_indexes_run in H12 as [Hi12 Hn12]; [|solve_frame].
    inv_bind H u' s_13 H13. rewrite Hb in H13. simpl in H13.
    injection H13 as <- <-.
    apply keeps_indexes_run in H as [Hi Hn]; [|solve_frame].
    exists (s_id ns). split; [lia|].
    rewrite Hi. simpl. rewrite Hi12, Hi8, Hi3. rewrite <- Hid. reflexivity.
  - exfalso. apply Hchanged. injection H as _ <-.
    destruct u1; [by destruct upd|].
    destruct upd; [discriminate|].
    by eapply update_definition_unchanged.
Qed.

Lemma delete_item_advances_head (fuel : nat) (l : locator) user
    (delete_children force : bool) (s s1 : store) r p br idx h :
  l_package_id l = Some p → l_branch l = Some br →
  (l_version_guid l = None ∨ l_version_guid l = Some h) →
  course_indexes s !! p = Some idx → ci_id idx = p →
  ci_versions idx !! br = Some h →
  delete_item fuel l user delete_children force s = (inr r, s1) →
  ∃ n, (next_oid s ≤ n)%N
       ∧ course_indexes s1 = <[p := with_head idx br n]> (course_indexes s).
Proof.
  intros Hp Hb Hv Hidx Hid Hh H. unfold delete_item in H.
  destruct (l_block_id l) as [bid|]; [|discriminate].
  inv_bind H course s_1 H1.
  rewrite (lookup_course_head s _ p br idx h) in H1 by done.
  injection H1 as <- <-. simpl in H.
  inv_bind H os s_2 H2. apply read_only_run in H2 as ->; [|solve_frame].
  case_bool_decide; [discriminate|].
  inv_bind H ie s_3 H3.
  rewrite (get_index_if_valid_head s _ p br idx h force) in H3 by done.
  injection H3 as <- <-.
  inv_bind H ns s_4 H4.
  apply version_structure_inv in H4 as (Hns & _ & _ & Hi4 & _ & Hn4).
  cbv zeta in H.
  inv_bind H ps s_5 H5. apply read_only_run in H5 as ->; [|solve_frame].
  inv_bind H nb s_6 H6. apply read_only_run in H6 as ->; [|solve_frame].
  inv_bind H nb' s_7 H7. apply read_only_run in H7 as ->; [|solve_frame].
  inv_bind H u s_8 H8.
  apply keeps_indexes_run in H8 as [Hi8 Hn8]; [|solve_frame].
  inv_bind H u' s_9 H9. rewrite Hb in H9. simpl in H9.
  injection H9 as <- <-.
  injection H as _ <-.
  exists (s_id ns). split; [lia|].
  simpl. rewrite Hi8, Hi4. rewrite <- Hid. reflexivity.
Qed.

Lemma stale_locator_conflicts (s : store) (l : locator) p br v idx h :
  l_package_id l = Some p → l_branch l = Some br → l_version_guid l = Some v →
  course_indexes s !! p = Some idx → ci_versions idx !! br = Some h →
  h ≠ v →
  conflicts l h s.
Proof.
  intros Hp Hb Hv Hidx Hh Hne.
  pose proof (lookup_course_stale s l p br v idx h Hp Hb Hv Hidx Hh Hne) as Hlook.
  assert (Hvalid : ∀ cv, _get_index_if_valid l false cv s
                         = (inl (VersionConflictError l h), s)).
  { intros cv. by rewrite (get_index_if_valid_stale s l p br v idx h). }
  split; [done|]. split; [done|]. split; [|split; [|split]].
  - intros. unfold create_item. by erewrite bind_err.
  - intros d user <-. unfold update_item. by erewrite bind_err.
  - intros fuel user dc [bid Hbid]. unfold delete_item. rewrite Hbid.
    by erewrite bind_err.
  - intros [bid Hbid]. unfold get_item. rewrite Hbid. by erewrite bind_err.
Qed.

(** C2: when a locator names the package, the branch and a version that is
    not the head [versions[branch]], resolving it ([_lookup_course],
    [_get_index_if_valid] without force) and every read or write without
    force through it raise [VersionConflictError] with the head, and nothing
    is written. So, of two writers that hold the same head [v]: once the
    write of the first has succeeded, the head is a new id and whatever the
    second writes without force through its locator is refused with
    [VersionConflictError] and that new head. *)
Theorem version_conflict_on_stale_head :
  (∀ (s : store) (l : locator) p br v idx h,
     l_package_id l = Some p → l_branch l = Some br →
     l_version_guid l = Some v →
     course_indexes s !! p = Some idx → ci_versions idx !! br = Some h →
     h ≠ v →
     conflicts l h s)
  ∧ (∀ (s s1 : store) (l : locator) p br v idx,
       l_package_id l = Some p → l_branch l = Some br →
       l_version_guid l = Some v →
       course_indexes s !! p = Some idx → ci_id idx = p →
       ci_versions idx !! br = Some v →
       (v < next_oid s)%N →
       ((∃ category user block_id definition_locator fields r,
           create_item l category user block_id definition_locator fields
                       false false s = (inr r, s1))
        ∨ (∃ d user r, x_location d = l
                       ∧ update_item d user false s = (inr r, s1) ∧ s1 ≠ s)
        ∨ (∃ fuel user delete_children r,
             delete_item fuel l user delete_children false s = (inr r, s1))) →
       ∃ idx1 h1,
         course_indexes s1 !! p = Some idx1
         ∧ ci_versions idx1 !! br = Some h1
         ∧ h1 ≠ v
         ∧ conflicts l h1 s1).
Proof.
  split; [apply stale_locator_conflicts|].
  intros s s1 l p br v idx Hp Hb Hv Hidx Hid Hh Hfresh Hwrite.
  assert (Hhead : ∃ n, (next_oid s ≤ n)%N
                       ∧ course_indexes s1
                         = <[p := with_head idx br n]> (course_indexes s)).
  { destruct Hwrite as [(c & u & b & dl & f & r & H)
                       |[(d & u & r & <- & H & Hch)|(fuel & u & dc & r & H)]].
    - eapply create_item_advances_head; eauto.
    - eapply update_item_advances_head; eauto.
    - eapply delete_item_advances_head; eauto. }
  destruct Hhead as (n & Hn & Hi).
  assert (Hidx1 : course_indexes s1 !! p = Some (with_head idx br n))
    by (by rewrite Hi, lookup_insert_eq).
  assert (Hh1 : ci_versions (with_head idx br n) !! br = Some n)
    by (simpl; by rewrite lookup_insert_eq).
  assert (n ≠ v) by lia.
  exists (with_head idx br n), n. split; [done|]. split; [done|].
  split; [done|]. by eapply stale_locator_conflicts.
Qed.

Lemma version_conflict_witness :
  conflicts stale_root 2 forked_store
  ∧ ∃ r s1,
      create_item head_root "chapter" "first" None None None false false
                  forked_store = (inr r, s1)
      ∧ (ci_versions <$> course_indexes s1 !! "edu") = Some {[ "draft" := 21%N ]}
      ∧ conflicts head_root 21 s1.
Proof.
  split.
  - apply (proj1 version_conflict_on_stale_head forked_store stale_root
             "edu" "draft" 1%N (course_of [("draft", 2%N)]) 2%N);
      try reflexivity. by_decide.
  - destruct (create_item head_root "chapter" "first" None None None false false
                forked_store) as [[e|r] s1] eqn:Hrun;
      [vm_compute in Hrun; discriminate|].
    exists r, s1. split; [reflexivity|].
    destruct (proj2 version_conflict_on_stale_head forked_store s1 head_root
                "edu" "draft" 2%N (course_of [("draft", 2%N)]))
      as (idx1 & h1 & Hidx1 & Hh1 & Hne & Hconf);
      try reflexivity; try by_decide.
    { left. eauto 10. }
    assert (Hs1 : (ci_versions <$> course_indexes s1 !! "edu")
                  = Some {[ "draft" := 21%N ]}).
    { assert (H : s1 = (create_item head_root "chapter" "first" None None None
                          false false forked_store).2) by (by rewrite Hrun).
      rewrite H. vm_compute. reflexivity. }
    split; [exact Hs1|].
    rewrite Hidx1 in Hs1. injection Hs1 as Hs1. rewrite Hs1 in Hh1.
    injection Hh1 as <-. exact Hconf.
Defined.

(** ** Publishing twice *)

Lemma delete_if_true_orphan_keeps (fuel : nat) (st st' : structure)
    (orphan : string) (s s' : store) :
  _delete_if_true_orphan fuel st orphan s = (inr st', s') →
  s_id st' = s_id st ∧ s_root st' = s_root st
  ∧ s_previous_version st' = s_previous_version st.
Proof.
  revert st st' orphan s s'.
  induction fuel as [|fuel IH]; intros st st' orphan s s'; simpl;
    [discriminate|].
  case_bool_decide as Hpar; [|by intros [= <- <-]].
  intros H. inv_bind H b s_1 H1. inv_bind H st1 s_2 H2.
  inv_bind H nb s_3 H3. injection H as <- <-. simpl.
  clear Hpar H1 H3. revert st st1 s_1 s_2 H2.
  induction (get_children (b_fields b)) as [|c cs IHcs];
    intros st st1 s_1 s_2 H2; simpl in H2.
  - by injection H2 as <- <-.
  - inv_bind H2 st0 s_0 H0. apply IH in H0 as (<- & <- & <-).
    by eapply IHcs.
Qed.

Lemma delete_orphans_keeps (fuel : nat) (orphans : list string)
    (st st' : structure) (s s' : store) :
  foldM (_delete_if_true_orphan fuel) st orphans s = (inr st', s') →
  s_id st' = s_id st ∧ s_root st' = s_root st
  ∧ s_previous_version st' = s_previous_version st.
Proof.
  revert st s. induction orphans as [|o os IH]; intros st s; simpl.
  - by intros [= <- <-].
  - intros H. inv_bind H st0 s_0 H0.
    apply delete_if_true_orphan_keeps in H0 as (<- & <- & <-). by eapply IH.
Qed.

Lemma new_structure_inv user root_block_id (s s' : store) (st : structure) :
  _new_structure user root_block_id None s = (inr st, s') →
  s_id st = next_oid s ∧ s_previous_version st = None
  ∧ course_indexes s' = course_indexes s
  ∧ structures s' = structures s
  ∧ next_oid s' = N.succ (next_oid s).
Proof. intros [= <- <-]. done. Qed.

(** What a successful [xblock_publish] does to the store. *)
Lemma publish_inv (fuel : nat) user (source_course destination_course : locator)
    (subtree_list blacklist : list string) (s s1 : store) p br :
  l_package_id destination_course = Some p →
  l_branch destination_course = Some br →
  xblock_publish fuel user source_course destination_course subtree_list
                 blacklist s = (inr tt, s1) →
  ∃ idx st1,
    course_indexes s !! p = Some idx
    ∧ course_indexes s1
      = <[ci_id idx := with_head idx br (next_oid s)]> (course_indexes s)
    ∧ structures s1 = <[next_oid s := st1]> (structures s)
    ∧ s_id st1 = next_oid s
    ∧ next_oid s1 = N.succ (next_oid s).
Proof.
  intros Hp Hb H. unfold xblock_publish in H.
  inv_bind H source s_1 H1. apply read_only_run in H1 as ->; [|solve_frame].
  inv_bind H ie s_2 H2. injection H2 as <- <-. rewrite Hp in H. simpl in H.
  destruct (course_indexes s !! p) as [idx|] eqn:Hidx; [|discriminate].
  inv_bind H ds s_3 H3.
  assert (Hds : s_id ds = next_oid s
                ∧ course_indexes s_3 = course_indexes s
                ∧ structures s_3 = structures s
                ∧ next_oid s_3 = N.succ (next_oid s)).
  { destruct (l_branch destination_course ≫= _).
    - inv_bind H3 d s_4 H4. apply read_only_run in H4 as ->; [|solve_frame].
      apply version_structure_inv in H3 as (? & _ & _ & ? & ? & ?). done.
    - inv_bind H3 d s_4 H4. apply read_only_run in H4 as ->; [|solve_frame].
      case_bool_decide as Hroot; [discriminate|].
      apply new_structure_inv in H3 as (? & _ & ? & ? & ?). done. }
  destruct Hds as (Hid & Hi3 & Hs3 & Hn3).
  inv_bind H ob s_4 H4. apply read_only_run in H4 as ->; [|solve_frame].
  destruct ob as [orphans dblocks].
  inv_bind H ds' s_5 H5. pose proof H5 as H5'.
  apply read_only_run in H5' as ->; [|solve_frame].
  apply delete_orphans_keeps in H5 as (Hid' & _ & _). simpl in Hid'.
  inv_bind H u s_6 H6. injection H6 as _ <-.
  rewrite Hb in H. simpl in H. injection H as <-.
  exists idx, ds'. simpl. rewrite Hi3, Hs3, Hn3, Hid', Hid. done.
Qed.

Lemma filter_none {A} (P : A → Prop) `{∀ x, Decision (P x)} (l : list A) :
  (∀ x, x ∈ l → ¬ P x) → filter P l = [].
Proof.
  induction l as [|a l IH]; [done|]. intros Hl.
  rewrite filter_cons_False by (apply Hl; by left).
  apply IH. intros x Hx. apply Hl. by right.
Qed.

Lemma set_children_same (b : block) (cs : list string) :
  f_children (b_fields b) = Some cs →
  set_fields (set_children cs) b = b.
Proof. destruct b as [c d [m ch] e]. simpl. by intros ->. Qed.

(** A subtree that is current in the destination is left as it is, and has
    no orphans. *)
Lemma publish_subdag_current (fuel : nat) user (b : string)
    (src dst : gmap string block) (blacklist : list string) (s : store) :
  subdag_current fuel b src dst blacklist = true →
  _publish_subdag fuel user b src dst blacklist s = (inr (∅, dst), s).
Proof.
  revert b. induction fuel as [|fuel IH]; intros b; simpl; [discriminate|].
  unfold encode_key_for_mongo.
  destruct (src !! b) as [sb|] eqn:Hsb; [|discriminate].
  destruct (dst !! b) as [db|] eqn:Hdb; [|discriminate].
  intros [Hver Hch]%andb_true_iff. apply bool_decide_eq_true in Hver.
  erewrite bind_ok by reflexivity.
  rewrite bool_decide_eq_false_2 by (intros Hne; by apply Hne).
  erewrite bind_ok by reflexivity. cbv beta iota.
  assert (Hfold :
    foldM (λ '(orphans, destination_blocks) child,
             if bool_decide (child ∈ blacklist)
             then ret (orphans, destination_blocks)
             else
               '(more, destination_blocks) ←
                 _publish_subdag fuel user child src destination_blocks blacklist;
               ret (orphans ∪ more, destination_blocks))
          ((∅ : gset string), dst) (get_children (b_fields db)) s
    = (inr (∅, dst), s)).
  { induction (get_children (b_fields db)) as [|c cs IHcs]; [reflexivity|].
    simpl in Hch. apply andb_true_iff in Hch as [Hc Hcs].
    simpl foldM. erewrite bind_ok; [by apply IHcs|].
    apply orb_true_iff in Hc as [Hc|Hc].
    - by rewrite Hc.
    - destruct (bool_decide (c ∈ blacklist)); [reflexivity|].
      erewrite bind_ok by (by apply IH).
      cbv beta iota. by rewrite union_empty_l_L. }
  erewrite bind_ok by exact Hfold.
  cbv beta iota. by rewrite insert_id.
Qed.

(** Parents whose children are reconciled are left as they are by
    [_sync_children], and have no orphans. *)
Lemma sync_parents_reconciled (source_structure : structure)
    (dst : gmap string block) (subtree_root : string) (parents : list string)
    (s : store) :
  forallb (λ parent,
             match s_blocks source_structure !! parent, dst !! parent with
             | Some sp, Some dp =>
                 match f_children (b_fields sp), f_children (b_fields dp) with
                 | Some source_children, Some destination_children =>
                     bool_decide
                       (filter (λ c, c = subtree_root ∨ c ∈ destination_children)
                               source_children
                        = destination_children)
                 | _, _ => false
                 end
             | _, _ => false
             end) parents = true →
  forallb (λ parent, bool_decide (is_Some (dst !! parent))) parents = true
  ∧ foldM (λ '(orphans, destination_blocks) parent_loc,
             source_parent ← getitem (s_blocks source_structure !! parent_loc);
             destination_parent ← getitem (destination_blocks !! parent_loc);
             '(more, destination_parent) ←
               _sync_children source_parent destination_parent subtree_root;
             ret (orphans ∪ more,
                  <[parent_loc := destination_parent]> destination_blocks))
          ((∅ : gset string), dst) parents s
    = (inr (∅, dst), s).
Proof.
  induction parents as [|parent parents IH]; simpl; [done|].
  intros [Hp Hps]%andb_true_iff. destruct (IH Hps) as [Hall Hfold].
  destruct (s_blocks source_structure !! parent) as [sp|] eqn:Hsp; [|discriminate].
  destruct (dst !! parent) as [dp|] eqn:Hdp; [|discriminate].
  destruct (f_children (b_fields sp)) as [S|] eqn:HS; [|discriminate].
  destruct (f_children (b_fields dp)) as [D|] eqn:HD; [|discriminate].
  apply bool_decide_eq_true in Hp.
  split.
  { rewrite Hall. by rewrite bool_decide_eq_true_2 by eauto. }
  erewrite bind_ok; [exact Hfold|].
  erewrite bind_ok by reflexivity.
  erewrite bind_ok by reflexivity.
  unfold _sync_children. rewrite HS, HD.
  erewrite bind_ok.
  2:{ erewrite bind_ok by reflexivity. erewrite bind_ok by reflexivity.
      reflexivity. }
  cbv beta iota. rewrite Hp.
  assert (Hnone : filter (λ child, child ∉ S) D = []).
  { apply filter_none. intros x Hx Hn. apply Hn.
    rewrite <- Hp in Hx. by apply list_elem_of_filter in Hx as [_ Hx]. }
  rewrite Hnone. simpl. rewrite union_empty_l_L.
  rewrite set_children_same by done. by rewrite insert_id.
Qed.

Lemma republish_fold (fuel : nat) user (source_structure : structure)
    (dst : gmap string block) (subtree_list blacklist : list string)
    (s : store) :
  already_published fuel source_structure dst subtree_list blacklist = true →
  foldM (λ '(orphans, destination_blocks) subtree_root,
           source_structure ← subscript (Some source_structure);
           let parents := _get_parents_from_structure subtree_root source_structure in
           if negb (forallb (λ parent, bool_decide (is_Some (destination_blocks !! parent))) parents)
           then raise ItemNotFoundError
           else
             '(orphans, destination_blocks) ←
               foldM (λ '(orphans, destination_blocks) parent_loc,
                        source_parent ← getitem (s_blocks source_structure !! parent_loc);
                        destination_parent ← getitem (destination_blocks !! parent_loc);
                        '(more, destination_parent) ←
                          _sync_children source_parent destination_parent subtree_root;
                        ret (orphans ∪ more,
                             <[parent_loc := destination_parent]> destination_blocks))
                     (orphans, destination_blocks) parents;
             '(more, destination_blocks) ←
               _publish_subdag fuel user subtree_root
                               (s_blocks source_structure) destination_blocks blacklist;
             ret (orphans ∪ more, destination_blocks))
        ((∅ : gset string), dst) subtree_list s
  = (inr (∅, dst), s).
Proof.
  unfold already_published.
  induction subtree_list as [|r rs IH]; simpl; [done|].
  intros [[Hrec Hcur]%andb_true_iff Hrs]%andb_true_iff.
  erewrite bind_ok; [by apply IH|].
  erewrite bind_ok by reflexivity. cbv zeta.
  destruct (sync_parents_reconciled source_structure dst r
              (_get_parents_from_structure r source_structure) s Hrec)
    as [Hall Hfold].
  rewrite Hall. change (negb true) with false. cbv iota.
  erewrite bind_ok by exact Hfold. cbv beta iota.
  erewrite bind_ok by (by apply publish_subdag_current).
  cbv beta iota. by rewrite union_empty_l_L.
Qed.

(** C4, as the code has it: a successful [xblock_publish] inserts a new
    destination structure and moves the head of the destination branch to
    it, so a second call with the same arguments is not without effect; when
    the destination that the first call left already holds the subtrees as
    the source has them ([already_published]), the second call succeeds and
    its new structure has the blocks and the root of the first, which is
    its [previous_version]. *)
Theorem republish_moves_head_keeps_blocks (fuel : nat) user
    (source_course destination_course : locator)
    (subtree_list blacklist : list string) (s0 s1 : store) p br :
  l_package_id destination_course = Some p →
  l_branch destination_course = Some br →
  l_version_guid destination_course = None →
  (∀ idx, course_indexes s0 !! p = Some idx → ci_id idx = p) →
  xblock_publish fuel user source_course destination_course subtree_list
                 blacklist s0 = (inr tt, s1) →
  ∃ idx0 st1,
    course_indexes s0 !! p = Some idx0
    ∧ course_indexes s1 !! p = Some (with_head idx0 br (next_oid s0))
    ∧ structures s1 !! next_oid s0 = Some st1
    ∧ ∀ env source_structure,
        _lookup_course source_course s1 = (inr env, s1) →
        env_structure env = Some source_structure →
        already_published fuel source_structure (s_blocks st1)
                          subtree_list blacklist = true →
        ∃ s2 st2,
          xblock_publish fuel user source_course destination_course
                         subtree_list blacklist s1 = (inr tt, s2)
          ∧ course_indexes s2 !! p
            = Some (with_head (with_head idx0 br (next_oid s0)) br (next_oid s1))
          ∧ next_oid s1 ≠ next_oid s0
          ∧ structures s2 !! next_oid s1 = Some st2
          ∧ s_blocks st2 = s_blocks st1
          ∧ s_root st2 = s_root st1
          ∧ s_previous_version st2 = Some (next_oid s0)
          ∧ structures s2 !! next_oid s0 = Some st1.
Proof.
  intros Hp Hb Hv Hkeys Hfirst.
  destruct (publish_inv _ _ _ _ _ _ _ _ _ br Hp Hb Hfirst)
    as (idx0 & st1 & Hidx0 & Hi1 & Hs1 & Hid1 & Hn1).
  pose proof (Hkeys _ Hidx0) as Hid0. clear Hkeys. subst p.
  assert (Hidx1 : course_indexes s1 !! ci_id idx0
                  = Some (with_head idx0 br (next_oid s0)))
    by (by rewrite Hi1, lookup_insert_eq).
  assert (Hst1 : structures s1 !! next_oid s0 = Some st1)
    by (by rewrite Hs1, lookup_insert_eq).
  exists idx0, st1. split; [done|]. split; [done|]. split; [done|].
  intros env source_structure Hsrc Henv Hpub.
  assert (Hh1 : ci_versions (with_head idx0 br (next_oid s0)) !! br
                = Some (next_oid s0)) by (simpl; by rewrite lookup_insert_eq).
  set (ds := Structure (next_oid s1) (s_root st1) (Some (s_id st1))
                       (s_original_version st1) user (clock s1) (s_blocks st1)).
  set (s_a := Store (course_indexes s1) (structures s1) (definitions s1)
                    (N.succ (next_oid s1)) (clock s1) (course_cache s1)).
  assert (Hrun : xblock_publish fuel user source_course destination_course
                   subtree_list blacklist s1
                 = (inr tt,
                    set_course_indexes
                      (insert (ci_id idx0)
                              (with_head (with_head idx0 br (next_oid s0)) br
                                         (next_oid s1)))
                      (set_structures (insert (next_oid s1) ds) s_a))).
  { unfold xblock_publish.
    erewrite bind_ok by exact Hsrc. rewrite Henv.
    erewrite bind_ok by (unfold gets; rewrite Hp; simpl; rewrite Hidx1; reflexivity).
    cbv beta iota zeta. rewrite Hb.
    change (Some br ≫= λ b, ci_versions (with_head idx0 br (next_oid s0)) !! b)
      with (ci_versions (with_head idx0 br (next_oid s0)) !! br).
    rewrite Hh1.
    erewrite bind_ok.
    2:{ erewrite bind_ok
          by (eapply (lookup_course_head s1 destination_course); eauto).
        simpl env_structure. rewrite Hst1. reflexivity. }
    fold ds. fold s_a.
    erewrite bind_ok by (by apply republish_fold).
    cbv beta iota.
    rewrite elements_empty. simpl foldM.
    erewrite bind_ok by reflexivity.
    erewrite bind_ok by reflexivity.
    reflexivity. }
  eexists _, ds. split; [exact Hrun|]. simpl.
  rewrite !lookup_insert_eq. split; [done|].
  split; [rewrite Hn1; lia|]. split; [done|]. split; [done|]. split; [done|].
  split; [by rewrite Hid1|].
  rewrite lookup_insert_ne by (rewrite Hn1; lia). done.
Qed.

Lemma republish_witness :
  ∃ s1 s2 st1 st2,
    xblock_publish 10 "publisher" draft_course published_course ["course"] ["b"]
                   unpublished_store = (inr tt, s1)
    ∧ xblock_publish 10 "publisher" draft_course published_course ["course"] ["b"]
                     s1 = (inr tt, s2)
    ∧ structures s1 !! 3%N = Some st1
    ∧ structures s2 !! 4%N = Some st2
    ∧ s_blocks st2 = s_blocks st1
    ∧ s_previous_version st2 = Some 3%N.
Proof.
  set (s1 := (xblock_publish 10 "publisher" draft_course published_course
                ["course"] ["b"] unpublished_store).2).
  assert (Hfirst : xblock_publish 10 "publisher" draft_course published_course
                     ["course"] ["b"] unpublished_store = (inr tt, s1))
    by (vm_compute; reflexivity).
  destruct (republish_moves_head_keeps_blocks 10 "publisher" draft_course
              published_course ["course"] ["b"] unpublished_store s1
              "edu" "published" eq_refl eq_refl eq_refl)
    as (idx0 & st1 & _ & _ & Hst1 & Hsecond); [|exact Hfirst|].
  { intros idx [= <-]. reflexivity. }
  change (next_oid unpublished_store) with 3%N in Hst1.
  assert (Hblocks : s_blocks st1 = s_blocks (default st1 (structures s1 !! 3%N)))
    by (by rewrite Hst1).
  destruct (Hsecond (Envelope (Some "edu") (Some "draft") (structures s1 !! 1%N))
                    (default st1 (structures s1 !! 1%N)))
    as (s2 & st2 & Hrun & _ & _ & Hst2 & Hb & _ & Hprev & _).
  { vm_compute. reflexivity. }
  { vm_compute. reflexivity. }
  { rewrite Hblocks. vm_compute. reflexivity. }
  exists s1, s2, st1, st2.
  split; [exact Hfirst|]. split; [exact Hrun|]. split; [exact Hst1|].
  split; [exact Hst2|]. split; [exact Hb|exact Hprev].
Defined.

(** The second of two identical calls of [xblock_publish] changes the
    destination: the head of [published] moves from structure 3 to a new
    structure 4. *)
Lemma republish_is_not_a_noop :
  ∃ s1 s2,
    xblock_publish 10 "publisher" draft_course published_course ["course"] ["b"]
                   unpublished_store = (inr tt, s1)
    ∧ xblock_publish 10 "publisher" draft_course published_course ["course"] ["b"]
                     s1 = (inr tt, s2)
    ∧ (course_indexes s1 !! "edu" ≫= λ i, ci_versions i !! "published") = Some 3%N
    ∧ (course_indexes s2 !! "edu" ≫= λ i, ci_versions i !! "published") = Some 4%N
    ∧ s2 ≠ s1.
Proof.
  eexists _, _. split; [vm_compute; reflexivity|].
  split; [vm_compute; reflexivity|].
  split; [vm_compute; reflexivity|].
  split; [vm_compute; reflexivity|].
  intros Heq. apply (f_equal next_oid) in Heq. vm_compute in Heq. discriminate.
Qed.

(** Without [already_published] the blocks may change too: publishing [r]
    and [q] from [reclaim_store] updates [r], then reclaims it as an orphan
    of [q]; the second call finds [r] missing and creates it again. *)
Lemma republish_restores_reclaimed_block :
  ∃ s1 s2 st1 st2,
    xblock_publish 10 "publisher" draft_course published_course ["r"; "q"] []
                   reclaim_store = (inr tt, s1)
    ∧ xblock_publish 10 "publisher" draft_course published_course ["r"; "q"] []
                     s1 = (inr tt, s2)
    ∧ structures s1 !! 3%N = Some st1
    ∧ structures s2 !! 4%N = Some st2
    ∧ s_blocks st1 !! "r" = None
    ∧ is_Some (s_blocks st2 !! "r")
    ∧ (structures s1 !! 1%N ≫= λ source,
         Some (already_published 10 source (s_blocks st1) ["r"; "q"] []))
      = Some false.
Proof.
  eexists _, _, _, _. split; [vm_compute; reflexivity|].
  split; [vm_compute; reflexivity|].
  split; [vm_compute; reflexivity|].
  split; [vm_compute; reflexivity|].
  split; [vm_compute; reflexivity|].
  split; [vm_compute; eauto|].
  vm_compute; reflexivity.
Qed.

(** ** Reading an item *)

(** The descriptor that [load_item] makes of a block. *)
Lemma get_item_found (l : locator) (b : BlockId) (s : store) env_p env_b
    (ns : structure) (blk : block) :
  l_block_id l = Some b →
  _lookup_course l s = (inr (Envelope env_p env_b (Some ns)), s) →
  s_blocks ns !! b = Some blk →
  get_item l s
  = (inr (Descriptor (Locator env_p env_b (Some (s_id ns)) (Some b))
            (DefinitionId (b_definition blk))
            (from_option d_fields ∅ (definitions s !! b_definition blk))
            (f_settings (b_fields blk))
            (bool_decide (is_Some (f_children (b_fields blk))))
            (get_children (b_fields blk))),
     set_course_cache (λ c, {[ s_id ns ]} ∪ c) s).
Proof.
  intros Hb Hlook Hblk. unfold get_item. rewrite Hb.
  erewrite bind_ok by exact Hlook.
  unfold _load_items. simpl env_structure.
  erewrite bind_ok.
  2:{ erewrite bind_ok by reflexivity. erewrite bind_ok by reflexivity.
      simpl. unfold load_item, _get_block_from_structure, encode_key_for_mongo.
      rewrite Hblk. reflexivity. }
  reflexivity.
Qed.

(** A locator without a package or without a branch is resolved through its
    [version_guid]. *)
Lemma lookup_course_by_version (l : locator) (v : N) (s : store) :
  l_version_guid l = Some v →
  l_package_id l = None ∨ l_branch l = None →
  _lookup_course l s
  = (inr (Envelope (l_package_id l) (l_branch l) (structures s !! v)), s).
Proof.
  intros Hv Hpb.
  unfold _lookup_course, is_fully_specified, get_structure, gets.
  rewrite Hv. rewrite (bool_decide_eq_true_2 (is_Some (Some v))) by (by eexists).
  rewrite orb_true_r. simpl.
  destruct Hpb as [-> | ->]; [reflexivity|].
  destruct (l_package_id l); reflexivity.
Qed.

(** [has_item] for a block of the head of a branch. *)
Lemma has_item_at_head (package_id : string) (s : store) (p br : string)
    (idx : course_index) (h : N) (st : structure) (b : BlockId) :
  course_indexes s !! p = Some idx → ci_versions idx !! br = Some h →
  structures s !! h = Some st →
  has_item package_id (Locator (Some p) (Some br) None (Some b)) s
  = (inr (bool_decide (is_Some (s_blocks st !! b))), s).
Proof.
  intros Hidx Hh Hst. unfold has_item, try_except_ItemNotFoundError. simpl.
  rewrite bind_unfold.
  rewrite (bind_ok _ _ s (Envelope (Some p) (Some br) (Some st)) s).
  2:{ rewrite <- Hst. by eapply lookup_course_head; [..|by left]. }
  reflexivity.
Qed.

(** ** Block ids *)

Lemma str_inj (m n : nat) : str m = str n → m = n.
Proof.
  intros H. apply (f_equal int) in H. rewrite !int_str in H. congruence.
Qed.

Lemma serial_key_inj (category : string) (m n : nat) :
  category +:+ str m = category +:+ str n → m = n.
Proof. intros H. apply str_inj. by apply (inj (String.app category)) in H. Qed.

(** Among [size m + 1] consecutive serials, one is not a key of [m]. *)
Lemma free_serial_exists (course_blocks : gmap string block) (category : string)
    (start : nat) :
  ∃ k, (start ≤ k < start + S (size course_blocks))%nat
       ∧ course_blocks !! (category +:+ str k) = None.
Proof.
  destruct (decide (Exists (λ k, course_blocks !! (category +:+ str k) = None)
                           (seq start (S (size course_blocks))))) as [Hex|Hno].
  - apply Exists_exists in Hex as (k & Hin & Hk). exists k. split; [|done].
    apply elem_of_seq in Hin. lia.
  - exfalso. apply not_Exists_Forall in Hno; [|intros ?; apply _].
    set (keys := (λ k, category +:+ str k) <$> seq start (S (size course_blocks))).
    assert (Hnd : NoDup keys).
    { apply NoDup_fmap_2; [|apply NoDup_seq].
      intros m n. apply serial_key_inj. }
    assert (Hsub : (list_to_set keys : gset string) ⊆ dom course_blocks).
    { intros x Hx. apply elem_of_list_to_set, list_elem_of_fmap in Hx
        as (k & -> & Hk).
      rewrite Forall_forall in Hno. specialize (Hno k Hk). simpl in Hno.
      apply elem_of_dom. by apply not_eq_None_Some. }
    apply subseteq_size in Hsub.
    rewrite size_list_to_set, size_dom in Hsub by done.
    unfold keys in Hsub. rewrite length_fmap, length_seq in Hsub. lia.
Qed.

Lemma generate_block_id_from_first_free (course_blocks : gmap string block)
    (category : string) (fuel start : nat) :
  (∃ k, (start ≤ k < start + fuel)%nat
        ∧ course_blocks !! (category +:+ str k) = None) →
  ∃ serial, (start ≤ serial)%nat
    ∧ _generate_block_id_from fuel course_blocks category start
      = category +:+ str serial
    ∧ course_blocks !! (category +:+ str serial) = None
    ∧ ∀ m, (start ≤ m < serial)%nat →
        is_Some (course_blocks !! (category +:+ str m)).
Proof.
  revert start. induction fuel as [|fuel IH]; intros start (k & Hk & Hfree).
  - lia.
  - simpl. case_bool_decide as Hused.
    + destruct (decide (k = start)) as [->|Hne].
      { rewrite Hfree in Hused. by destruct Hused. }
      destruct (IH (S start)) as (serial & Hle & Hrun & Hnone & Hbelow).
      { exists k. split; [lia|done]. }
      exists serial. split; [lia|]. split; [done|]. split; [done|].
      intros m Hm. destruct (decide (m = start)) as [->|]; [done|].
      apply Hbelow. lia.
    + exists start. split; [lia|]. split; [done|].
      split; [by apply eq_None_not_Some|]. intros m Hm. lia.
Qed.

(** X1: [_generate_block_id] returns the category followed by the lowest serial
    from 1 on that gives an id no block of the course has. *)
Theorem generate_block_id_lowest_free (course_blocks : gmap string block)
    (category : string) :
  ∃ serial : nat,
    (1 ≤ serial ≤ S (size course_blocks))%nat
    ∧ _generate_block_id course_blocks category = category +:+ str serial
    ∧ course_blocks !! (category +:+ str serial) = None
    ∧ ∀ m, (1 ≤ m < serial)%nat →
        is_Some (course_blocks !! (category +:+ str m)).
Proof.
  unfold _generate_block_id.
  destruct (free_serial_exists course_blocks category 1) as (k & Hk & Hfree).
  destruct (generate_block_id_from_first_free course_blocks category
              (S (size course_blocks)) 1) as (serial & Hle & Hrun & Hnone & Hbelow).
  { by exists k. }
  exists serial. split; [|done]. split; [done|].
  destruct (decide (serial ≤ k)%nat) as [|Hgt]; [lia|].
  assert (Hs : is_Some (course_blocks !! (category +:+ str k))) by (apply Hbelow; lia).
  rewrite Hfree in Hs. by destruct Hs.
Qed.

Lemma generate_block_id_free (course_blocks : gmap string block)
    (category : string) :
  course_blocks !! _generate_block_id course_blocks category = None.
Proof.
  unfold _generate_block_id.
  destruct (free_serial_exists course_blocks category 1) as (k & Hk & Hfree).
  destruct (generate_block_id_from_first_free course_blocks category
              (S (size course_blocks)) 1) as (serial & _ & -> & Hnone & _);
    [by exists k|done].
Qed.

(** ** Comparing settings *)

Lemma compare_settings_false_eq (new_settings : gmap string value)
    (original_fields : block_fields) :
  _compare_settings new_settings original_fields = false →
  new_settings = f_settings original_fields.
Proof.
  unfold _compare_settings. cbv zeta.
  rewrite length_fmap, length_map_to_list.
  case_bool_decide as Hsize; [discriminate|]. intros Hall.
  symmetry. apply map_subseteq_size_eq; [|lia].
  apply map_subseteq_spec. intros k v Hk.
  apply not_true_iff_false in Hall. rewrite existsb_exists in Hall.
  destruct (decide (new_settings !! k = Some v)) as [|Hne]; [done|].
  exfalso. apply Hall. exists k. split.
  - apply list_elem_of_In, list_elem_of_fmap. exists (k, v).
    split; [done|]. by apply elem_of_map_to_list.
  - apply orb_true_iff. right. apply bool_decide_eq_true. congruence.
Qed.

(** X2: [_compare_settings] answers that nothing changed exactly when the new
    settings are the stored fields without ['children']. *)
Theorem compare_settings_false_iff (new_settings : gmap string value)
    (original_fields : block_fields) :
  _compare_settings new_settings original_fields = false
  ↔ new_settings = f_settings original_fields.
Proof.
  split; [apply compare_settings_false_eq|].
  intros ->. destruct original_fields as [m c]. apply compare_settings_same.
Qed.

(** ** Presence of an item *)

Lemma get_item_run (l : locator) (b : BlockId) (s : store) :
  l_block_id l = Some b →
  (get_item l s).1
  = match _lookup_course l s with
    | (inl e, _) => inl e
    | (inr course, _) =>
        match env_structure course with
        | None => inl TypeError
        | Some st =>
            match _get_block_from_structure st b with
            | None => inl ItemNotFoundError
            | Some json_data =>
                inr (Descriptor
                       (Locator (env_package_id course) (env_branch course)
                                (Some (s_id st)) (Some b))
                       (DefinitionId (b_definition json_data))
                       (from_option d_fields ∅ (definitions s !! b_definition json_data))
                       (f_settings (b_fields json_data))
                       (bool_decide (is_Some (f_children (b_fields json_data))))
                       (get_children (b_fields json_data)))
            end
        end
    end.
Proof.
  intros Hb. unfold get_item. rewrite Hb. rewrite bind_unfold.
  destruct (_lookup_course l s) as [[e|course] s1] eqn:Hlook; [reflexivity|].
  apply read_only_run in Hlook as ->; [|apply read_only_lookup_course].
  unfold _load_items. rewrite bind_unfold.
  destruct (env_structure course) as [st|]; [|reflexivity].
  unfold load_item.
  cbv [subscript mbind M_bind ret mret M_ret modify mapM raise].
  destruct (_get_block_from_structure st b); reflexivity.
Qed.

Ltac settle_outcomes :=
  split; [reflexivity|];
  repeat match goal with
         | |- _ ∧ _ => split
         | |- _ ↔ _ => split
         | |- ∀ e : error, _ => intros e
         end;
  intros;
  repeat match goal with
         | H : _ ∧ _ |- _ => destruct H
         | H : ∃ _, _ |- _ => destruct H
         end;
  simplify_eq; try split; try done; eauto.

(** X3: [has_item] only reads; it answers [True] exactly when [get_item] finds
    the item, [False] exactly when [get_item] raises [ItemNotFoundError], and
    raises what [get_item] raises otherwise. *)
Theorem has_item_iff_get_item (package_id : string) (l : locator) (s : store) :
  (has_item package_id l s).2 = s
  ∧ ((has_item package_id l s).1 = inr true ↔ ∃ d, (get_item l s).1 = inr d)
  ∧ ((has_item package_id l s).1 = inr false
     ↔ (get_item l s).1 = inl ItemNotFoundError)
  ∧ (∀ e, (has_item package_id l s).1 = inl e
          ↔ e ≠ ItemNotFoundError ∧ (get_item l s).1 = inl e).
Proof.
  destruct (l_block_id l) as [b|] eqn:Hb.
  2:{ unfold has_item, get_item. rewrite Hb. simpl. settle_outcomes. }
  rewrite (get_item_run l b s Hb).
  unfold has_item. rewrite Hb. rewrite bind_unfold.
  unfold try_except_ItemNotFoundError. rewrite bind_unfold.
  destruct (_lookup_course l s) as [[e|course] s1] eqn:Hlook.
  - apply read_only_run in Hlook as ->; [|apply read_only_lookup_course].
    destruct e; simpl; settle_outcomes.
  - apply read_only_run in Hlook as ->; [|apply read_only_lookup_course].
    simpl. destruct (env_structure course) as [st|]; simpl.
    + destruct (_get_block_from_structure st b) as [blk|] eqn:Hblk; simpl.
      * settle_outcomes.
      * settle_outcomes.
    + settle_outcomes.
Qed.

(** ** The history only grows *)

Lemma extends_refl s : extends s s.
Proof. split; [done|]. split; [done|lia]. Qed.

Lemma extends_trans s1 s2 s3 : extends s1 s2 → extends s2 s3 → extends s1 s3.
Proof.
  intros (H1 & H2 & H3) (H1' & H2' & H3').
  split; [by etrans|]. split; [by etrans|lia].
Qed.

Lemma preserving_read_only {A} (m : M A) : read_only m → preserving m.
Proof.
  intros Hm s Hf. specialize (Hm s). destruct (m s) as [r s']. simpl in *.
  subst s'. split; [done|]. split; [apply extends_refl|auto].
Qed.

Lemma preserving_bind {A B} (m : M A) (k : A → M B) :
  preserving m → (∀ a, preserving (k a)) → preserving (m ≫= k).
Proof.
  intros Hm Hk s Hf. rewrite bind_unfold. destruct (Hm s Hf) as (Hf1 & Hx1 & Hr1).
  destruct (m s) as [[e|a] s1]; simpl in *; [done|].
  destruct (Hk a s1 Hf1) as (Hf2 & Hx2 & Hr2).
  split; [done|]. split; [by eapply extends_trans|]. auto.
Qed.

Lemma preserving_new_ObjectId : preserving new_ObjectId.
Proof.
  intros s [Hs Hd]. simpl. split; [split|split].
  - intros k v Hk. specialize (Hs k v Hk). simpl in *. lia.
  - intros k v Hk. specialize (Hd k v Hk). simpl in *. lia.
  - split; [done|]. split; [done|]. simpl. lia.
  - intros n (Hn & ? & ?). split; [simpl; lia|done].
Qed.

(** A change that leaves structures, definitions and the generator alone. *)
Lemma preserving_modify (f : store → store) :
  (∀ s, structures (f s) = structures s ∧ definitions (f s) = definitions s
        ∧ next_oid (f s) = next_oid s) →
  preserving (modify f).
Proof.
  intros Hf s [Hs Hd]. simpl. destruct (Hf s) as (E1 & E2 & E3).
  unfold ids_fresh, extends, reserved. rewrite E1, E2, E3.
  split; [done|]. split; [|done]. split; [done|]. split; [done|lia].
Qed.

Lemma preserving_foldM {A B} (body : B → A → M B) (l : list A) (acc : B) :
  (∀ acc x, preserving (body acc x)) → preserving (foldM body acc l).
Proof.
  intros Hbody. revert acc. induction l as [|x l IH]; intros acc; simpl.
  - apply preserving_read_only, read_only_ret.
  - apply preserving_bind; [apply Hbody|]. intros acc'. apply IH.
Qed.

Lemma preserving_mapM {A B} (f : A → M B) (l : list A) :
  (∀ x, preserving (f x)) → preserving (mapM f l).
Proof.
  intros Hf. induction l as [|x l IH]; simpl.
  - apply preserving_read_only, read_only_mret.
  - apply preserving_bind; [apply Hf|]. intros y.
    apply preserving_bind; [apply IH|]. intros k.
    apply preserving_read_only, read_only_mret.
Qed.

(** Inserting a definition under an id taken from the generator just
    before. *)
Lemma preserving_insert_new_definition {A} (mk : N → timestamp → definition_doc)
    (k : N → M A) :
  (∀ n t, d_id (mk n t) = n) → (∀ n, preserving (k n)) →
  preserving (new_id ← new_ObjectId; t ← now;
              insert_definition (mk new_id t);; k new_id).
Proof.
  intros Hmk Hk s Hfresh.
  set (s1 := set_definitions (insert (next_oid s) (mk (next_oid s) (clock s)))
               (Store (course_indexes s) (structures s) (definitions s)
                      (N.succ (next_oid s)) (clock s) (course_cache s))).
  assert (Hrun : (new_id ← new_ObjectId; t ← now;
                  insert_definition (mk new_id t);; k new_id) s
                 = k (next_oid s) s1).
  { unfold s1. cbv [mbind M_bind new_ObjectId now gets insert_definition modify].
    by rewrite Hmk. }
  rewrite Hrun. clear Hrun. destruct Hfresh as [Hs Hd].
  assert (Hnone : definitions s !! next_oid s = None).
  { destruct (definitions s !! next_oid s) eqn:E; [|done].
    specialize (Hd _ _ E). simpl in Hd. lia. }
  assert (Hf1 : ids_fresh s1).
  { split.
    - intros i v Hi. specialize (Hs i v Hi). simpl in *. lia.
    - intros i v. simpl. intros [[<- _]|[_ Hi]]%lookup_insert_Some; [lia|].
      specialize (Hd i v Hi). simpl in *. lia. }
  destruct (Hk (next_oid s) s1 Hf1) as (Hf2 & Hx2 & Hr2).
  split; [done|]. split.
  - eapply extends_trans; [|exact Hx2].
    split; [done|]. split; [by apply insert_subseteq|]. simpl. lia.
  - intros n (Hn & ? & ?). apply Hr2. split; [simpl; lia|]. split; [done|].
    simpl. rewrite lookup_insert_ne by lia. done.
Qed.

Lemma preserving_create_definition f category user :
  preserving (create_definition_from_data f category user).
Proof.
  unfold create_definition_from_data. cbv zeta.
  apply (preserving_insert_new_definition
           (λ n t, DefinitionDoc n category (_filter_special_fields f)
                     (DefinitionEditInfo user t None n))
           (λ n, ret (DefinitionId n))); [done|].
  intros n. apply preserving_read_only, read_only_ret.
Qed.

Lemma preserving_update_definition d f user :
  preserving (update_definition_from_data d f user).
Proof.
  unfold update_definition_from_data. cbv zeta.
  apply preserving_bind.
  { apply preserving_read_only. unfold get_definition_by_locator. solve_frame. }
  intros [old|]; [|apply preserving_read_only, read_only_raise].
  destruct d as [|old_id]; [apply preserving_read_only, read_only_raise|].
  destruct (needs_saved _ _); [|apply preserving_read_only, read_only_ret].
  apply (preserving_insert_new_definition
           (λ n t, DefinitionDoc n (d_category old) (_filter_special_fields f)
                     (DefinitionEditInfo user t (Some old_id)
                        (d_original_version (d_edit_info old))))
           (λ n, ret (DefinitionId n, true))); [done|].
  intros n. apply preserving_read_only, read_only_ret.
Qed.

Ltac preserving_step :=
  first
    [ apply preserving_read_only; solve [solve_frame]
    | apply preserving_new_ObjectId
    | apply preserving_create_definition
    | apply preserving_update_definition
    | apply preserving_modify; intros ?; done
    | apply preserving_bind; [|intros ?]
    | apply preserving_foldM; intros ? ?
    | apply preserving_mapM; intros ?
    | match goal with
      | |- preserving (match ?x with _ => _ end) => destruct x
      | |- preserving ((match ?x with _ => _ end) _) => destruct x
      | |- preserving (let _ := _ in _) => cbv zeta
      end ].

Lemma preserving_version_structure st user :
  preserving (_version_structure st user).
Proof. unfold _version_structure. repeat preserving_step. Qed.

Lemma preserving_new_structure user root_block_id root_block :
  preserving (_new_structure user root_block_id root_block).
Proof. unfold _new_structure. repeat preserving_step. Qed.

Lemma preserving_load_items course block_ids :
  preserving (_load_items course block_ids).
Proof. unfold _load_items, load_item. repeat preserving_step. Qed.

Lemma preserving_get_item l : preserving (get_item l).
Proof.
  unfold get_item.
  repeat first [apply preserving_load_items | preserving_step].
Qed.

Lemma preserving_get_course l : preserving (get_course l).
Proof.
  unfold get_course.
  repeat first [apply preserving_load_items | preserving_step].
Qed.

Lemma preserving_update_head idx b new_id : preserving (_update_head idx b new_id).
Proof. unfold _update_head, update_course_index. repeat preserving_step. Qed.

Lemma preserving_clear_cache v : preserving (_clear_cache v).
Proof. unfold _clear_cache. repeat preserving_step. Qed.

Lemma fresh_reserved (s : store) :
  ids_fresh s →
  reserved (next_oid s)
           (Store (course_indexes s) (structures s) (definitions s)
                  (N.succ (next_oid s)) (clock s) (course_cache s)).
Proof.
  intros [Hs Hd]. split; [simpl; lia|]. simpl. split.
  - destruct (structures s !! next_oid s) eqn:E; [|done].
    specialize (Hs _ _ E). simpl in Hs. lia.
  - destruct (definitions s !! next_oid s) eqn:E; [|done].
    specialize (Hd _ _ E). simpl in Hd. lia.
Qed.

Lemma version_structure_reserved st user (s s1 : store) ns :
  ids_fresh s → _version_structure st user s = (inr ns, s1) →
  reserved (s_id ns) s1.
Proof.
  intros Hf. unfold _version_structure. rewrite bind_unfold. simpl.
  destruct st as [st0|]; simpl; [|discriminate].
  intros [= <- <-]. simpl. by apply fresh_reserved.
Qed.

Lemma new_structure_reserved user root_block_id root_block (s s1 : store) ns :
  ids_fresh s → _new_structure user root_block_id root_block s = (inr ns, s1) →
  reserved (s_id ns) s1.
Proof.
  intros Hf. unfold _new_structure. rewrite bind_unfold. simpl.
  destruct root_block as [[[c f] d]|]; simpl;
    intros [= <- <-]; simpl; by apply fresh_reserved.
Qed.

(** *** Stepping through a write *)

Lemma adds_leaf {A} (s0 : store) (m : M A) (s : store) :
  preserving m → ids_fresh s → extends s0 s → adds s0 (m s).
Proof.
  intros Hm Hf Hx. destruct (Hm s Hf) as (Hf1 & Hx1 & _).
  split; [done|]. by eapply extends_trans.
Qed.

Lemma adds_bind {A B} (s0 : store) (m : M A) (k : A → M B) (s : store) :
  preserving m → ids_fresh s → extends s0 s →
  (∀ a s1, m s = (inr a, s1) → ids_fresh s1 → extends s0 s1 →
           (∀ n, reserved n s → reserved n s1) → adds s0 (k a s1)) →
  adds s0 ((m ≫= k) s).
Proof.
  intros Hm Hf Hx Hk. rewrite bind_unfold.
  destruct (Hm s Hf) as (Hf1 & Hx1 & Hr1).
  destruct (m s) as [[e|a] s1] eqn:Hrun; simpl in *.
  - split; [done|]. by eapply extends_trans.
  - apply Hk; [done|done| by eapply extends_trans|done].
Qed.

Lemma adds_insert_structure {B} (s0 : store) (st : structure) (k : unit → M B)
    (s : store) :
  reserved (s_id st) s → ids_fresh s → extends s0 s →
  (∀ s1, ids_fresh s1 → extends s0 s1 →
         (∀ n, n ≠ s_id st → reserved n s → reserved n s1) →
         adds s0 (k tt s1)) →
  adds s0 ((insert_structure st ≫= k) s).
Proof.
  intros (Hn & Hnone & Hdn) [Hs Hd] Hx Hk. rewrite bind_unfold. simpl.
  apply Hk.
  - split; [|done]. intros i v. simpl.
    intros [[<- _]|[_ Hi]]%lookup_insert_Some; [done|]. by apply (Hs i v).
  - eapply extends_trans; [exact Hx|].
    split; [by apply insert_subseteq|]. split; [done|]. simpl. lia.
  - intros n Hne (? & ? & ?). split; [done|]. simpl.
    rewrite lookup_insert_ne by done. done.
Qed.

Lemma adds_insert_definition {B} (s0 : store) (d : definition_doc)
    (k : unit → M B) (s : store) :
  reserved (d_id d) s → ids_fresh s → extends s0 s →
  (∀ s1, ids_fresh s1 → extends s0 s1 →
         (∀ n, n ≠ d_id d → reserved n s → reserved n s1) →
         adds s0 (k tt s1)) →
  adds s0 ((insert_definition d ≫= k) s).
Proof.
  intros (Hn & Hnone & Hdn) [Hs Hd] Hx Hk. rewrite bind_unfold. simpl.
  apply Hk.
  - split; [done|]. intros i v. simpl.
    intros [[<- _]|[_ Hi]]%lookup_insert_Some; [done|]. by apply (Hd i v).
  - eapply extends_trans; [exact Hx|].
    split; [done|]. split; [by apply insert_subseteq|]. simpl. lia.
  - intros n Hne (? & ? & ?). split; [done|]. simpl.
    rewrite lookup_insert_ne by done. done.
Qed.

Ltac solve_preserving :=
  solve [ repeat first
            [ apply preserving_version_structure
            | apply preserving_new_structure
            | apply preserving_load_items
            | apply preserving_get_item
            | apply preserving_get_course
            | apply preserving_update_head
            | apply preserving_clear_cache
            | preserving_step ] ].

(** One step of a write: what is reserved stays reserved. *)
Ltac carry_reserved :=
  repeat match goal with
         | Hres : reserved ?n ?s, Hr : ∀ n, reserved n ?s → reserved n _ |- _ =>
             apply Hr in Hres
         end;
  repeat match goal with
         | Hr : ∀ n, reserved n _ → reserved n _ |- _ => clear Hr
         end.

Ltac adds_bind_step a s1 Hrun :=
  eapply adds_bind;
  [ solve_preserving | assumption | assumption
  | let Hf := fresh "Hf" in let Hx := fresh "Hx" in let Hr := fresh "Hr" in
    intros a s1 Hrun Hf Hx Hr; carry_reserved ].

Ltac adds_insert_step s1 :=
  eapply adds_insert_structure;
  [ simpl; eassumption | assumption | assumption
  | let Hf := fresh "Hf" in let Hx := fresh "Hx" in let Hr := fresh "Hr" in
    intros s1 Hf Hx Hr ].

Ltac adds_done := apply adds_leaf; [solve_preserving|assumption|assumption].

Lemma update_item_adds (d : descriptor) user force (s : store) :
  ids_fresh s → adds s (update_item d user force s).
Proof.
  intros Hf0. pose proof (extends_refl s) as Hx0. unfold update_item.
  adds_bind_step course s1 H1. cbv zeta.
  adds_bind_step ie s2 H2.
  adds_bind_step du s3 H3. destruct du as [ndl upd].
  adds_bind_step os s4 H4.
  adds_bind_step bid s5 H5.
  adds_bind_step u1 s6 H6.
  adds_bind_step u2 s7 H7.
  clear H1 H2 H3 H4 H5 H6 H7.
  destruct u2; [|adds_done].
  adds_bind_step ns s8 H8.
  eapply version_structure_reserved in H8; [|eassumption].
  adds_bind_step bd s9 H9.
  adds_bind_step di s10 H10.
  adds_bind_step t s11 H11.
  adds_insert_step s12.
  adds_done.
Qed.

Lemma delete_item_adds (fuel : nat) (l : locator) user delete_children force
    (s : store) :
  ids_fresh s → adds s (delete_item fuel l user delete_children force s).
Proof.
  intros Hf0. pose proof (extends_refl s) as Hx0. unfold delete_item.
  destruct (l_block_id l) as [block_id|]; [|adds_done].
  adds_bind_step course s1 H1. cbv zeta.
  adds_bind_step os s2 H2.
  case_bool_decide; [adds_done|].
  adds_bind_step ie s3 H3.
  clear H1 H2 H3.
  adds_bind_step ns s4 H4.
  eapply version_structure_reserved in H4; [|eassumption].
  adds_bind_step ps s5 H5.
  adds_bind_step nb s6 H6.
  adds_bind_step nb' s7 H7.
  adds_insert_step s8.
  adds_done.
Qed.

Lemma create_item_adds (l : locator) category user block_id definition_locator
    fields force (s : store) :
  ids_fresh s →
  adds s (create_item l category user block_id definition_locator fields
                      force false s).
Proof.
  intros Hf0. pose proof (extends_refl s) as Hx0. unfold create_item.
  adds_bind_step ie s1 H1.
  adds_bind_step course s2 H2. cbv zeta.
  adds_bind_step dl s3 H3.
  clear H1 H2 H3.
  adds_bind_step ns s4 H4.
  eapply version_structure_reserved in H4; [|eassumption].
  adds_bind_step nbid s5 H5.
  adds_bind_step di s6 H6.
  adds_bind_step t s7 H7.
  adds_bind_step ns' s8 H8.
  assert (Hid : s_id ns' = s_id ns).
  { clear -H8. destruct (l_block_id l).
    - inv_bind H8 parent s_1 H1. inv_bind H8 t' s_2 H2.
      by injection H8 as <- _.
    - by injection H8 as <- _. }
  rewrite <- Hid in *.
  adds_insert_step s9.
  adds_done.
Qed.

Lemma xblock_publish_adds (fuel : nat) user (source_course destination_course : locator)
    (subtree_list blacklist : list string) (s : store) :
  ids_fresh s →
  adds s (xblock_publish fuel user source_course destination_course
                         subtree_list blacklist s).
Proof.
  intros Hf0. pose proof (extends_refl s) as Hx0. unfold xblock_publish.
  adds_bind_step source s1 H1. cbv zeta.
  adds_bind_step ie s2 H2.
  destruct ie as [index_entry|]; [|adds_done].
  clear H1 H2.
  adds_bind_step ds s3 H3.
  assert (Hres : reserved (s_id ds) s3).
  { destruct (l_branch destination_course ≫= _).
    - inv_bind H3 dst s_1 H1. pose proof H1 as H1'.
      apply read_only_run in H1' as ->; [|solve_frame].
      eapply version_structure_reserved in H3; done.
    - inv_bind H3 src s_1 H1. pose proof H1 as H1'.
      apply read_only_run in H1' as ->; [|solve_frame].
      case_bool_decide; [discriminate|].
      eapply new_structure_reserved in H3; done. }
  clear H3.
  adds_bind_step ob s4 H4. destruct ob as [orphans destination_blocks].
  adds_bind_step ds' s5 H5.
  apply delete_orphans_keeps in H5 as (Hid & _ & _). simpl in Hid.
  rewrite <- Hid in *.
  adds_insert_step s6.
  adds_done.
Qed.

Lemma adds_bind_run {A B} (s0 : store) (m : M A) (k : A → M B) (s : store) :
  extends s0 s → adds s (m s) →
  (∀ a s1, m s = (inr a, s1) → ids_fresh s1 → extends s0 s1 → adds s0 (k a s1)) →
  adds s0 ((m ≫= k) s).
Proof.
  intros Hx [Hf1 Hx1] Hk. rewrite bind_unfold.
  destruct (m s) as [[e|a] s1] eqn:Hrun; simpl in *.
  - split; [done|]. by eapply extends_trans.
  - apply Hk; [done|done|by eapply extends_trans].
Qed.

Lemma create_course_adds org prettyid user id_root fields master_branch
    versions_dict root_category root_block_id (s : store) :
  ids_fresh s →
  adds s (create_course org prettyid user id_root fields master_branch
                        versions_dict root_category root_block_id s).
Proof.
  intros Hf0. pose proof (extends_refl s) as Hx0. unfold create_course.
  cbv zeta.
  apply adds_bind_run; [assumption| |].
  2:{ intros vd s1 _ Hf1 Hx1.
      adds_bind_step g s2 H2.
      adds_bind_step t s3 H3.
      eapply adds_bind; [|assumption|assumption|].
      { unfold insert_course_index. solve_preserving. }
      intros. adds_done. }
  destruct (versions_dict ≫= _) as [draft_version|].
  - adds_bind_step course s1 H1.
    destruct (_ || _); [|adds_done].
    adds_bind_step ns s2 H2.
    eapply version_structure_reserved in H2; [|eassumption].
    adds_bind_step rb s3 H3.
    adds_bind_step df s4 H4.
    adds_bind_step df' s5 H5.
    adds_bind_step t s6 H6.
    eapply adds_bind; [solve_preserving|assumption|assumption|].
    intros nd s7 H7 Hf7 Hx7 Hr7.
    assert (Hnd : reserved nd s7 ∧ nd ≠ s_id ns).
    { injection H7 as <- <-. split; [by apply fresh_reserved|].
      destruct H2 as (Hlt & _). lia. }
    destruct Hnd as [Hnd Hne]. carry_reserved.
    eapply adds_insert_definition; [simpl; eassumption|assumption|assumption|].
    intros s8 Hf8 Hx8 Hr8. apply Hr8 in H2; [|simpl; done].
    adds_insert_step s9.
    adds_done.
  - eapply adds_bind; [solve_preserving|assumption|assumption|].
    intros nd s1 H1 Hf1 Hx1 Hr1.
    assert (Hnd : reserved nd s1).
    { injection H1 as <- <-. by apply fresh_reserved. }
    adds_bind_step t s2 H2.
    eapply adds_insert_definition; [simpl; eassumption|assumption|assumption|].
    intros s3 Hf3 Hx3 Hr3.
    adds_bind_step ns s4 H4.
    eapply new_structure_reserved in H4; [|eassumption].
    adds_insert_step s5.
    adds_done.
Qed.

(** X4: [create_item] without [continue_version], [update_item], [delete_item],
    [xblock_publish] and [create_course] only add to the history: whatever
    the outcome, every structure and every definition that was stored is
    still stored, unchanged, and the ids in use are still ids that the
    generator handed out. *)
Theorem writes_only_add_versions (s : store) :
  ids_fresh s →
  (∀ l category user block_id definition_locator fields force,
     adds s (create_item l category user block_id definition_locator fields
                         force false s))
  ∧ (∀ d user force, adds s (update_item d user force s))
  ∧ (∀ fuel l user delete_children force,
       adds s (delete_item fuel l user delete_children force s))
  ∧ (∀ fuel user source_course destination_course subtree_list blacklist,
       adds s (xblock_publish fuel user source_course destination_course
                              subtree_list blacklist s))
  ∧ (∀ org prettyid user id_root fields master_branch versions_dict
       root_category root_block_id,
       adds s (create_course org prettyid user id_root fields master_branch
                             versions_dict root_category root_block_id s)).
Proof.
  intros Hf. split; [|split; [|split; [|split]]]; intros.
  - by apply create_item_adds.
  - by apply update_item_adds.
  - by apply delete_item_adds.
  - by apply xblock_publish_adds.
  - by apply create_course_adds.
Qed.

Lemma writes_only_add_versions_witness :
  ids_fresh forked_store
  ∧ adds forked_store
         (delete_item 10 chapter_locator "editor" false false forked_store).
Proof.
  assert (Hf : ids_fresh forked_store) by by_decide.
  split; [exact Hf|]. apply (writes_only_add_versions forked_store Hf).
Defined.

(** ** Direct successors *)

(** X5: With [version_history_depth] 1, [get_course_successors] maps the version
    to the locators of the structures that have it as [previous_version],
    once each, and to nothing else; a depth below 1 gives [None]. The store
    is only read. *)
Theorem course_successors_depth_one (l : locator) (v : N) (s : store) :
  l_version_guid l = Some v →
  (∀ k st, structures s !! k = Some st → s_id st = k) →
  get_course_successors l 0 s = (inr None, s)
  ∧ ∃ successors,
      get_course_successors l 1 s
      = (inr (Some (MkVersionTree
                      (CourseLocator (l_package_id l) (l_branch l) (Some v))
                      {[ v := successors ]})), s)
      ∧ NoDup successors
      ∧ ∀ loc, loc ∈ successors
               ↔ ∃ k st, loc = CourseLocator None None (Some k)
                         ∧ structures s !! k = Some st
                         ∧ s_previous_version st = Some v.
Proof.
  intros Hv Hkeys. split; [reflexivity|].
  unfold get_course_successors. rewrite Hv. simpl.
  eexists. split; [reflexivity|]. split.
  - apply NoDup_fmap_2_strong.
    + intros st1 st2 Hin1 Hin2 [= Heq].
      apply list_elem_of_filter in Hin1 as [_ Hin1].
      apply list_elem_of_filter in Hin2 as [_ Hin2].
      apply list_elem_of_fmap in Hin1 as ([k1 st1'] & -> & Hin1).
      apply list_elem_of_fmap in Hin2 as ([k2 st2'] & -> & Hin2).
      apply elem_of_map_to_list in Hin1, Hin2. simpl in *.
      pose proof (Hkeys _ _ Hin1). pose proof (Hkeys _ _ Hin2). congruence.
    + apply NoDup_filter, NoDup_fmap_2_strong; [|apply NoDup_map_to_list].
      intros [k1 st1] [k2 st2] Hin1 Hin2. simpl. intros <-.
      apply elem_of_map_to_list in Hin1, Hin2.
      pose proof (Hkeys _ _ Hin1). pose proof (Hkeys _ _ Hin2). congruence.
  - intros loc. rewrite list_elem_of_fmap. split.
    + intros (st & -> & Hin). apply list_elem_of_filter in Hin as [Hprev Hin].
      apply list_elem_of_fmap in Hin as ([k st'] & -> & Hin).
      apply elem_of_map_to_list in Hin. simpl in *.
      exists k, st'. rewrite (Hkeys _ _ Hin). split; [done|]. split; [done|].
      unfold has_previous_in in Hprev.
      destruct (s_previous_version st') as [p|]; [|discriminate].
      apply bool_decide_eq_true in Hprev. apply list_elem_of_singleton in Hprev.
      by subst.
    + intros (k & st & -> & Hst & Hprev). exists st.
      rewrite (Hkeys _ _ Hst). split; [done|].
      apply list_elem_of_filter. split.
      * unfold has_previous_in. rewrite Hprev. apply bool_decide_eq_true.
        by apply list_elem_of_singleton.
      * apply list_elem_of_fmap. exists (k, st). split; [done|].
        by apply elem_of_map_to_list.
Qed.

Lemma course_successors_depth_one_witness :
  get_course_successors (version_locator 1) 0 history_store
  = (inr None, history_store)
  ∧ ∃ successors,
      get_course_successors (version_locator 1) 1 history_store
      = (inr (Some (MkVersionTree (CourseLocator None None (Some 1%N))
                                  {[ 1%N := successors ]})), history_store)
      ∧ NoDup successors
      ∧ ∀ loc, loc ∈ successors
               ↔ ∃ k st, loc = CourseLocator None None (Some k)
                         ∧ structures history_store !! k = Some st
                         ∧ s_previous_version st = Some 1%N.
Proof.
  apply (course_successors_depth_one (version_locator 1) 1 history_store);
    [reflexivity|].
  intros k st Hk.
  apply (map_Forall_lookup_1 (λ k st, s_id st = k) (structures history_store));
    [by_decide|exact Hk].
Defined.

(** ** Removing a course and restoring it *)

(** X6: [delete_course] raises [ItemNotFoundError] for a course that has no
    index. Otherwise it removes the index and nothing else: structures and
    definitions stay, the course is no longer found through its package id,
    and its versions are still found through their ids. *)
Theorem delete_course_keeps_data (p : string) (s : store) :
  (course_indexes s !! p = None →
   delete_course p s = (inl ItemNotFoundError, s))
  ∧ (∀ idx, course_indexes s !! p = Some idx → ci_id idx = p →
       ∃ s', delete_course p s = (inr tt, s')
             ∧ course_indexes s' = delete p (course_indexes s)
             ∧ structures s' = structures s
             ∧ definitions s' = definitions s
             ∧ (∀ br v b,
                  _lookup_course (Locator (Some p) (Some br) v b) s'
                  = (inl ItemNotFoundError, s'))
             ∧ (∀ br h, ci_versions idx !! br = Some h →
                  _lookup_course (CourseLocator None None (Some h)) s'
                  = (inr (Envelope None None (structures s !! h)), s'))
             ∧ delete_course p s' = (inl ItemNotFoundError, s')).
Proof.
  split.
  - intros Hnone. unfold delete_course, get_course_index, gets.
    rewrite bind_unfold. by rewrite Hnone.
  - intros idx Hidx Hid. eexists. split.
    { unfold delete_course, get_course_index, gets. rewrite bind_unfold.
      rewrite Hidx, Hid. reflexivity. }
    simpl. split; [done|]. split; [done|]. split; [done|]. split; [|split].
    + intros br v b.
      unfold _lookup_course, is_fully_specified, get_course_index, gets.
      simpl. rewrite bind_unfold, bind_unfold. simpl.
      by rewrite lookup_delete_eq.
    + intros br h Hh. reflexivity.
    + unfold delete_course, get_course_index, gets. rewrite bind_unfold.
      simpl. by rewrite lookup_delete_eq.
Qed.

Lemma generate_package_id_free (id_root : string) (s : store) :
  (∀ q, is_Some (course_indexes s !! q) → re_search id_root q = false) →
  (∀ q idx, course_indexes s !! q = Some idx → ci_id idx = q) →
  _generate_package_id id_root s = (inr id_root, s).
Proof.
  intros Hfree Hkeys. unfold _generate_package_id, find_course_indexes_by_id, gets.
  rewrite bind_unfold.
  rewrite filter_none; [reflexivity|].
  intros idx Hin. apply list_elem_of_fmap in Hin as ([q idx'] & -> & Hin).
  apply elem_of_map_to_list in Hin. simpl.
  rewrite (Hkeys _ _ Hin). rewrite Hfree by eauto. done.
Qed.

(** X7: For a package id without special characters of regular expressions
    that occurs in no other package id: after [delete_course],
    [create_course] with the id of the course as [id_root] and its
    [versions] restores the course under the same id, with the same heads:
    no structure and no definition is written. The index records the
    restoring user and time. *)
Theorem delete_then_create_restores (p : string) (s : store) idx master h st
    root_blk org prettyid user root_category root_block_id :
  regex_literal p = true →
  course_indexes s !! p = Some idx →
  (∀ q i, course_indexes s !! q = Some i → ci_id i = q) →
  (∀ q, is_Some (course_indexes s !! q) → q ≠ p → ¬ occurs_in p q) →
  ci_versions idx !! master = Some h →
  structures s !! h = Some st →
  s_blocks st !! s_root st = Some root_blk →
  ∃ s1 d s2,
    delete_course p s = (inr tt, s1)
    ∧ create_course org prettyid user (Some p) None master
                    (Some (ci_versions idx)) root_category root_block_id s1
      = (inr d, s2)
    ∧ course_indexes s2
      = <[p := CourseIndex p org prettyid user (clock s) (ci_versions idx)]>
          (course_indexes s)
    ∧ structures s2 = structures s
    ∧ definitions s2 = definitions s
    ∧ x_location d
      = Locator (Some p) (Some master) (Some (s_id st)) (Some (s_root st)).
Proof.
  intros _ Hidx Hkeys Hfree Hh Hst Hroot.
  pose proof (Hkeys _ _ Hidx) as Hid.
  eexists _, _, _. split.
  { unfold delete_course, get_course_index, gets. rewrite bind_unfold.
    rewrite Hidx, Hid. reflexivity. }
  set (s1 := set_course_indexes (delete p) s).
  assert (Hgen : _generate_package_id p s1 = (inr p, s1)).
  { apply generate_package_id_free.
    - intros q [i Hq]. simpl in Hq.
      apply lookup_delete_Some in Hq as [Hne Hq].
      destruct (re_search p q) eqn:Hsearch; [|done].
      apply re_search_occurs in Hsearch. exfalso. by apply (Hfree q); eauto.
    - intros q i Hq. simpl in Hq.
      apply lookup_delete_Some in Hq as [Hne Hq]. eauto. }
  split.
  { unfold create_course. cbv zeta. simpl.
    rewrite Hh.
    erewrite bind_ok.
    2:{ erewrite bind_ok by reflexivity. simpl.
        rewrite filter_special_fields_id by done.
        rewrite bool_decide_eq_false_2 by (intros H; by apply H).
        reflexivity. }
    erewrite bind_ok by exact Hgen.
    erewrite bind_ok by reflexivity.
    erewrite bind_ok by reflexivity.
    unfold get_course.
    erewrite bind_ok.
    2:{ unfold _lookup_course, is_fully_specified, get_course_index, gets.
        simpl. rewrite bind_unfold, bind_unfold. simpl.
        rewrite lookup_insert_eq. simpl. rewrite Hh. reflexivity. }
    simpl. rewrite Hst.
    erewrite bind_ok by reflexivity.
    erewrite bind_ok.
    2:{ unfold _load_items. simpl. erewrite bind_ok by reflexivity.
        erewrite bind_ok by reflexivity. simpl.
        unfold load_item, _get_block_from_structure, encode_key_for_mongo.
        rewrite Hroot. reflexivity. }
    reflexivity. }
  simpl. split; [by rewrite insert_delete_eq|]. done.
Qed.

Lemma delete_course_keeps_data_witness :
  ∃ s', delete_course "edu" forked_store = (inr tt, s')
        ∧ structures s' = structures forked_store
        ∧ definitions s' = definitions forked_store
        ∧ delete_course "edu" s' = (inl ItemNotFoundError, s').
Proof.
  destruct (proj2 (delete_course_keeps_data "edu" forked_store)
                  (course_of [("draft", 2%N)]) eq_refl eq_refl)
    as (s' & Hrun & _ & Hs & Hd & _ & _ & Hagain).
  exists s'. split; [exact Hrun|]. split; [exact Hs|]. split; [exact Hd|].
  exact Hagain.
Defined.

Lemma delete_then_create_restores_witness :
  ∃ s1 d s2,
    delete_course "edu" forked_store = (inr tt, s1)
    ∧ create_course "edu" "Education" "editor" (Some "edu") None "draft"
                    (Some (ci_versions (course_of [("draft", 2%N)])))
                    "course" "course" s1
      = (inr d, s2)
    ∧ course_indexes s2
      = <["edu" := CourseIndex "edu" "edu" "Education" "editor"
                               (clock forked_store)
                               (ci_versions (course_of [("draft", 2%N)]))]>
          (course_indexes forked_store)
    ∧ structures s2 = structures forked_store
    ∧ definitions s2 = definitions forked_store
    ∧ x_location d
      = Locator (Some "edu") (Some "draft") (Some (s_id forked_head))
                (Some (s_root forked_head)).
Proof.
  apply (delete_then_create_restores "edu" forked_store
           (course_of [("draft", 2%N)]) "draft" 2 forked_head
           (leaf "course" 10 2 ["chapter1"]));
    try reflexivity.
  - intros q i Hq. simpl in Hq.
    apply lookup_singleton_Some in Hq as [<- <-]. reflexivity.
  - intros q [i Hq] Hne. simpl in Hq.
    apply lookup_singleton_Some in Hq as [<- _]. done.
Defined.

(** ** Courses and branches that do not exist *)

Lemma lookup_course_unknown (l : locator) p br (s : store) :
  l_package_id l = Some p → l_branch l = Some br →
  (course_indexes s !! p ≫= λ idx, ci_versions idx !! br) = None →
  _lookup_course l s = (inl ItemNotFoundError, s).
Proof.
  intros Hp Hb Hnone.
  unfold _lookup_course, is_fully_specified, get_course_index, gets.
  rewrite Hp, Hb. simpl. rewrite bind_unfold, bind_unfold. simpl.
  destruct (course_indexes s !! p) as [idx|]; [|done]. simpl in Hnone.
  by rewrite Hnone.
Qed.

(** X8: A locator that names a package and a branch of which the index knows
    nothing: every operation that resolves it raises [ItemNotFoundError] and
    leaves the store as it is, and [has_item] answers [False].
    [create_item] checks the index first: it does the same when the locator
    has no [version_guid], and otherwise fails with [TypeError] (no index) or
    [KeyError] (no such branch), the store still as it is. *)
Theorem unknown_course_not_found (l : locator) (p br : string) (s : store) :
  l_package_id l = Some p → l_branch l = Some br →
  (course_indexes s !! p ≫= λ idx, ci_versions idx !! br) = None →
  get_course l s = (inl ItemNotFoundError, s)
  ∧ get_course_history_info l s = (inl ItemNotFoundError, s)
  ∧ (is_Some (l_block_id l) →
       get_item l s = (inl ItemNotFoundError, s)
       ∧ (∀ package_id, has_item package_id l s = (inr false, s))
       ∧ get_parent_locations l s = (inl ItemNotFoundError, s)
       ∧ ∀ fuel user delete_children force,
           delete_item fuel l user delete_children force s
           = (inl ItemNotFoundError, s))
  ∧ (∀ d user force, x_location d = l →
       update_item d user force s = (inl ItemNotFoundError, s))
  ∧ (∀ category user block_id definition_locator fields force continue_version,
       create_item l category user block_id definition_locator fields force
                   continue_version s
       = (inl (match l_version_guid l, course_indexes s !! p with
               | None, _ => ItemNotFoundError
               | Some _, None => TypeError
               | Some _, Some _ => KeyError
               end), s)).
Proof.
  intros Hp Hb Hnone.
  pose proof (lookup_course_unknown l p br s Hp Hb Hnone) as Hlook.
  split; [unfold get_course; by erewrite bind_err|].
  split; [unfold get_course_history_info; by erewrite bind_err|].
  split; [|split].
  - intros [b Hblk]. split; [|split; [|split]].
    + unfold get_item. rewrite Hblk. by erewrite bind_err.
    + intros package_id. unfold has_item. rewrite Hblk.
      unfold try_except_ItemNotFoundError. rewrite bind_unfold, bind_unfold.
      by rewrite Hlook.
    + unfold get_parent_locations. by erewrite bind_err.
    + intros. unfold delete_item. rewrite Hblk. by erewrite bind_err.
  - intros d user force <-. unfold update_item. by erewrite bind_err.
  - intros. unfold create_item.
    destruct (l_version_guid l) as [v|] eqn:Hv.
    + erewrite bind_err; [reflexivity|].
      unfold _get_index_if_valid, get_course_index, gets, subscript, getitem.
      rewrite Hp, Hb, Hv.
      cbv [mbind M_bind ret mret M_ret raise].
      destruct (course_indexes s !! p) as [idx|]; [|done].
      simpl in Hnone. by rewrite Hnone.
    + erewrite bind_ok; [by erewrite bind_err|].
      unfold _get_index_if_valid, get_course_index, gets.
      rewrite Hp, Hb, Hv. reflexivity.
Qed.

Lemma unknown_course_not_found_witness :
  get_course unknown_block forked_store = (inl ItemNotFoundError, forked_store)
  ∧ get_item unknown_block forked_store = (inl ItemNotFoundError, forked_store)
  ∧ has_item "nope" unknown_block forked_store = (inr false, forked_store)
  ∧ delete_item 10 unknown_block "editor" false false forked_store
    = (inl ItemNotFoundError, forked_store).
Proof.
  destruct (unknown_course_not_found unknown_block "nope" "draft" forked_store
              eq_refl eq_refl eq_refl)
    as (Hcourse & _ & Hblock & _).
  destruct (Hblock (ex_intro _ "course" eq_refl))
    as (Hitem & Hhas & _ & Hdelete).
  split; [exact Hcourse|]. split; [exact Hitem|]. split; [apply Hhas|].
  apply Hdelete.
Defined.

(** ** Creating an item *)

(** X9: [create_item] at the head of a branch, for a block with a new
    definition: the definition is stored under a new id, and a new structure
    that follows the head becomes the head. It holds the new block, under the
    id given (which must be free) or the one generated, the parent named by
    the locator with the new block as its last child, and every other block
    as it was. The item returned is the new block as it is read back from
    the new structure, with the content, the settings and the children that
    were given. *)
Theorem create_item_appends_block (s : store) (l : locator) p br idx h st
    category user block_id definition_locator fields force :
  l_package_id l = Some p → l_branch l = Some br →
  (l_version_guid l = None ∨ l_version_guid l = Some h) →
  course_indexes s !! p = Some idx → ci_id idx = p →
  ci_versions idx !! br = Some h →
  structures s !! h = Some st →
  (∀ parent, l_block_id l = Some parent → is_Some (s_blocks st !! parent)) →
  (∀ b, block_id = Some b → s_blocks st !! b = None) →
  (definition_locator = None ∨ definition_locator = Some LocalId) →
  let partitioned := default no_fields fields in
  let new_definition := next_oid s in
  let new_id := N.succ (next_oid s) in
  let b := default (_generate_block_id (s_blocks st) category) block_id in
  ∃ d s' new_st,
    create_item l category user block_id definition_locator fields force false s
    = (inr d, s')
    ∧ l_version_guid (x_location d) = Some new_id
    ∧ l_block_id (x_location d) = Some b
    ∧ x_content_fields d = _filter_special_fields (scope_content partitioned)
    ∧ x_settings_fields d = scope_settings partitioned
    ∧ x_children d = default [] (scope_children partitioned)
    ∧ definitions s'
      = <[new_definition :=
            DefinitionDoc new_definition category
              (_filter_special_fields (scope_content partitioned))
              (DefinitionEditInfo user (clock s) None new_definition)]>
          (definitions s)
    ∧ structures s' = <[new_id := new_st]> (structures s)
    ∧ course_indexes s' = <[p := with_head idx br new_id]> (course_indexes s)
    ∧ s_id new_st = new_id
    ∧ s_previous_version new_st = Some (s_id st)
    ∧ s_original_version new_st = s_original_version st
    ∧ s_root new_st = s_root st
    ∧ s_edited_by new_st = user
    ∧ s_blocks st !! b = None
    ∧ s_blocks new_st !! b
      = Some (Block category new_definition
                (BlockFields (scope_settings partitioned)
                             (scope_children partitioned))
                (BlockEditInfo (clock s) user None new_id))
    ∧ (∀ parent pb, l_block_id l = Some parent →
         s_blocks st !! parent = Some pb →
         s_blocks new_st !! parent
         = Some (bump_edit_info user (clock s) new_id
                   (set_fields
                      (set_children (get_children (b_fields pb) ++ [b])) pb)))
    ∧ (∀ k, k ≠ b → l_block_id l ≠ Some k →
         s_blocks new_st !! k = s_blocks st !! k).
Proof.
  intros Hp Hb Hv Hidx Hid Hh Hst Hparent Hfree Hdl partitioned new_definition
    new_id b.
  assert (Hb_free : s_blocks st !! b = None).
  { unfold b. destruct block_id as [b0|]; simpl; [by apply Hfree|].
    apply generate_block_id_free. }
  unfold create_item.
  erewrite bind_ok by (eapply get_index_if_valid_head; eauto).
  erewrite bind_ok by (eapply lookup_course_head; eauto).
  cbv zeta. simpl env_structure. rewrite Hst.
  erewrite bind_ok by (destruct Hdl as [-> | ->]; reflexivity).
  erewrite bind_ok by reflexivity.
  simpl s_blocks. simpl s_id.
  erewrite (bind_ok _ _ _ b).
  2:{ unfold b.
      destruct block_id as [b0|]; simpl; [|reflexivity].
      unfold encode_key_for_mongo.
      rewrite bool_decide_eq_false_2; [reflexivity|].
      rewrite (Hfree b0 eq_refl). by intros [? ?]. }
  erewrite bind_ok by reflexivity.
  erewrite bind_ok by reflexivity.
  unfold _update_block_in_structure, encode_key_for_mongo. simpl.
  fold new_definition new_id partitioned.
  set (new_block := Block category new_definition
                      (BlockFields (scope_settings partitioned)
                                   (scope_children partitioned))
                      (BlockEditInfo (clock s) user None (N.succ new_definition))).
  assert (Hitem : ∀ (s1 : store) (ns : structure) (doc : definition_doc),
            structures s1 !! N.succ new_definition = Some ns →
            s_id ns = N.succ new_definition →
            s_blocks ns !! b = Some new_block →
            definitions s1 !! new_definition = Some doc →
            ∃ d s2, get_item (Locator (Some p) None (Some (N.succ new_definition))
                                      (Some b)) s1 = (inr d, s2)
                    ∧ l_version_guid (x_location d) = Some new_id
                    ∧ l_block_id (x_location d) = Some b
                    ∧ x_content_fields d = d_fields doc
                    ∧ x_settings_fields d = scope_settings partitioned
                    ∧ x_children d = default [] (scope_children partitioned)
                    ∧ definitions s2 = definitions s1
                    ∧ structures s2 = structures s1
                    ∧ course_indexes s2 = course_indexes s1).
  { intros s1 ns doc Hns Hnsid Hblk Hdoc. eexists _, _. split.
    - eapply get_item_found; [done| |exact Hblk].
      rewrite (lookup_course_by_version _ (N.succ new_definition)) by auto.
      simpl. by rewrite Hns.
    - simpl. rewrite Hnsid, Hdoc. done. }
  destruct (l_block_id l) as [parent|] eqn:Hpar.
  - destruct (Hparent parent eq_refl) as [pb Hpb].
    assert (Hne : b ≠ parent) by congruence.
    rewrite lookup_insert_ne by done. rewrite Hpb.
    erewrite bind_ok.
    2:{ erewrite bind_ok by reflexivity. erewrite bind_ok by reflexivity.
        reflexivity. }
    erewrite bind_ok by reflexivity.
    rewrite Hb, Hp.
    erewrite bind_ok by reflexivity.
    match goal with
    | |- context [get_item ?loc ?s1] =>
        edestruct (Hitem s1)
          as (d & s2 & Hget & Hdv & Hdb & Hdc & Hds & Hdch & Hd2 & Hs2 & Hi2)
    end.
    { simpl. by rewrite lookup_insert_eq. }
    { done. }
    { simpl. rewrite lookup_insert_ne by done. by rewrite lookup_insert_eq. }
    { simpl. by rewrite lookup_insert_eq. }
    eexists d, s2, _. split; [exact Hget|].
    split; [done|]. split; [done|].
    split; [exact Hdc|]. split; [exact Hds|]. split; [exact Hdch|].
    rewrite Hd2, Hs2, Hi2. unfold with_head. simpl. rewrite !Hid.
    split; [done|]. split; [reflexivity|]. split; [done|].
    simpl. split; [done|]. split; [done|]. split; [done|]. split; [done|].
    split; [done|]. split; [done|].
    split; [rewrite lookup_insert_ne by done; by rewrite lookup_insert_eq|].
    split.
    + intros parent' pb' [= <-]. rewrite Hpb. intros [= <-].
      by rewrite lookup_insert_eq.
    + intros k Hkb Hkp. rewrite lookup_insert_ne by congruence.
      by rewrite lookup_insert_ne.
  - erewrite bind_ok by reflexivity.
    erewrite bind_ok by reflexivity.
    rewrite Hb, Hp.
    erewrite bind_ok by reflexivity.
    match goal with
    | |- context [get_item ?loc ?s1] =>
        edestruct (Hitem s1)
          as (d & s2 & Hget & Hdv & Hdb & Hdc & Hds & Hdch & Hd2 & Hs2 & Hi2)
    end.
    { simpl. by rewrite lookup_insert_eq. }
    { done. }
    { simpl. by rewrite lookup_insert_eq. }
    { simpl. by rewrite lookup_insert_eq. }
    eexists d, s2, _. split; [exact Hget|].
    split; [done|]. split; [done|].
    split; [exact Hdc|]. split; [exact Hds|]. split; [exact Hdch|].
    rewrite Hd2, Hs2, Hi2. unfold with_head. simpl. rewrite !Hid.
    split; [done|]. split; [reflexivity|]. split; [done|].
    simpl. split; [done|]. split; [done|]. split; [done|]. split; [done|].
    split; [done|]. split; [done|].
    split; [by rewrite lookup_insert_eq|].
    split; [done|].
    intros k Hkb _. by rewrite lookup_insert_ne.
Qed.

(** X10: [create_item] with a block id that the head structure already has raises
    [DuplicateItemError]: no structure is written and the head stays, but
    the new definition, which is stored before the id is checked, is left
    in the definitions. *)
Theorem create_item_duplicate (s : store) (l : locator) p br idx h st
    category user b definition_locator fields force :
  l_package_id l = Some p → l_branch l = Some br →
  (l_version_guid l = None ∨ l_version_guid l = Some h) →
  course_indexes s !! p = Some idx →
  ci_versions idx !! br = Some h →
  structures s !! h = Some st →
  is_Some (s_blocks st !! b) →
  (definition_locator = None ∨ definition_locator = Some LocalId) →
  ∃ s',
    create_item l category user (Some b) definition_locator fields force false s
    = (inl (DuplicateItemError b), s')
    ∧ structures s' = structures s
    ∧ course_indexes s' = course_indexes s
    ∧ definitions s'
      = <[next_oid s :=
            DefinitionDoc (next_oid s) category
              (_filter_special_fields (scope_content (default no_fields fields)))
              (DefinitionEditInfo user (clock s) None (next_oid s))]>
          (definitions s).
Proof.
  intros Hp Hb Hv Hidx Hh Hst Hblk Hdl.
  unfold create_item.
  erewrite bind_ok by (eapply get_index_if_valid_head; eauto).
  erewrite bind_ok by (eapply lookup_course_head; eauto).
  cbv zeta. simpl env_structure. rewrite Hst.
  erewrite bind_ok by (destruct Hdl as [-> | ->]; reflexivity).
  erewrite bind_ok by reflexivity.
  simpl s_blocks. unfold encode_key_for_mongo.
  rewrite bool_decide_eq_true_2 by done.
  erewrite bind_err by reflexivity.
  eexists. split; [reflexivity|]. done.
Qed.

Lemma create_item_appends_block_witness :
  ∃ d s',
    create_item head_root "chapter" "editor" None None None false false
                forked_store
    = (inr d, s')
    ∧ l_version_guid (x_location d) = Some 21%N
    ∧ l_block_id (x_location d) = Some "chapter2"
    ∧ course_indexes s'
      = <["edu" := with_head (course_of [("draft", 2%N)]) "draft" 21]>
          (course_indexes forked_store).
Proof.
  destruct (create_item_appends_block forked_store head_root "edu" "draft"
              (course_of [("draft", 2%N)]) 2 forked_head
              "chapter" "editor" None None None false)
    as (d & s' & new_st & Hrun & Hv & Hb & _ & _ & _ & _ & _ & Hi & _);
    try reflexivity.
  - by right.
  - intros parent [= <-]. by eexists.
  - intros b [=].
  - by left.
  - exists d, s'. split; [exact Hrun|]. split; [exact Hv|].
    split; [exact Hb|]. exact Hi.
Defined.

Lemma create_item_duplicate_witness :
  ∃ s',
    create_item head_root "chapter" "editor" (Some "chapter1") None None false
                false forked_store
    = (inl (DuplicateItemError "chapter1"), s')
    ∧ structures s' = structures forked_store
    ∧ course_indexes s' = course_indexes forked_store
    ∧ definitions s'
      = <[next_oid forked_store :=
            DefinitionDoc (next_oid forked_store) "chapter"
              (_filter_special_fields (scope_content (default no_fields None)))
              (DefinitionEditInfo "editor" (clock forked_store) None
                                  (next_oid forked_store))]>
          (definitions forked_store).
Proof.
  apply (create_item_duplicate forked_store head_root "edu" "draft"
           (course_of [("draft", 2%N)]) 2 forked_head
           "chapter" "editor" "chapter1" None None false);
    try reflexivity.
  - by right.
  - by eexists.
  - by left.
Defined.

(** ** Updating an item *)

(** X11: [update_item] at the head of a branch, with a descriptor that differs
    from the stored block in its content, its children or its settings: a
    new structure that follows the head becomes the head. In it the block has
    the settings and the children of the descriptor (no ['children'] key
    when the descriptor has no children), the definition of the descriptor,
    or the new version of it when the content changed, and an [edit_info]
    that points back to its previous [update_version]; every other block is
    as it was. The item returned is the block as it is read back from the
    new head: it has the content, the settings and the children of the
    descriptor. *)
Theorem update_item_versions_block (s : store) (d : descriptor) user force
    p br idx h st bid blk old_definition def :
  l_package_id (x_location d) = Some p →
  l_branch (x_location d) = Some br →
  l_block_id (x_location d) = Some bid →
  (l_version_guid (x_location d) = None ∨ l_version_guid (x_location d) = Some h) →
  course_indexes s !! p = Some idx → ci_id idx = p →
  ci_versions idx !! br = Some h →
  structures s !! h = Some st →
  s_blocks st !! bid = Some blk →
  x_definition_locator d = DefinitionId old_definition →
  definitions s !! old_definition = Some def →
  (x_has_children d = true → is_Some (f_children (b_fields blk))) →
  let content := _filter_special_fields (x_content_fields d) in
  (content ≠ d_fields def
   ∨ (x_has_children d = true ∧ f_children (b_fields blk) ≠ Some (x_children d))
   ∨ x_settings_fields d ≠ f_settings (b_fields blk)) →
  let content_changed := needs_saved content (d_fields def) in
  let new_definition := if content_changed then next_oid s else old_definition in
  let new_id := if content_changed then N.succ (next_oid s) else next_oid s in
  ∃ r s' new_st,
    update_item d user force s = (inr r, s')
    ∧ x_location r = Locator (Some p) (Some br) (Some new_id) (Some bid)
    ∧ x_definition_locator r = DefinitionId new_definition
    ∧ x_content_fields r = content
    ∧ x_settings_fields r = x_settings_fields d
    ∧ x_has_children r = x_has_children d
    ∧ x_children r = (if x_has_children d then x_children d else [])
    ∧ structures s' = <[new_id := new_st]> (structures s)
    ∧ course_indexes s' = <[p := with_head idx br new_id]> (course_indexes s)
    ∧ new_st
      = Structure new_id (s_root st) (Some (s_id st)) (s_original_version st)
          user (clock s)
          (<[bid := Block (b_category blk) new_definition
                      (BlockFields (x_settings_fields d)
                                   (if x_has_children d
                                    then Some (x_children d) else None))
                      (BlockEditInfo (clock s) user
                         (Some (ei_update_version (b_edit_info blk))) new_id)]>
             (s_blocks st))
    ∧ definitions s'
      = (if content_changed
         then <[next_oid s :=
                  DefinitionDoc (next_oid s) (d_category def) content
                    (DefinitionEditInfo user (clock s) (Some old_definition)
                       (d_original_version (d_edit_info def)))]>
                (definitions s)
         else definitions s)
    ∧ (content_changed = true ↔ content ≠ d_fields def).
Proof.
  intros Hp Hb Hbid Hv Hidx Hid Hh Hst Hblk Hdl Hdef Hch content Hchanged
    content_changed new_definition new_id.
  assert (Hcc : content_changed = true ↔ content ≠ d_fields def).
  { unfold content_changed. rewrite <- not_false_iff_true.
    by rewrite needs_saved_false. }
  assert (Hroute : ∀ s1 : store,
            structures s1 = structures s → course_indexes s1 = course_indexes s →
            clock s1 = clock s →
            ∃ upd : bool,
              ((if needs_saved content (d_fields def) then ret true
                else if x_has_children d then
                  original_entry ← subscript (s_blocks st !! bid);
                  original_children ← getitem (f_children (b_fields original_entry));
                  ret (bool_decide (original_children ≠ x_children d))
                else ret false) s1 = (inr upd, s1))
              ∧ (upd = false →
                 _compare_settings (x_settings_fields d) (b_fields blk) = true)).
  { intros s1 _ _ _. destruct (needs_saved content (d_fields def)) eqn:Ens.
    { exists true. split; [reflexivity|discriminate]. }
    apply needs_saved_false in Ens.
    assert (Hset : (x_has_children d = false
                    ∨ f_children (b_fields blk) = Some (x_children d)) →
                   _compare_settings (x_settings_fields d) (b_fields blk) = true).
    { intros Hsame. apply not_false_iff_true. intros Hcmp.
      apply compare_settings_false_eq in Hcmp.
      destruct Hchanged as [?|[[Hhc ?]|?]]; try done.
      destruct Hsame as [Hsame|Hsame]; congruence. }
    destruct (x_has_children d) eqn:Hhc.
    - destruct (Hch eq_refl) as [cs Hcs]. rewrite Hblk.
      erewrite bind_ok by reflexivity. rewrite Hcs.
      erewrite bind_ok by reflexivity.
      eexists. split; [reflexivity|].
      intros Hfalse. apply bool_decide_eq_false in Hfalse.
      apply dec_stable in Hfalse. apply Hset. right. congruence.
    - exists false. split; [reflexivity|]. intros _. apply Hset. by left. }
  unfold update_item.
  erewrite bind_ok by (eapply lookup_course_head; eauto).
  cbv zeta. simpl env_structure.
  erewrite bind_ok by (eapply get_index_if_valid_head; eauto).
  rewrite Hdl. rewrite bind_unfold.
  rewrite (update_definition_run s old_definition def _ user Hdef).
  fold content. subst content_changed new_definition new_id.
  rewrite Hst.
  cbn [x_location x_definition_locator x_settings_fields x_has_children
       x_children x_content_fields].
  rewrite Hbid.
  unfold _get_block_from_structure, encode_key_for_mongo.
  assert (Hfinish : ∀ (s1 : store) (ns : structure) (blk' : block) new_id,
            structures s1 !! new_id = Some ns → s_id ns = new_id →
            s_blocks ns !! bid = Some blk' →
            course_indexes s1 !! p = Some (with_head idx br new_id) →
            ∃ r, get_item (Locator (Some p) (Some br) (Some new_id)
                                   (Some bid)) s1
                 = (inr r, set_course_cache (λ c, {[ new_id ]} ∪ c) s1)
                 ∧ x_location r = Locator (Some p) (Some br) (Some new_id) (Some bid)
                 ∧ x_definition_locator r = DefinitionId (b_definition blk')
                 ∧ x_content_fields r
                   = from_option d_fields ∅ (definitions s1 !! b_definition blk')
                 ∧ x_settings_fields r = f_settings (b_fields blk')
                 ∧ x_has_children r
                   = bool_decide (is_Some (f_children (b_fields blk')))
                 ∧ x_children r = get_children (b_fields blk')).
  { intros s1 ns blk' new_id Hns Hnsid Hblk' Hidx1. subst new_id.
    eexists. split.
    - eapply get_item_found; [done| |exact Hblk'].
      erewrite (lookup_course_head s1 _ p br _ (s_id ns));
        [by rewrite Hns|try done..].
      + simpl. by rewrite lookup_insert_eq.
      + by right.
    - done. }
  destruct (needs_saved content (d_fields def)) eqn:Ens; cbv beta iota.
  - erewrite bind_ok by reflexivity.
    erewrite bind_ok by reflexivity.
    erewrite bind_ok by reflexivity.
    erewrite bind_ok by reflexivity.
    cbv beta iota.
    erewrite bind_ok by reflexivity.
    simpl s_blocks. rewrite Hblk.
    erewrite bind_ok by reflexivity.
    erewrite bind_ok by reflexivity.
    erewrite bind_ok by reflexivity.
    erewrite bind_ok by reflexivity.
    rewrite Hb, Hp.
    erewrite bind_ok by reflexivity.
    simpl s_id. simpl clock.
    match goal with
    | |- context [get_item _ ?s1] =>
        edestruct (Hfinish s1)
          as (r & Hget & Hloc & Hrd & Hrc & Hrs & Hrh & Hrch)
    end.
    { simpl. by rewrite lookup_insert_eq. }
    { reflexivity. }
    { simpl. by rewrite lookup_insert_eq. }
    { simpl. unfold with_head. rewrite !Hid. by rewrite lookup_insert_eq. }
    eexists r, _, _. split; [exact Hget|].
    split; [exact Hloc|]. split; [exact Hrd|].
    split; [rewrite Hrc; simpl; by rewrite lookup_insert_eq|].
    split; [exact Hrs|].
    split; [rewrite Hrh; simpl; by destruct (x_has_children d)|].
    split; [rewrite Hrch; simpl; by destruct (x_has_children d)|].
    simpl. unfold with_head. rewrite !Hid.
    split; [reflexivity|]. split; [reflexivity|]. split; [reflexivity|].
    split; [reflexivity|]. done.
  - destruct (Hroute s eq_refl eq_refl eq_refl) as (upd & Hrun & Hcmp).
    erewrite bind_ok by reflexivity.
    erewrite bind_ok by reflexivity.
    simpl s_blocks.
    erewrite bind_ok by exact Hrun.
    erewrite (bind_ok _ _ _ true).
    2:{ destruct upd; [reflexivity|]. rewrite Hblk.
        erewrite bind_ok by reflexivity. by rewrite Hcmp. }
    cbv beta iota.
    erewrite bind_ok by reflexivity.
    simpl s_blocks. rewrite Hblk.
    erewrite bind_ok by reflexivity.
    erewrite bind_ok by reflexivity.
    erewrite bind_ok by reflexivity.
    erewrite bind_ok by reflexivity.
    rewrite Hb, Hp.
    erewrite bind_ok by reflexivity.
    simpl s_id. simpl clock.
    match goal with
    | |- context [get_item _ ?s1] =>
        edestruct (Hfinish s1)
          as (r & Hget & Hloc & Hrd & Hrc & Hrs & Hrh & Hrch)
    end.
    { simpl. by rewrite lookup_insert_eq. }
    { reflexivity. }
    { simpl. by rewrite lookup_insert_eq. }
    { simpl. unfold with_head. rewrite !Hid. by rewrite lookup_insert_eq. }
    eexists r, _, _. split; [exact Hget|].
    split; [exact Hloc|]. split; [exact Hrd|].
    split.
    { rewrite Hrc. simpl. rewrite Hdef. simpl. symmetry.
      by apply needs_saved_false. }
    split; [exact Hrs|].
    split; [rewrite Hrh; simpl; by destruct (x_has_children d)|].
    split; [rewrite Hrch; simpl; by destruct (x_has_children d)|].
    simpl. unfold with_head. rewrite !Hid.
    split; [reflexivity|]. split; [reflexivity|]. split; [reflexivity|].
    split; [reflexivity|]. done.
Qed.

Lemma update_item_versions_block_witness :
  ∃ r s',
    update_item renamed_chapter "editor" false forked_store = (inr r, s')
    ∧ x_location r
      = Locator (Some "edu") (Some "draft") (Some 20%N) (Some "chapter1")
    ∧ x_definition_locator r = DefinitionId 11
    ∧ x_settings_fields r = {[ "display_name" := VStr "New" ]}
    ∧ definitions s' = definitions forked_store.
Proof.
  destruct (update_item_versions_block forked_store renamed_chapter "editor"
              false "edu" "draft" (course_of [("draft", 2%N)]) 2 forked_head
              "chapter1" (leaf "chapter" 11 2 []) 11
              (DefinitionDoc 11 "chapter" ∅
                             (DefinitionEditInfo "author" 0 None 11)))
    as (r & s' & new_st & Hrun & Hloc & Hdef & _ & Hset & _ & _ & _ & _ & _
        & Hdefs & _);
    try reflexivity.
  - by right.
  - intros _. by eexists.
  - right. right. by_decide.
  - exists r, s'. split; [exact Hrun|]. split; [exact Hloc|].
    split; [exact Hdef|]. split; [exact Hset|]. exact Hdefs.
Defined.

(** ** Deleting an item *)

Lemma list_remove_occurs (x : string) (l : list string) :
  (0 < occurrences x l)%nat →
  ∃ l', list_remove x l = Some l'
        ∧ S (occurrences x l') = occurrences x l
        ∧ filter (λ c, c ≠ x) l' = filter (λ c, c ≠ x) l.
Proof.
  induction l as [|y l IH]; simpl; [lia|].
  intros Hpos. case_bool_decide as Hxy.
  - subst y. exists l. split; [done|].
    rewrite filter_cons_True by done.
    rewrite (filter_cons_False (λ c, c ≠ x)) by (intros H; by apply H).
    done.
  - rewrite filter_cons_False in Hpos by congruence.
    destruct (IH Hpos) as (l' & -> & Hocc & Hfil). exists (y :: l').
    split; [done|].
    rewrite !(filter_cons_False (λ z, z = x)) by congruence.
    split; [done|].
    rewrite !(filter_cons_True (λ c, c ≠ x)) by congruence.
    by rewrite Hfil.
Qed.

(** [_get_parents_from_structure] lists a parent once for each time the
    block occurs among its children. *)
Lemma get_parents_occurrences (b : string) (st : structure) (k : string) :
  occurrences k (_get_parents_from_structure b st)
  = match s_blocks st !! k with
    | Some kb => occurrences b (get_children (b_fields kb))
    | None => 0%nat
    end.
Proof.
  unfold _get_parents_from_structure.
  assert (Hgen : ∀ (entries : list (string * block)),
            NoDup entries.*1 →
            occurrences k
              ('(parent_id, value) ← entries;
               child_id ← get_children (b_fields value);
               if bool_decide (b = child_id) then [parent_id] else [])
            = match list_to_map (M := gmap string block) entries !! k with
              | Some kb => occurrences b (get_children (b_fields kb))
              | None => 0%nat
              end).
  { induction entries as [|[k' v] entries IH]; intros Hnd; [done|].
    apply NoDup_cons in Hnd as [Hnotin Hnd]. simpl in Hnotin.
    rewrite bind_cons, filter_app, length_app, (IH Hnd). simpl.
    assert (Hinner : occurrences k
                       (child_id ← get_children (b_fields v);
                        if bool_decide (b = child_id) then [k'] else [])
                     = if bool_decide (k' = k)
                       then occurrences b (get_children (b_fields v))
                       else 0%nat).
    { induction (get_children (b_fields v)) as [|c cs IHcs];
        [by case_bool_decide|].
      rewrite bind_cons, filter_app, length_app, IHcs.
      destruct (decide (b = c)) as [->|Hbc].
      - rewrite bool_decide_eq_true_2 by done.
        rewrite (filter_cons_True (λ y, y = c)) by done. simpl.
        destruct (decide (k' = k)) as [->|Hkk].
        + rewrite filter_cons_True by done. simpl.
          by rewrite bool_decide_eq_true_2.
        + rewrite filter_cons_False by done. simpl.
          by rewrite bool_decide_eq_false_2.
      - rewrite bool_decide_eq_false_2 by done.
        rewrite (filter_cons_False (λ y, y = b)) by congruence. done. }
    rewrite Hinner. destruct (decide (k' = k)) as [->|Hkk].
    - rewrite bool_decide_eq_true_2 by done. rewrite lookup_insert_eq.
      assert (Hnone : list_to_map (M := gmap string block) entries !! k = None).
      { by apply not_elem_of_list_to_map_1. }
      rewrite Hnone. lia.
    - rewrite bool_decide_eq_false_2 by done.
      by rewrite lookup_insert_ne. }
  rewrite (Hgen (map_to_list (s_blocks st))) by apply NoDup_fst_map_to_list.
  by rewrite list_to_map_to_list.
Qed.

Lemma occurrences_pos (x : string) (l : list string) :
  (0 < occurrences x l)%nat ↔ x ∈ l.
Proof.
  induction l as [|y l IH]; simpl.
  - split; [lia|]. by intros ?%elem_of_nil.
  - destruct (decide (y = x)) as [->|Hne].
    + rewrite filter_cons_True by done. simpl. split; [|lia]. intros _. by left.
    + rewrite filter_cons_False by done. rewrite IH. split.
      * by right.
      * intros [?|?]%elem_of_cons; [congruence|done].
Qed.

Lemma filter_ne_not_elem_of (x : string) (l : list string) :
  x ∉ l → filter (λ c, c ≠ x) l = l.
Proof.
  induction l as [|y l IH]; [done|]. intros Hnotin.
  apply not_elem_of_cons in Hnotin as [Hne Hnotin].
  rewrite filter_cons_True by congruence. by rewrite IH.
Qed.

Lemma detach_parents_run (bid : string) (user : string) (new_id : N)
    (parents : list string) (m : gmap string block) (s : store) :
  (∀ k, occurrences k parents
        = match m !! k with
          | Some kb => occurrences bid (get_children (b_fields kb))
          | None => 0%nat
          end) →
  ∃ m',
    foldM (λ new_blocks parent,
             let encoded_block_id := encode_key_for_mongo parent in
             parent_block ← getitem (new_blocks !! encoded_block_id);
             children ← getitem (f_children (b_fields parent_block));
             match list_remove bid children with
             | None => raise ValueError
             | Some children =>
                 t ← now;
                 ret (<[encoded_block_id :=
                          bump_edit_info user t new_id
                            (set_fields (set_children children) parent_block)]>
                        new_blocks)
             end)
          m parents s = (inr m', s)
    ∧ ∀ k, option_Forall2 (detached bid user new_id) (m !! k) (m' !! k).
Proof.
  revert m. induction parents as [|parent parents IH]; intros m Hocc.
  - exists m. split; [done|]. intros k. specialize (Hocc k). simpl in Hocc.
    destruct (m !! k) as [kb|]; constructor.
    assert (Hnotin : bid ∉ get_children (b_fields kb)).
    { rewrite <- occurrences_pos. lia. }
    unfold detached. rewrite filter_ne_not_elem_of by done. tauto.
  - simpl. unfold encode_key_for_mongo.
    pose proof (Hocc parent) as Hparent.
    rewrite filter_cons_True in Hparent by done. simpl in Hparent.
    destruct (m !! parent) as [pb|] eqn:Hpb; [|discriminate].
    destruct (list_remove_occurs bid (get_children (b_fields pb)))
      as (cs' & Hrm & Hocc' & Hfil); [lia|].
    assert (Hcs : f_children (b_fields pb) = Some (get_children (b_fields pb))).
    { unfold get_children in *. destruct (f_children (b_fields pb)); [done|].
      simpl in Hparent. lia. }
    set (pb' := bump_edit_info user (clock s) new_id
                  (set_fields (set_children cs') pb)).
    destruct (IH (<[parent := pb']> m)) as (m' & Hrun & Hrel).
    { intros k. destruct (decide (k = parent)) as [->|Hne].
      - rewrite lookup_insert_eq.
        change (get_children (b_fields pb')) with cs'. lia.
      - rewrite lookup_insert_ne by done. rewrite <- (Hocc k).
        by rewrite filter_cons_False by congruence. }
    exists m'. split.
    + erewrite bind_ok; [exact Hrun|].
      erewrite bind_ok by reflexivity. rewrite Hcs.
      erewrite bind_ok by reflexivity. rewrite Hrm.
      erewrite bind_ok by reflexivity. reflexivity.
    + intros k. specialize (Hrel k).
      destruct (decide (k = parent)) as [->|Hne].
      * rewrite lookup_insert_eq in Hrel. rewrite Hpb.
        inversion Hrel as [? kb' Hd|]; subst. constructor.
        destruct Hd as (Hc & Hdef & Hset & Hch & Hsame & Htouched).
        assert (Hin : bid ∈ get_children (b_fields pb)).
        { apply occurrences_pos. lia. }
        split; [done|]. split; [done|]. split; [done|].
        split.
        { rewrite Hch. change (get_children (b_fields pb')) with cs'.
          exact Hfil. }
        split; [done|]. intros _.
        destruct (decide (bid ∈ cs')) as [Hin'|Hnotin].
        -- apply Htouched. by change (get_children (b_fields pb')) with cs'.
        -- rewrite Hsame; [done|].
           by change (get_children (b_fields pb')) with cs'.
      * rewrite lookup_insert_ne in Hrel by done. done.
Qed.

Lemma fmap_decode_key (l : list string) : decode_key_from_mongo <$> l = l.
Proof. induction l as [|x l IH]; [done|]. by rewrite fmap_cons, IH. Qed.

(** X12: [delete_item] without [delete_children], at the head of a branch: a new
    structure that follows the head becomes the head. The block is gone from
    it and so is every reference to it: each block that listed it keeps its
    other children in their order and records the new version in its
    [edit_info]; the other blocks are as they were, and no block is added.
    [has_item] no longer finds the block at the head. The root cannot be
    deleted: [ValueError], and nothing is written. *)
Theorem delete_item_removes_references (fuel : nat) (s : store) (l : locator)
    user force p br idx h st bid blk :
  l_package_id l = Some p → l_branch l = Some br → l_block_id l = Some bid →
  (l_version_guid l = None ∨ l_version_guid l = Some h) →
  course_indexes s !! p = Some idx → ci_id idx = p →
  ci_versions idx !! br = Some h →
  structures s !! h = Some st →
  s_blocks st !! bid = Some blk →
  let new_id := next_oid s in
  (s_root st = bid →
   ∀ delete_children,
     delete_item fuel l user delete_children force s = (inl ValueError, s))
  ∧ (s_root st ≠ bid →
     ∃ s' new_blocks,
       delete_item fuel l user false force s
       = (inr (CourseLocator (Some p) (Some br) (Some new_id)), s')
       ∧ structures s'
         = <[new_id := Structure new_id (s_root st) (Some (s_id st))
                         (s_original_version st) user (clock s) new_blocks]>
             (structures s)
       ∧ course_indexes s' = <[p := with_head idx br new_id]> (course_indexes s)
       ∧ definitions s' = definitions s
       ∧ new_blocks !! bid = None
       ∧ (∀ k kb, new_blocks !! k = Some kb → bid ∉ get_children (b_fields kb))
       ∧ (∀ k, k ≠ bid →
            option_Forall2 (detached bid user new_id)
                           (s_blocks st !! k) (new_blocks !! k))
       ∧ (∀ package_id,
            has_item package_id (Locator (Some p) (Some br) None (Some bid)) s'
            = (inr false, s'))).
Proof.
  intros Hp Hb Hbid Hv Hidx Hid Hh Hst Hblk new_id. split.
  - intros Hroot delete_children. unfold delete_item. rewrite Hbid.
    erewrite bind_ok by (eapply lookup_course_head; eauto).
    simpl env_structure. rewrite Hst.
    erewrite bind_ok by reflexivity.
    by rewrite bool_decide_eq_true_2.
  - intros Hroot. unfold delete_item. rewrite Hbid.
    erewrite bind_ok by (eapply lookup_course_head; eauto).
    simpl env_structure. rewrite Hst.
    erewrite bind_ok by reflexivity.
    rewrite bool_decide_eq_false_2 by done.
    erewrite bind_ok by (eapply get_index_if_valid_head; eauto).
    erewrite bind_ok by reflexivity.
    set (s_a := Store _ _ _ (N.succ (next_oid s)) _ _).
    erewrite bind_ok.
    2:{ unfold get_parent_locations.
        erewrite bind_ok by (eapply (lookup_course_head s_a); eauto).
        simpl env_structure. subst s_a. simpl structures. rewrite Hst.
        erewrite bind_ok by reflexivity. rewrite Hbid.
        erewrite bind_ok by reflexivity. rewrite fmap_decode_key. reflexivity. }
    cbv zeta. simpl s_blocks. simpl s_id.
    destruct (detach_parents_run bid user (next_oid s)
                (_get_parents_from_structure bid st) (s_blocks st) s_a)
      as (m' & Hrun & Hrel).
    { intros k. apply get_parents_occurrences. }
    erewrite bind_ok by exact Hrun.
    assert (Hin : is_Some (m' !! bid)).
    { specialize (Hrel bid). rewrite Hblk in Hrel. inversion Hrel; eauto. }
    unfold del_block, encode_key_for_mongo.
    rewrite bool_decide_eq_true_2 by done.
    erewrite bind_ok by reflexivity.
    erewrite bind_ok by reflexivity.
    rewrite Hb, Hp. simpl.
    erewrite bind_ok by reflexivity.
    eexists _, (delete bid m'). split; [reflexivity|].
    match goal with
    | |- context [has_item _ _ ?s1] =>
        assert (Hhas : ∀ package_id,
                  has_item package_id
                           (Locator (Some p) (Some br) None (Some bid)) s1
                  = (inr false, s1))
    end.
    { intros package_id.
      erewrite (has_item_at_head _ _ p br _ (next_oid s)
                  (Structure (next_oid s) (s_root st) (Some (s_id st))
                             (s_original_version st) user (clock s)
                             (delete bid m'))).
      - simpl. rewrite lookup_delete_eq.
        rewrite bool_decide_eq_false_2; [reflexivity|]. by intros [? ?].
      - simpl. rewrite Hid. apply lookup_insert_eq.
      - simpl. apply lookup_insert_eq.
      - simpl. apply lookup_insert_eq. }
    match goal with
    | |- ?A ∧ ?B ∧ ?C ∧ ?D ∧ ?E ∧ ?F ∧ _ =>
        cut (A ∧ B ∧ C ∧ D ∧ E ∧ F);
        [intros (H1 & H2 & H3 & H4 & H5 & H6);
         exact (conj H1 (conj H2 (conj H3 (conj H4 (conj H5 (conj H6 Hhas))))))|]
    end.
    clear Hhas. simpl. unfold with_head. rewrite !Hid.
    split; [reflexivity|]. split; [reflexivity|]. split; [reflexivity|].
    split; [by rewrite lookup_delete_eq|]. split.
    + intros k kb Hk. apply lookup_delete_Some in Hk as [Hne Hk].
      specialize (Hrel k). rewrite Hk in Hrel.
      inversion Hrel as [kb0 ? Hd|]; subst.
      destruct Hd as (_ & _ & _ & Hch & _).
      rewrite Hch. intros Hin'. apply list_elem_of_filter in Hin' as [Hne' _].
      by apply Hne'.
    + intros k Hne. rewrite lookup_delete_ne by done. apply Hrel.
Qed.

Lemma delete_item_removes_references_witness :
  ∃ s' new_blocks,
    delete_item 10 chapter_locator "editor" false false forked_store
    = (inr (CourseLocator (Some "edu") (Some "draft") (Some 20%N)), s')
    ∧ structures s'
      = <[20%N := Structure 20 "course" (Some 2%N) 1 "editor" 100 new_blocks]>
          (structures forked_store)
    ∧ new_blocks !! "chapter1" = None
    ∧ ∀ k kb, new_blocks !! k = Some kb →
              "chapter1" ∉ get_children (b_fields kb).
Proof.
  destruct (proj2 (delete_item_removes_references 10 forked_store
                     chapter_locator "editor" false "edu" "draft"
                     (course_of [("draft", 2%N)]) 2 forked_head "chapter1"
                     (leaf "chapter" 11 2 [])
                     eq_refl eq_refl eq_refl (or_intror eq_refl) eq_refl
                     eq_refl eq_refl eq_refl eq_refl))
    as (s' & new_blocks & Hrun & Hs & _ & _ & Hgone & Hrefs & _ & _).
  { discriminate. }
  exists s', new_blocks. split; [exact Hrun|]. split; [exact Hs|].
  split; [exact Hgone|]. exact Hrefs.
Defined.

(** ** Cleaning the children lists *)

(** X14: [internal_clean_children] overwrites the structure under its own
    id, with the same blocks, each keeping of its children those that are
    blocks of the structure, in their order; no child is left that is not a
    block. No version is made: the id and the history of the structure, the
    indexes and the definitions stay. It returns when the structure is in the
    cache of the thread, and the cache entry is dropped. Otherwise the
    structure is overwritten all the same, the cache stays as it is, and the
    call raises: [AttributeError] on a thread that has not created its cache,
    [KeyError] when the cache lacks the structure. *)
Theorem internal_clean_children_no_dangling (l : locator) (s : store)
    (env : envelope) (st : structure) :
  _lookup_course l s = (inr env, s) →
  env_structure env = Some st →
  ∃ s' new_blocks,
    internal_clean_children l s
    = (match course_cache s with
       | None => inl AttributeError
       | Some cache =>
           if bool_decide (s_id st ∈ cache) then inr tt else inl KeyError
       end, s')
    ∧ structures s'
      = <[s_id st := Structure (s_id st) (s_root st) (s_previous_version st)
                       (s_original_version st) (s_edited_by st) (s_edited_on st)
                       new_blocks]>
          (structures s)
    ∧ course_indexes s' = course_indexes s
    ∧ definitions s' = definitions s
    ∧ next_oid s' = next_oid s
    ∧ course_cache s' = (λ cache, cache ∖ {[ s_id st ]}) <$> course_cache s
    ∧ (∀ k, option_Forall2
              (λ kb kb',
                 b_category kb' = b_category kb
                 ∧ b_definition kb' = b_definition kb
                 ∧ b_edit_info kb' = b_edit_info kb
                 ∧ f_settings (b_fields kb') = f_settings (b_fields kb)
                 ∧ get_children (b_fields kb')
                   = filter (λ c, is_Some (s_blocks st !! c))
                            (get_children (b_fields kb)))
              (s_blocks st !! k) (new_blocks !! k))
    ∧ (∀ k kb' c, new_blocks !! k = Some kb' →
         c ∈ get_children (b_fields kb') → is_Some (new_blocks !! c)).
Proof.
  intros Hlook Hst.
  set (clean := λ b : block,
         match f_children (b_fields b) with
         | Some children =>
             set_fields
               (set_children
                  (filter (λ block_id,
                             is_Some (s_blocks st !! encode_key_for_mongo block_id))
                          children))
               b
         | None => b
         end).
  assert (Hrel : ∀ k, option_Forall2
              (λ kb kb',
                 b_category kb' = b_category kb
                 ∧ b_definition kb' = b_definition kb
                 ∧ b_edit_info kb' = b_edit_info kb
                 ∧ f_settings (b_fields kb') = f_settings (b_fields kb)
                 ∧ get_children (b_fields kb')
                   = filter (λ c, is_Some (s_blocks st !! c))
                            (get_children (b_fields kb)))
              (s_blocks st !! k) ((clean <$> s_blocks st) !! k)).
  { intros k. rewrite lookup_fmap. destruct (s_blocks st !! k) as [kb|];
      constructor. unfold clean, get_children.
    destruct (f_children (b_fields kb)) as [cs|] eqn:Hcs; simpl.
    - done.
    - rewrite Hcs. done. }
  exists (match course_cache s with
          | Some cache =>
              if bool_decide (s_id st ∈ cache)
              then set_course_cache (λ c, c ∖ {[ s_id st ]})
                     (set_structures (insert (s_id st)
                        (set_blocks (λ _, clean <$> s_blocks st) st)) s)
              else set_structures (insert (s_id st)
                        (set_blocks (λ _, clean <$> s_blocks st) st)) s
          | None => set_structures (insert (s_id st)
                        (set_blocks (λ _, clean <$> s_blocks st) st)) s
          end),
         (clean <$> s_blocks st).
  split.
  { unfold internal_clean_children.
    erewrite bind_ok by exact Hlook. rewrite Hst.
    erewrite bind_ok by reflexivity. cbv zeta. fold clean.
    erewrite bind_ok by reflexivity.
    unfold _clear_cache. simpl s_id.
    erewrite bind_ok by reflexivity. simpl.
    destruct (course_cache s) as [cache|]; [|reflexivity].
    by case_bool_decide. }
  assert (Hframe : ∀ {A} (f : store → A) (s1 s2 s3 : store) (a : A),
            f s1 = a → f s2 = a → f s3 = a →
            f (match course_cache s with
               | Some cache => if bool_decide (s_id st ∈ cache) then s1 else s2
               | None => s3
               end) = a).
  { intros A f s1 s2 s3 a H1 H2 H3.
    destruct (course_cache s) as [cache|]; [by case_bool_decide|done]. }
  split; [by apply Hframe|]. split; [by apply Hframe|].
  split; [by apply Hframe|]. split; [by apply Hframe|].
  split.
  { destruct (course_cache s) as [cache|] eqn:Hcache; simpl;
      [|by rewrite Hcache].
    case_bool_decide as Hin; simpl; rewrite Hcache; simpl; [done|].
    f_equal. apply set_eq. intros y.
    rewrite elem_of_difference, elem_of_singleton.
    split; [intros Hy; split; [done|by intros ->]|by intros [? _]]. }
  split; [exact Hrel|].
  intros k kb' c Hk Hc. pose proof (Hrel k) as Hk'. rewrite Hk in Hk'.
  inversion Hk' as [kb ? (_ & _ & _ & _ & Hch) Hkb|]; subst.
  rewrite Hch in Hc. apply list_elem_of_filter in Hc as [[cb Hcb] _].
  rewrite lookup_fmap, Hcb. by eexists.
Qed.

Lemma internal_clean_children_no_dangling_witness :
  ∃ s' new_blocks root,
    internal_clean_children draft_course dangling_store = (inr tt, s')
    ∧ structures s' !! 1%N
      = Some (Structure 1 "course" None 1 "author" 0 new_blocks)
    ∧ new_blocks !! "course" = Some root
    ∧ get_children (b_fields root) = ["chapter1"].
Proof.
  destruct (internal_clean_children_no_dangling draft_course dangling_store
              (Envelope (Some "edu") (Some "draft")
                        (structures dangling_store !! 1%N))
              (Structure 1 "course" None 1 "author" 0
                 {[ "course" := leaf "course" 10 1 ["gone"; "chapter1"];
                    "chapter1" := leaf "chapter" 11 1 [] ]})
              eq_refl eq_refl)
    as (s' & new_blocks & Hrun & Hs & _ & _ & _ & _ & Hblocks & _).
  specialize (Hblocks "course").
  change (s_blocks _ !! "course")
    with (Some (leaf "course" 10 1 ["gone"; "chapter1"])) in Hblocks.
  destruct (new_blocks !! "course") as [root|] eqn:Hroot.
  - exists s', new_blocks, root. split; [exact Hrun|].
    split; [rewrite Hs; apply lookup_insert_eq|]. split; [exact Hroot|].
    inversion Hblocks as [? ? (_ & _ & _ & _ & Hchildren)|]. subst.
    rewrite Hchildren. by vm_compute.
  - inversion Hblocks.
Defined.

(** ** Descendants to a depth *)

Lemma within_present block_map d b k :
  within block_map d b k → is_Some (block_map !! k).
Proof. induction 1; eauto. Qed.

Lemma descendants_children_run (block_map : gmap string block) (d : nat)
    (fuel : nat) (s : store) :
  (∀ b dm, dm ⊆ block_map →
     ∃ r, descendants fuel block_map b (Some d) dm s = (inr r, s)
          ∧ dm ⊆ r ∧ r ⊆ block_map
          ∧ ∀ k, is_Some (r !! k) ↔ is_Some (dm !! k) ∨ within block_map d b k) →
  ∀ cs dm, dm ⊆ block_map →
    ∃ r, foldM (λ descendent_map child,
                  descendants fuel block_map child (Some d) descendent_map)
               dm cs s = (inr r, s)
         ∧ dm ⊆ r ∧ r ⊆ block_map
         ∧ ∀ k, is_Some (r !! k)
                ↔ is_Some (dm !! k) ∨ ∃ c, c ∈ cs ∧ within block_map d c k.
Proof.
  intros Hone. induction cs as [|c cs IH]; intros dm Hdm; simpl.
  - exists dm. split; [done|]. split; [done|]. split; [done|].
    intros k. split; [by left|]. intros [?|(c & Hc & _)]; [done|].
    by apply elem_of_nil in Hc.
  - destruct (Hone c dm Hdm) as (r1 & Hrun1 & Hsub1 & Hbm1 & Hiff1).
    destruct (IH r1 Hbm1) as (r & Hrun & Hsub & Hbm & Hiff).
    exists r. split; [by erewrite bind_ok by exact Hrun1|].
    split; [by etrans|]. split; [done|].
    intros k. rewrite Hiff, Hiff1. split.
    + intros [[?|?]|(c' & Hc' & Hw)]; [by left|right; exists c|right; exists c'].
      * split; [by left|done].
      * split; [by right|done].
    + intros [?|(c' & [-> |Hc']%elem_of_cons & Hw)]; [by left; left|by left; right|].
      right. by exists c'.
Qed.

Lemma descendants_run (block_map : gmap string block) (d : nat) (s : store) :
  ∀ fuel b dm, (d < fuel)%nat → dm ⊆ block_map →
    ∃ r, descendants fuel block_map b (Some d) dm s = (inr r, s)
         ∧ dm ⊆ r ∧ r ⊆ block_map
         ∧ ∀ k, is_Some (r !! k) ↔ is_Some (dm !! k) ∨ within block_map d b k.
Proof.
  induction d as [|d IH]; intros fuel b dm Hfuel Hdm;
    (destruct fuel as [|fuel]; [lia|]); simpl; unfold encode_key_for_mongo.
  - destruct (block_map !! b) as [blk|] eqn:Hb.
    + set (dm' := if bool_decide (is_Some (dm !! b)) then dm else <[b:=blk]> dm).
      assert (Hdm' : dm ⊆ dm' ∧ dm' ⊆ block_map
                     ∧ ∀ k, is_Some (dm' !! k) ↔ is_Some (dm !! k) ∨ k = b).
      { unfold dm'. case_bool_decide as Hin.
        - split; [done|]. split; [done|]. intros k. split; [by left|].
          by intros [?| ->].
        - apply eq_None_not_Some in Hin. split; [by apply insert_subseteq|].
          split; [by apply insert_subseteq_l|]. intros k.
          rewrite lookup_insert_is_Some. split.
          * intros [<-|[_ ?]]; [by right|by left].
          * intros [?| ->]; [|by left].
            destruct (decide (b = k)); [by left|by right]. }
      destruct Hdm' as (Hsub & Hbm & Hiff).
      exists dm'. split; [done|]. split; [done|]. split; [done|].
      intros k. rewrite Hiff. split.
      * intros [?| ->]; [by left|]. right. constructor. eauto.
      * intros [?|Hw]; [by left|]. right. by inversion Hw.
    + exists dm. split; [done|]. split; [done|]. split; [done|].
      intros k. split; [by left|]. intros [?|Hw]; [done|].
      inversion Hw as [? ? [? Hsome]|]; subst. congruence.
  - destruct (block_map !! b) as [blk|] eqn:Hb.
    + set (dm' := if bool_decide (is_Some (dm !! b)) then dm else <[b:=blk]> dm).
      assert (Hdm' : dm ⊆ dm' ∧ dm' ⊆ block_map ∧ dm' !! b = Some blk
                     ∧ ∀ k, is_Some (dm' !! k) ↔ is_Some (dm !! k) ∨ k = b).
      { unfold dm'. case_bool_decide as Hin.
        - split; [done|]. split; [done|]. split.
          + destruct Hin as [blk' Hblk'].
            pose proof (lookup_weaken _ _ _ _ Hblk' Hdm). congruence.
          + intros k. split; [by left|]. by intros [?| ->].
        - apply eq_None_not_Some in Hin. split; [by apply insert_subseteq|].
          split; [by apply insert_subseteq_l|].
          split; [by rewrite lookup_insert_eq|]. intros k.
          rewrite lookup_insert_is_Some. split.
          * intros [<-|[_ ?]]; [by right|by left].
          * intros [?| ->]; [|by left].
            destruct (decide (b = k)); [by left|by right]. }
      destruct Hdm' as (Hsub & Hbm & Hentry & Hiff).
      rewrite Hentry.
      erewrite bind_ok by reflexivity.
      destruct (descendants_children_run block_map d fuel s
                  (λ b dm, IH fuel b dm ltac:(lia))
                  (get_children (b_fields blk)) dm' Hbm)
        as (r & Hrun & Hsub' & Hbm' & Hiff').
      exists r. split; [exact Hrun|]. split; [by etrans|]. split; [done|].
      intros k. rewrite Hiff', Hiff. split.
      * intros [[?| ->]|(c & Hc & Hw)]; [by left| |].
        -- right. constructor. eauto.
        -- right. by eapply within_child.
      * intros [?|Hw]; [by left; left|].
        inversion Hw as [|? ? c ? blk' Hb' Hc Hw']; subst; [by left; right|].
        right. exists c. split; [|done]. congruence.
    + exists dm. split; [done|]. split; [done|]. split; [done|].
      intros k. split; [by left|]. intros [?|Hw]; [done|].
      inversion Hw as [? ? [? Hsome]|]; subst; congruence.
Qed.

(** X15: [descendants] with a depth [d], started on an empty map: it returns for
    any limit of recursion above [d], and the map it returns is [block_map]
    restricted to the blocks that are at most [d] levels below [block_id]
    (the block itself for [d = 0]); a [block_id] that is not in [block_map]
    gives the empty map. Children that are not in [block_map] are passed
    over. *)
Theorem descendants_within_depth (block_map : gmap string block)
    (block_id : BlockId) (d fuel : nat) (s : store) :
  (d < fuel)%nat →
  ∃ r, descendants fuel block_map block_id (Some d) ∅ s = (inr r, s)
       ∧ (∀ k blk, r !! k = Some blk
                   ↔ block_map !! k = Some blk ∧ within block_map d block_id k)
       ∧ (block_map !! block_id = None → r = ∅).
Proof.
  intros Hfuel.
  destruct (descendants_run block_map d s fuel block_id ∅ Hfuel)
    as (r & Hrun & _ & Hbm & Hiff); [apply map_empty_subseteq|].
  exists r. split; [done|]. split.
  - intros k blk. split.
    + intros Hk. split; [by eapply lookup_weaken|].
      destruct (proj1 (Hiff k)) as [[? Hempty]|Hw]; [by eexists| |done].
      by rewrite lookup_empty in Hempty.
    + intros [Hk Hw].
      destruct (proj2 (Hiff k) (or_intror Hw)) as [blk' Hblk'].
      pose proof (lookup_weaken _ _ _ _ Hblk' Hbm). congruence.
  - intros Hnone. apply map_empty. intros k.
    apply eq_None_not_Some. intros Hk. apply Hiff in Hk as [[? Hempty]|Hw].
    + by rewrite lookup_empty in Hempty.
    + assert (Hhead : is_Some (block_map !! block_id)).
      { inversion Hw; subst; eauto. }
      rewrite Hnone in Hhead. by destruct Hhead.
Qed.

Lemma descendants_within_depth_witness :
  ∃ r, descendants 5 subtree_blocks "course" (Some 1%nat) ∅ forked_store
       = (inr r, forked_store)
       ∧ (∀ k blk, r !! k = Some blk
                   ↔ subtree_blocks !! k = Some blk
                     ∧ within subtree_blocks 1 "course" k)
       ∧ (subtree_blocks !! "course" = None → r = ∅).
Proof.
  apply (descendants_within_depth subtree_blocks "course" 1 5 forked_store).
  lia.
Defined.

(** ** Searching a version tree *)

Lemma anyM_run {A} (f : A → M bool) (P : A → Prop) (l : list A) (s : store) :
  (∀ x, x ∈ l → ∃ found, f x s = (inr found, s) ∧ (found = true ↔ P x)) →
  ∃ found, anyM f l s = (inr found, s)
           ∧ (found = true ↔ ∃ x, x ∈ l ∧ P x).
Proof.
  induction l as [|x l IH]; intros Hf; simpl.
  - exists false. split; [done|]. split; [done|].
    intros (x & Hx & _). by apply elem_of_nil in Hx.
  - destruct (Hf x) as (found & Hrun & Hiff); [by left|].
    erewrite bind_ok by exact Hrun. destruct found.
    + exists true. split; [done|]. split; [|done]. intros _.
      exists x. split; [by left|]. by apply Hiff.
    + destruct IH as (found & Hrun' & Hiff').
      { intros y Hy. apply Hf. by right. }
      exists found. split; [done|]. rewrite Hiff'. split.
      * intros (y & Hy & HP). exists y. split; [by right|done].
      * intros (y & [->|Hy]%elem_of_cons & HP); [|by exists y].
        apply Hiff in HP. discriminate.
Qed.

(** X16: [_find_local_root] on a tree whose successors lie ever lower in some
    ranking, that is a tree without cycles, with a limit of recursion above
    the rank of [possibility]: it returns, and it answers [True] exactly when
    [element_to_find] is reached from [possibility] through one successor or
    more. *)
Theorem find_local_root_reaches (fuel : nat) (element_to_find possibility : N)
    (tree : gmap N (gset N)) (rank : N → nat) (s : store) :
  (∀ x y, successor_in tree x y → (rank y < rank x)%nat) →
  (rank possibility < fuel)%nat →
  ∃ found,
    _find_local_root fuel element_to_find possibility tree s = (inr found, s)
    ∧ (found = true ↔ tc (successor_in tree) possibility element_to_find).
Proof.
  intros Hrank. revert possibility.
  induction fuel as [|fuel IH]; intros possibility Hfuel; [lia|]. simpl.
  destruct (tree !! possibility) as [successors|] eqn:Htree.
  - case_bool_decide as Hin.
    + exists true. split; [done|]. split; [|done]. intros _.
      apply tc_once. by exists successors.
    + destruct (anyM_run
                  (λ subtree, _find_local_root fuel element_to_find subtree tree)
                  (λ subtree, tc (successor_in tree) subtree element_to_find)
                  (elements successors) s) as (found & Hrun & Hiff).
      { intros x Hx. apply elem_of_elements in Hx. apply IH.
        assert (rank x < rank possibility)%nat; [|lia].
        apply Hrank. by exists successors. }
      exists found. split; [done|]. rewrite Hiff. split.
      * intros (x & Hx & Htc). apply elem_of_elements in Hx.
        eapply tc_l; [|exact Htc]. by exists successors.
      * intros Htc. inversion Htc as [? ? (S' & HS' & Hy)|? x ? (S' & HS' & Hx) Hrest];
          subst; rewrite Htree in HS'; injection HS' as <-; [done|].
        exists x. split; [by apply elem_of_elements|done].
  - exists false. split; [done|]. split; [done|].
    intros Htc. inversion Htc as [? ? (S' & HS' & _)|? x ? (S' & HS' & _) _];
      subst; congruence.
Qed.

Lemma find_local_root_reaches_witness :
  ∃ found,
    _find_local_root 5 3 0 history_tree forked_store = (inr found, forked_store)
    ∧ (found = true ↔ tc (successor_in history_tree) 0%N 3%N).
Proof.
  apply (find_local_root_reaches 5 3 0 history_tree
           (λ x, (4 - N.to_nat x)%nat) forked_store).
  - intros x y (successors & Hx & Hy).
    assert (Hall : map_Forall
                     (λ x successors,
                        set_Forall (λ y, (4 - N.to_nat y < 4 - N.to_nat x)%nat)
                                   successors)
                     history_tree) by by_decide.
    exact (Hall x successors Hx y Hy).
  - simpl. lia.
Defined.

(** ** Searching the blocks of a course *)

(** Between two dictionaries, [_value_matches] is [_block_matches] unless
    the criteria hold a regular expression. *)
Lemma value_matches_dict (value qualifiers : list (string * pyvalue)) :
  dict_get "$regex" qualifiers = None →
  _value_matches (PyDict qualifiers) (PyDict value)
  = _block_matches value qualifiers.
Proof.
  intros Hre. simpl. rewrite Hre. clear Hre.
  induction qualifiers as [|[key criteria] qualifiers IH]; [done|]. simpl.
  destruct (dict_get key value) as [target|].
  - destruct (_value_matches criteria target) as [e|[|]]; [done| |done].
    exact IH.
  - by destruct criteria.
Qed.

(** On a list, [_value_matches] looks for an element that matches. *)
Lemma value_matches_nil (criteria : pyvalue) :
  _value_matches criteria (PyList []) = inr false.
Proof. by destruct criteria. Qed.

Lemma value_matches_cons (criteria ele : pyvalue) (l : list pyvalue) :
  _value_matches criteria (PyList (ele :: l))
  = match _value_matches criteria ele with
    | inl e => inl e
    | inr true => inr true
    | inr false => _value_matches criteria (PyList l)
    end.
Proof. by destruct criteria. Qed.

Lemma value_matches_list_str (b : string) (l : list string) :
  _value_matches (PyStr b) (PyList (PyStr <$> l)) = inr (bool_decide (b ∈ l)).
Proof.
  induction l as [|c l IH]; [done|].
  rewrite fmap_cons, value_matches_cons, IH.
  change (_value_matches (PyStr b) (PyStr c)) with
    (inr (bool_decide (b = c)) : error + bool).
  destruct (decide (b = c)) as [->|Hne].
  - rewrite bool_decide_eq_true_2 by done.
    by rewrite bool_decide_eq_true_2 by (by left).
  - rewrite bool_decide_eq_false_2 by done.
    f_equal. apply bool_decide_ext. split; [by right|].
    intros [?|?]%elem_of_cons; [congruence|done].
Qed.

Lemma dict_get_settings_children (m : gmap string value) :
  dict_get "children"
           (prod_map id value_to_py <$> map_to_list (delete "children" m))
  = None.
Proof.
  assert (Hgen : ∀ entries : list (string * value),
            "children" ∉ entries.*1 →
            dict_get "children" (prod_map id value_to_py <$> entries) = None).
  { induction entries as [|[k v] entries IH]; [done|].
    rewrite fmap_cons. intros Hnotin.
    apply not_elem_of_cons in Hnotin as [Hne Hnotin]. simpl in Hne. simpl.
    rewrite bool_decide_eq_false_2 by congruence. by apply IH. }
  apply Hgen. intros Hin. apply list_elem_of_fmap in Hin as ([k v] & Hk & Hin).
  apply elem_of_map_to_list in Hin. simpl in Hk. subst k.
  by rewrite lookup_delete_eq in Hin.
Qed.

Lemma block_matches_single (value : list (string * pyvalue)) (key : string)
    (criteria : pyvalue) :
  _block_matches value [(key, criteria)]
  = match dict_get key value with
    | Some target =>
        match _value_matches criteria target with
        | inl e => inl e
        | inr found => inr found
        end
    | None => inr (match criteria with PyNone => true | _ => false end)
    end.
Proof.
  simpl. destruct (dict_get key value) as [target|].
  - by destruct (_value_matches criteria target) as [e|[|]].
  - by destruct criteria.
Qed.

Lemma block_matches_children (b : string) (blk : block) :
  _block_matches (block_to_py blk)
                 [("fields", PyDict [("children", PyStr b)])]
  = inr (bool_decide (b ∈ get_children (b_fields blk))).
Proof.
  rewrite block_matches_single.
  change (dict_get "fields" (block_to_py blk))
    with (Some (PyDict (fields_to_py (b_fields blk)))).
  cbv beta iota.
  rewrite value_matches_dict by done.
  rewrite block_matches_single.
  unfold fields_to_py, get_children.
  destruct (f_children (b_fields blk)) as [cs|].
  - change (dict_get "children" _)
      with (Some (PyList (PyStr <$> cs))).
    cbv beta iota. by rewrite value_matches_list_str.
  - simpl app. rewrite dict_get_settings_children.
    reflexivity.
Qed.

Lemma block_matches_category (c : string) (blk : block) :
  _block_matches (block_to_py blk) [("category", PyStr c)]
  = inr (bool_decide (b_category blk = c)).
Proof.
  simpl. destruct (decide (c = b_category blk)) as [->|Hne].
  - by rewrite !bool_decide_eq_true_2.
  - by rewrite !bool_decide_eq_false_2 by congruence.
Qed.

Lemma block_matches_unknown_key (key : string) (criteria : pyvalue)
    (blk : block) :
  key ∉ ["category"; "definition"; "fields"; "edit_info"] →
  criteria ≠ PyNone →
  _block_matches (block_to_py blk) [(key, criteria)] = inr false.
Proof.
  intros Hkey Hcrit. simpl.
  repeat (rewrite bool_decide_eq_false_2;
          [|intros <-; apply Hkey; repeat first [by left | right]]).
  by destruct criteria.
Qed.

(** The loop of [get_items] keeps the ids of the blocks that match. *)
Lemma select_run (qualifiers : list (string * pyvalue)) (f : block → bool)
    (entries : list (string * block)) (items : list string) (s : store) :
  (∀ k blk, (k, blk) ∈ entries →
     _block_matches (block_to_py blk) qualifiers = inr (f blk)) →
  foldM (λ items '(block_id, value),
           matches ← lift (_block_matches (block_to_py value) qualifiers);
           if matches : bool then ret (items ++ [block_id])%list
           else ret items)
        items entries s
  = (inr (items ++ (filter (λ kv, f kv.2 = true) entries).*1)%list, s).
Proof.
  revert items. induction entries as [|[k blk] entries IH]; intros items Hf; simpl.
  - by rewrite app_nil_r.
  - unfold lift at 1. rewrite bind_unfold, bind_unfold.
    rewrite (Hf k blk) by (by left).
    destruct (f blk) eqn:Hfb; simpl.
    + rewrite IH by (intros k' blk' Hin; apply (Hf k' blk'); by right).
      rewrite filter_cons_True by done. simpl. by rewrite <- app_assoc.
    + rewrite IH by (intros k' blk' Hin; apply (Hf k' blk'); by right).
      rewrite filter_cons_False by (simpl; congruence). done.
Qed.

(** Loading blocks that the structure has. *)
Lemma load_items_found (env : envelope) (st : structure) (ids : list string)
    (s : store) :
  env_structure env = Some st →
  (∀ k, k ∈ ids → is_Some (s_blocks st !! k)) →
  ∃ ds, _load_items env ids s
        = (inr ds, set_course_cache (λ c, {[ s_id st ]} ∪ c) s)
        ∧ (λ d, l_block_id (x_location d)) <$> ds = Some <$> ids.
Proof.
  intros Hst Hids. unfold _load_items. rewrite Hst.
  erewrite bind_ok by reflexivity. erewrite bind_ok by reflexivity.
  generalize (set_course_cache (λ c, {[ s_id st ]} ∪ c) s). intros s1.
  induction ids as [|k ids IH]; simpl.
  - by exists [].
  - destruct (Hids k) as [blk Hblk]; [by left|].
    destruct IH as (ds & Hrun & Hds); [intros; apply Hids; by right|].
    eexists (_ :: ds). split.
    + erewrite bind_ok.
      2:{ unfold load_item, _get_block_from_structure, encode_key_for_mongo.
          rewrite Hblk. reflexivity. }
      erewrite bind_ok by exact Hrun. reflexivity.
    + rewrite !fmap_cons. by rewrite Hds.
Qed.

Lemma get_items_run (l : locator) (qualifiers : list (string * pyvalue))
    (f : block → bool) (s : store) (env : envelope) (st : structure) :
  _lookup_course l s = (inr env, s) →
  env_structure env = Some st →
  (∀ k blk, s_blocks st !! k = Some blk →
     _block_matches (block_to_py blk) qualifiers = inr (f blk)) →
  ∃ ds s',
    get_items l (Some qualifiers) s = (inr ds, s')
    ∧ (λ d, l_block_id (x_location d)) <$> ds
      = Some <$> (filter (λ kv, f kv.2 = true) (map_to_list (s_blocks st))).*1.
Proof.
  intros Hlook Hst Hf. unfold get_items. cbv zeta. simpl default.
  erewrite bind_ok by exact Hlook. rewrite Hst.
  erewrite bind_ok by reflexivity.
  erewrite bind_ok.
  2:{ apply (select_run qualifiers f). intros k blk Hin.
      apply elem_of_map_to_list in Hin. eauto. }
  simpl app. case_bool_decide as Hlen.
  - destruct (load_items_found env st
                (filter (λ kv, f kv.2 = true) (map_to_list (s_blocks st))).*1 s Hst)
      as (ds & Hrun & Hds).
    { intros k Hk. apply list_elem_of_fmap in Hk as ([k' blk] & -> & Hk).
      apply list_elem_of_filter in Hk as [_ Hk].
      apply elem_of_map_to_list in Hk. eauto. }
    eauto.
  - exists [], s. split; [done|].
    destruct ((filter _ _).*1) as [|x xs]; [done|]. simpl in Hlen. lia.
Qed.

(** X17: [get_items] on a locator that resolves to a structure: without
    qualifiers it returns every block, in the order of the blocks; the
    qualifier [{'category': c}] selects the blocks of category [c], and
    [{'fields': {'children': b}}] the blocks that have [b] among their
    children, which are the parents that [_get_parents_from_structure]
    finds. A qualifier on any other key than the four that a block has,
    ['children'] at the top level among them, selects nothing unless its
    criterion is [None]. *)
Theorem get_items_selects (l : locator) (s : store) (env : envelope)
    (st : structure) :
  _lookup_course l s = (inr env, s) →
  env_structure env = Some st →
  (∀ qualifiers, qualifiers = None ∨ qualifiers = Some [] →
     ∃ ds s', get_items l qualifiers s = (inr ds, s')
              ∧ (λ d, l_block_id (x_location d)) <$> ds
                = Some <$> (map_to_list (s_blocks st)).*1)
  ∧ (∀ c, ∃ ds s',
       get_items l (Some [("category", PyStr c)]) s = (inr ds, s')
       ∧ ∀ k, Some k ∈ (λ d, l_block_id (x_location d)) <$> ds
              ↔ ∃ blk, s_blocks st !! k = Some blk ∧ b_category blk = c)
  ∧ (∀ b, ∃ ds s',
       get_items l (Some [("fields", PyDict [("children", PyStr b)])]) s
       = (inr ds, s')
       ∧ ∀ k, Some k ∈ (λ d, l_block_id (x_location d)) <$> ds
              ↔ k ∈ _get_parents_from_structure b st)
  ∧ (∀ key criteria,
       key ∉ ["category"; "definition"; "fields"; "edit_info"] →
       criteria ≠ PyNone →
       get_items l (Some [(key, criteria)]) s = (inr [], s)).
Proof.
  intros Hlook Hst.
  assert (Hmem : ∀ (f : block → bool) (ids : list (option string)) k,
            ids = Some <$> (filter (λ kv, f kv.2 = true)
                                   (map_to_list (s_blocks st))).*1 →
            Some k ∈ ids ↔ ∃ blk, s_blocks st !! k = Some blk ∧ f blk = true).
  { intros f ids k ->. rewrite list_elem_of_fmap. split.
    - intros (k' & [= <-] & Hk).
      apply list_elem_of_fmap in Hk as ([k' blk] & -> & Hk).
      apply list_elem_of_filter in Hk as [Hfb Hk].
      apply elem_of_map_to_list in Hk. eauto.
    - intros (blk & Hk & Hfb). exists k. split; [done|].
      apply list_elem_of_fmap. exists (k, blk). split; [done|].
      apply list_elem_of_filter. split; [done|]. by apply elem_of_map_to_list. }
  split; [|split; [|split]].
  - intros qualifiers Hq.
    destruct (get_items_run l [] (λ _, true) s env st Hlook Hst)
      as (ds & s' & Hrun & Hds); [done|].
    exists ds, s'. split.
    + destruct Hq as [-> | ->]; exact Hrun.
    + rewrite Hds. f_equal. f_equal.
      generalize (map_to_list (s_blocks st)). clear.
      intros entries. induction entries as [|kv entries IH]; [done|].
      rewrite filter_cons_True by done. by f_equal.
  - intros c.
    destruct (get_items_run l [("category", PyStr c)]
                (λ blk, bool_decide (b_category blk = c))
                s env st Hlook Hst) as (ds & s' & Hrun & Hds).
    { intros k blk _. apply block_matches_category. }
    exists ds, s'. split; [exact Hrun|]. intros k.
    rewrite (Hmem (λ blk, bool_decide (b_category blk = c)) _ k Hds). split.
    + intros (blk & Hk & Hc%bool_decide_eq_true). eauto.
    + intros (blk & Hk & Hc). exists blk. split; [done|].
      by apply bool_decide_eq_true.
  - intros b.
    destruct (get_items_run l [("fields", PyDict [("children", PyStr b)])]
                (λ blk, bool_decide (b ∈ get_children (b_fields blk)))
                s env st Hlook Hst) as (ds & s' & Hrun & Hds).
    { intros k blk _. apply block_matches_children. }
    exists ds, s'. split; [exact Hrun|]. intros k.
    rewrite (Hmem (λ blk, bool_decide (b ∈ get_children (b_fields blk))) _ k Hds).
    rewrite elem_of_get_parents. split.
    + intros (blk & Hk & Hc%bool_decide_eq_true). eauto.
    + intros (blk & Hk & Hc). exists blk. split; [done|].
      by apply bool_decide_eq_true.
  - intros key criteria Hkey Hcrit.
    destruct (get_items_run l [(key, criteria)] (λ _, false) s env st Hlook Hst)
      as (ds & s' & Hrun & Hds).
    { intros k blk _. by apply block_matches_unknown_key. }
    revert Hrun. unfold get_items. cbv zeta. simpl default.
    erewrite bind_ok by exact Hlook. rewrite Hst.
    erewrite bind_ok by reflexivity.
    erewrite bind_ok.
    2:{ apply (select_run _ (λ _, false)). intros k blk _.
        by apply block_matches_unknown_key. }
    rewrite filter_none by (intros [? ?] _; simpl; congruence).
    done.
Qed.

Lemma get_items_selects_witness :
  ∃ ds s',
    get_items draft_course (Some [("category", PyStr "chapter")]) forked_store
    = (inr ds, s')
    ∧ ∀ k, Some k ∈ (λ d, l_block_id (x_location d)) <$> ds
           ↔ ∃ blk, s_blocks forked_head !! k = Some blk
                    ∧ b_category blk = "chapter".
Proof.
  destruct (get_items_selects draft_course forked_store
              (Envelope (Some "edu") (Some "draft") (Some forked_head))
              forked_head eq_refl eq_refl)
    as (_ & Hcategory & _).
  exact (Hcategory "chapter").
Defined.

(** ** The courses of a branch *)

(** The first loop of [get_courses]: the heads, and a course for each. *)
Lemma collect_heads_run (branch : string) (matching : list course_index)
    (version_guids : list N) (id_version_map : gmap N string) (s : store) :
  (∀ idx, idx ∈ matching → is_Some (ci_versions idx !! branch)) →
  ∃ vs m',
    foldM (λ '(version_guids, id_version_map) structure,
             version_guid ← getitem (ci_versions structure !! branch);
             ret ((version_guids ++ [version_guid])%list,
                  <[version_guid := ci_id structure]> id_version_map))
          (version_guids, id_version_map) matching s
    = (inr ((version_guids ++ vs)%list, m'), s)
    ∧ (∀ v, v ∈ vs ↔ ∃ idx, idx ∈ matching ∧ ci_versions idx !! branch = Some v)
    ∧ (∀ v p, m' !! v = Some p →
         id_version_map !! v = Some p
         ∨ ∃ idx, idx ∈ matching ∧ ci_id idx = p
                  ∧ ci_versions idx !! branch = Some v)
    ∧ (∀ v, v ∈ vs ∨ is_Some (id_version_map !! v) → is_Some (m' !! v)).
Proof.
  revert version_guids id_version_map.
  induction matching as [|idx matching IH]; intros vg m Hall; simpl.
  - exists [], m. rewrite app_nil_r. split; [done|]. split.
    { intros v. split; [by intros ?%elem_of_nil|].
      intros (idx & Hin & _). by apply elem_of_nil in Hin. }
    split; [by left|]. intros v [Hv|?]; [by apply elem_of_nil in Hv|done].
  - destruct (Hall idx) as [v0 Hv0]; [by left|]. rewrite Hv0.
    erewrite bind_ok by reflexivity.
    destruct (IH (vg ++ [v0])%list (<[v0 := ci_id idx]> m))
      as (vs & m' & Hrun & Hvs & Hm' & Hdom).
    { intros idx' Hin. apply Hall. by right. }
    exists (v0 :: vs), m'. split.
    { rewrite Hrun. by rewrite <- app_assoc. }
    split; [|split].
    + intros v. rewrite elem_of_cons, Hvs. split.
      * intros [->|(idx' & Hin & Hv)]; [exists idx|exists idx'].
        -- split; [by left|done].
        -- split; [by right|done].
      * intros (idx' & [->|Hin]%elem_of_cons & Hv).
        -- left. congruence.
        -- right. eauto.
    + intros v p Hp. apply Hm' in Hp as [Hp|(idx' & Hin & Hid & Hv)].
      * apply lookup_insert_Some in Hp as [[<- <-]|[_ Hp]]; [|by left].
        right. exists idx. split; [by left|done].
      * right. exists idx'. split; [by right|done].
    + intros v [[->|Hv]%elem_of_cons|Hv]; apply Hdom.
      * right. rewrite lookup_insert_eq. by eexists.
      * by left.
      * right. rewrite lookup_insert_is_Some.
        destruct (decide (v0 = v)); [by left|by right].
Qed.

(** [_load_items] for one block of the structure. *)
Lemma load_items_single (env : envelope) (st : structure) (k : string)
    (blk : block) (s : store) :
  env_structure env = Some st → s_blocks st !! k = Some blk →
  ∃ d, _load_items env [k] s
       = (inr [d], set_course_cache (λ c, {[ s_id st ]} ∪ c) s)
       ∧ x_location d
         = Locator (env_package_id env) (env_branch env) (Some (s_id st)) (Some k).
Proof.
  intros Hst Hblk. unfold _load_items. rewrite Hst.
  erewrite bind_ok by reflexivity. erewrite bind_ok by reflexivity.
  simpl mapM.
  unfold load_item, _get_block_from_structure, encode_key_for_mongo.
  rewrite Hblk. eexists. split; reflexivity.
Qed.

(** The second loop of [get_courses]: the root of each structure found. *)
Lemma load_roots_run (branch : string) (id_version_map : gmap N string)
    (entries : list structure) (result : list descriptor) (s : store) :
  (∀ entry, entry ∈ entries →
     is_Some (id_version_map !! s_id entry)
     ∧ is_Some (s_blocks entry !! s_root entry)) →
  ∃ ds s',
    foldM (λ result entry,
             package_id ← getitem (id_version_map !! s_id entry);
             let envelope :=
               Envelope (Some package_id) (Some branch) (Some entry) in
             let root := s_root entry in
             items ← _load_items envelope [root];
             ret (result ++ items)%list)
          result entries s
    = (inr (result ++ ds)%list, s')
    ∧ structures s' = structures s
    ∧ course_indexes s' = course_indexes s
    ∧ definitions s' = definitions s
    ∧ Forall2 (λ entry d,
                 ∃ p, id_version_map !! s_id entry = Some p
                      ∧ x_location d
                        = Locator (Some p) (Some branch) (Some (s_id entry))
                                  (Some (s_root entry)))
              entries ds.
Proof.
  revert result s. induction entries as [|entry entries IH]; intros result s Hall;
    simpl foldM.
  - exists [], s. rewrite app_nil_r. split; [done|]. split; [done|].
    split; [done|]. split; [done|]. constructor.
  - destruct (Hall entry) as [[p Hp] [blk Hblk]]; [by left|].
    destruct (load_items_single
                (Envelope (Some p) (Some branch) (Some entry)) entry
                (s_root entry) blk s eq_refl Hblk) as (d & Hload & Hloc).
    erewrite bind_ok.
    2:{ rewrite Hp. erewrite bind_ok by reflexivity. cbv zeta.
        erewrite bind_ok by exact Hload. reflexivity. }
    destruct (IH (result ++ [d])%list
                 (set_course_cache (λ c, {[ s_id entry ]} ∪ c) s))
      as (ds & s' & Hrun & Hs & Hi & Hd & Hrel).
    { intros e He. apply Hall. by right. }
    exists (d :: ds), s'. split.
    { etransitivity; [exact Hrun|]. by rewrite <- app_assoc. }
    split; [done|]. split; [done|]. split; [done|].
    constructor; [|done]. exists p. done.
Qed.

(** X18: [get_courses] on a store whose documents are kept under their ids and
    whose head structures have their roots: it returns one root descriptor
    for each structure that is stored and is the head of the branch for
    some course, located in such a course at that version. Courses that
    share a head are reported once, and a head that is not stored is passed
    over. Structures, indexes and definitions are only read. *)
Theorem get_courses_heads (branch : string) (s : store) :
  (∀ p idx, course_indexes s !! p = Some idx → ci_id idx = p) →
  (∀ k st, structures s !! k = Some st → s_id st = k) →
  (∀ p idx v st,
     course_indexes s !! p = Some idx → ci_versions idx !! branch = Some v →
     structures s !! v = Some st → is_Some (s_blocks st !! s_root st)) →
  ∃ ds s',
    get_courses branch s = (inr ds, s')
    ∧ structures s' = structures s
    ∧ course_indexes s' = course_indexes s
    ∧ definitions s' = definitions s
    ∧ NoDup ((λ d, l_version_guid (x_location d)) <$> ds)
    ∧ (∀ d, d ∈ ds →
         ∃ p idx st,
           x_location d
           = Locator (Some p) (Some branch) (Some (s_id st)) (Some (s_root st))
           ∧ course_indexes s !! p = Some idx
           ∧ ci_versions idx !! branch = Some (s_id st)
           ∧ structures s !! s_id st = Some st)
    ∧ (∀ p idx v st,
         course_indexes s !! p = Some idx →
         ci_versions idx !! branch = Some v →
         structures s !! v = Some st →
         ∃ d, d ∈ ds ∧ l_version_guid (x_location d) = Some v).
Proof.
  intros Hikeys Hskeys Hroots. unfold get_courses.
  erewrite bind_ok by reflexivity.
  set (matching := filter (λ i, is_Some (ci_versions i !! branch))
                          (snd <$> map_to_list (course_indexes s))).
  assert (Hmatching : ∀ idx, idx ∈ matching
            ↔ course_indexes s !! ci_id idx = Some idx
              ∧ is_Some (ci_versions idx !! branch)).
  { intros idx. unfold matching. rewrite list_elem_of_filter, list_elem_of_fmap.
    split.
    - intros [Hb ([p idx'] & -> & Hin)]. apply elem_of_map_to_list in Hin.
      simpl in *. by rewrite (Hikeys _ _ Hin).
    - intros [Hidx Hb]. split; [done|]. exists (ci_id idx, idx).
      split; [done|]. by apply elem_of_map_to_list. }
  destruct (collect_heads_run branch matching [] ∅ s)
    as (vs & m' & Hrun & Hvs & Hm' & Hdom).
  { intros idx Hin. by apply Hmatching in Hin as [_ ?]. }
  erewrite bind_ok by exact Hrun. simpl app. cbv beta iota.
  erewrite bind_ok by reflexivity.
  set (entries := filter (λ st, s_id st ∈ vs)
                         (snd <$> map_to_list (structures s))).
  assert (Hentries : ∀ st, st ∈ entries
            ↔ structures s !! s_id st = Some st ∧ s_id st ∈ vs).
  { intros st. unfold entries. rewrite list_elem_of_filter, list_elem_of_fmap.
    split.
    - intros [Hv ([k st'] & -> & Hin)]. apply elem_of_map_to_list in Hin.
      simpl in *. pose proof (Hskeys _ _ Hin) as Hk.
      split; [by rewrite Hk|done].
    - intros [Hst Hv]. split; [done|]. exists (s_id st, st).
      split; [done|]. by apply elem_of_map_to_list. }
  assert (Hnd : NoDup (s_id <$> entries)).
  { unfold entries. apply NoDup_fmap_2_strong.
    - intros st1 st2 Hin1 Hin2 Heq.
      apply list_elem_of_filter in Hin1 as [_ Hin1].
      apply list_elem_of_filter in Hin2 as [_ Hin2].
      apply list_elem_of_fmap in Hin1 as ([k1 st1'] & -> & Hin1).
      apply list_elem_of_fmap in Hin2 as ([k2 st2'] & -> & Hin2).
      apply elem_of_map_to_list in Hin1, Hin2. simpl in *.
      rewrite <- (Hskeys _ _ Hin1) in Hin1. rewrite <- (Hskeys _ _ Hin2) in Hin2.
      congruence.
    - apply NoDup_filter, NoDup_fmap_2_strong; [|apply NoDup_map_to_list].
      intros [k1 st1] [k2 st2] Hin1 Hin2. simpl. intros <-.
      apply elem_of_map_to_list in Hin1, Hin2.
      pose proof (Hskeys _ _ Hin1). pose proof (Hskeys _ _ Hin2). congruence. }
  destruct (load_roots_run branch m' entries [] s)
    as (ds & s' & Hrun2 & Hs & Hi & Hd & Hrel).
  { intros st Hin. apply Hentries in Hin as [Hst Hv]. split.
    - apply Hdom. by left.
    - apply Hvs in Hv as (idx & Hin & Hv).
      apply Hmatching in Hin as [Hidx _]. by eapply Hroots. }
  exists ds, s'. split; [exact Hrun2|]. split; [done|]. split; [done|].
  split; [done|].
  assert (Hversions : (λ d, l_version_guid (x_location d)) <$> ds
                      = Some <$> (s_id <$> entries)).
  { clear -Hrel. induction Hrel as [|st d sts ds (p & _ & Hloc) _ IH]; [done|].
    rewrite !fmap_cons, IH, Hloc. done. }
  split; [|split].
  - rewrite Hversions. apply NoDup_fmap_2; [|done]. by intros x y [= ->].
  - intros d Hin. apply list_elem_of_lookup in Hin as [i Hi'].
    destruct (Forall2_lookup_r _ _ _ _ _ Hrel Hi') as (st & Hst & p & Hp & Hloc).
    apply list_elem_of_lookup_2 in Hst. apply Hentries in Hst as [Hst Hv].
    apply Hm' in Hp as [Hp|(idx & Hin & Hid & Hhead)];
      [by rewrite lookup_empty in Hp|].
    apply Hmatching in Hin as [Hidx _]. rewrite Hid in Hidx.
    exists p, idx, st. done.
  - intros p idx v st Hidx Hhead Hst.
    assert (Hin : st ∈ entries).
    { apply Hentries. pose proof (Hskeys _ _ Hst) as Hid. rewrite Hid.
      split; [done|]. apply Hvs. exists idx. split; [|done].
      apply Hmatching. rewrite (Hikeys _ _ Hidx). split; [done|]. by eexists. }
    apply list_elem_of_lookup in Hin as [i Hi'].
    destruct (Forall2_lookup_l _ _ _ _ _ Hrel Hi') as (d & Hd' & p' & Hp' & Hloc).
    exists d. split; [by eapply list_elem_of_lookup_2|].
    rewrite Hloc. simpl. by rewrite (Hskeys _ _ Hst).
Qed.

Lemma get_courses_heads_witness :
  ∃ ds s',
    get_courses "draft" forked_store = (inr ds, s')
    ∧ NoDup ((λ d, l_version_guid (x_location d)) <$> ds)
    ∧ ∃ d, d ∈ ds ∧ l_version_guid (x_location d) = Some 2%N.
Proof.
  destruct (get_courses_heads "draft" forked_store)
    as (ds & s' & Hrun & _ & _ & _ & Hnd & _ & Hall).
  - intros p idx Hp.
    apply (map_Forall_lookup_1 (λ p idx, ci_id idx = p)
                               (course_indexes forked_store));
      [by_decide|exact Hp].
  - intros k st Hk.
    apply (map_Forall_lookup_1 (λ k st, s_id st = k) (structures forked_store));
      [by_decide|exact Hk].
  - intros p idx v st _ _ Hst.
    apply (map_Forall_lookup_1 (λ _ st, is_Some (s_blocks st !! s_root st))
                               (structures forked_store) v);
      [by_decide|exact Hst].
  - exists ds, s'. split; [exact Hrun|]. split; [exact Hnd|].
    apply (Hall "edu" (course_of [("draft", 2%N)]) 2%N forked_head);
      reflexivity.
Defined.

(** ** The history of a definition *)

(** X19: A definition made by [create_definition_from_data] starts a history of
    its own: it has no previous version and is its own original. An edit of
    it by [update_definition_from_data] that changes the fields yields a
    definition whose previous version is the first one and whose original is
    still the first one, and leaves the history of the first one as it was.
    A definition that is not stored has no history, and cannot be edited. *)
Theorem definition_history_chain (s : store) (data data' : gmap string value)
    (category : string) (user user' : UserId) :
  let first := next_oid s in
  let second := N.succ (next_oid s) in
  ∃ s1,
    create_definition_from_data data category user s
    = (inr (DefinitionId first), s1)
    ∧ get_definition_history_info (DefinitionId first) s1
      = (inr (Some (DefinitionEditInfo user (clock s) None first)), s1)
    ∧ (_filter_special_fields data' ≠ _filter_special_fields data →
         ∃ s2,
           update_definition_from_data (DefinitionId first) data' user' s1
           = (inr (DefinitionId second, true), s2)
           ∧ get_definition_history_info (DefinitionId second) s2
             = (inr (Some (DefinitionEditInfo user' (clock s) (Some first) first)),
                s2)
           ∧ get_definition_history_info (DefinitionId first) s2
             = (inr (Some (DefinitionEditInfo user (clock s) None first)), s2))
    ∧ (∀ d, definitions s1 !! d = None →
         get_definition_history_info (DefinitionId d) s1 = (inr None, s1)
         ∧ update_definition_from_data (DefinitionId d) data' user' s1
           = (inl ItemNotFoundError, s1))
    ∧ get_definition_history_info LocalId s1 = (inr None, s1)
    ∧ update_definition_from_data LocalId data' user' s1
      = (inl ItemNotFoundError, s1).
Proof.
  intros first second. eexists. split; [reflexivity|].
  set (s1 := (create_definition_from_data data category user s).2).
  assert (Hfirst : definitions s1 !! first
                   = Some (DefinitionDoc first category
                             (_filter_special_fields data)
                             (DefinitionEditInfo user (clock s) None first))).
  { unfold s1. simpl. by rewrite lookup_insert_eq. }
  change (set_definitions _ _) with s1.
  split.
  { unfold get_definition_history_info, get_definition_by_locator,
      get_definition, gets.
    rewrite bind_unfold, Hfirst. reflexivity. }
  split; [|split; [|split]].
  - intros Hne.
    pose proof (update_definition_run s1 first _ data' user' Hfirst) as Hrun.
    destruct (needs_saved _ _) eqn:E;
      [|by apply needs_saved_false in E].
    eexists. split; [exact Hrun|].
    assert (Hsf : second ≠ first) by (unfold second, first; lia).
    split.
    + unfold get_definition_history_info, get_definition_by_locator,
        get_definition, gets.
      rewrite bind_unfold. simpl. rewrite lookup_insert_eq. reflexivity.
    + unfold get_definition_history_info, get_definition_by_locator,
        get_definition, gets.
      rewrite bind_unfold. simpl.
      rewrite lookup_insert_ne by done. rewrite lookup_insert_eq. reflexivity.
  - intros d Hd. split.
    + unfold get_definition_history_info, get_definition_by_locator,
        get_definition, gets.
      rewrite bind_unfold, Hd. reflexivity.
    + unfold update_definition_from_data, get_definition_by_locator,
        get_definition, gets.
      cbv zeta. rewrite bind_unfold, Hd. reflexivity.
  - reflexivity.
  - reflexivity.
Qed.

Lemma definition_history_chain_witness :
  ∃ s1 s2,
    create_definition_from_data ∅ "problem" "author" forked_store
    = (inr (DefinitionId 20), s1)
    ∧ update_definition_from_data (DefinitionId 20)
                                  {[ "data" := VStr "text" ]} "editor" s1
      = (inr (DefinitionId 21, true), s2)
    ∧ get_definition_history_info (DefinitionId 21) s2
      = (inr (Some (DefinitionEditInfo "editor" 100 (Some 20%N) 20)), s2).
Proof.
  destruct (definition_history_chain forked_store ∅ {[ "data" := VStr "text" ]}
              "problem" "author" "editor")
    as (s1 & Hcreate & _ & Hupdate & _).
  destruct Hupdate as (s2 & Hrun & Hinfo & _); [by_decide|].
  exists s1, s2. split; [exact Hcreate|]. split; [exact Hrun|]. exact Hinfo.
Defined.

(** ** A new course *)

(** [_generate_package_id] returns. *)
Lemma generate_package_id_returns (id_root : string) (s : store) :
  ∃ g, _generate_package_id id_root s = (inr g, s).
Proof.
  unfold _generate_package_id, find_course_indexes_by_id, gets.
  rewrite bind_unfold. case_bool_decide; eexists; reflexivity.
Qed.

(** X20: [create_course] with no version for the master branch builds the course
    from nothing: one definition, one structure whose only block is the root
    and which has no previous version, and the index of the course with the
    master branch at that structure, under the package id generated from
    [id_root] or [org]. Nothing that was stored is replaced unless it was
    stored under one of the two new ids. The descriptor that comes back is
    the root of the new course, and [get_course], [get_course_history_info]
    and [get_course_index_info] find the course as it was created. *)
Theorem create_course_fresh (org prettyid user : string)
    (id_root : option string) (fields : option partitioned_fields)
    (master : string) (versions_dict : option (gmap string ObjectId))
    (root_category root_block_id : string) (s : store) :
  versions_dict ≫= (λ d, d !! master) = None →
  let partitioned := default no_fields fields in
  let definition :=
    DefinitionDoc (next_oid s) root_category
                  (_filter_special_fields (scope_content partitioned))
                  (DefinitionEditInfo user (clock s) None (next_oid s)) in
  let new_id := N.succ (next_oid s) in
  let root :=
    Block root_category (next_oid s)
          (BlockFields (scope_settings partitioned) (scope_children partitioned))
          (BlockEditInfo (clock s) user None new_id) in
  let draft :=
    Structure new_id root_block_id None new_id user (clock s)
              {[ root_block_id := root ]} in
  ∃ g d s',
    _generate_package_id (default org id_root) s = (inr g, s)
    ∧ let index :=
        CourseIndex g org prettyid user (clock s)
                    (<[master := new_id]> (default ∅ versions_dict)) in
      let course := CourseLocator (Some g) (Some master) None in
      create_course org prettyid user id_root fields master versions_dict
                    root_category root_block_id s
      = (inr d, s')
      ∧ definitions s' = <[next_oid s := definition]> (definitions s)
      ∧ structures s' = <[new_id := draft]> (structures s)
      ∧ course_indexes s' = <[g := index]> (course_indexes s)
      ∧ d = Descriptor
              (Locator (Some g) (Some master) (Some new_id) (Some root_block_id))
              (DefinitionId (next_oid s))
              (_filter_special_fields (scope_content partitioned))
              (scope_settings partitioned)
              (bool_decide (is_Some (scope_children partitioned)))
              (default [] (scope_children partitioned))
      ∧ get_course course s' = (inr d, s')
      ∧ get_course_history_info course s'
        = (inr (HistoryInfo new_id None user (clock s)), s')
      ∧ get_course_index_info course s' = (inr (Some index), s').
Proof.
  intros Hmaster partitioned definition new_id root draft.
  destruct (generate_package_id_returns (default org id_root) s) as [g Hg].
  exists g. eexists _, _. split; [exact Hg|]. cbv zeta.
  set (index := CourseIndex g org prettyid user (clock s)
                  (<[master := new_id]> (default ∅ versions_dict))).
  set (s1 := set_structures (insert new_id draft)
               (set_definitions (insert (next_oid s) definition)
                  (Store (course_indexes s) (structures s) (definitions s)
                         (N.succ (N.succ (next_oid s))) (clock s)
                         (course_cache s)))).
  assert (Hg1 : _generate_package_id (default org id_root) s1 = (inr g, s1)).
  { pose proof (generate_package_id_indexes (default org id_root) s s1 eq_refl)
      as Heq.
    pose proof (read_only_generate_package_id (default org id_root) s1) as Hro.
    rewrite Hg in Heq. simpl in Heq.
    destruct (_generate_package_id (default org id_root) s1) as [r s1'].
    simpl in *. by subst. }
  set (s2 := set_course_indexes (insert g index) s1).
  assert (Hlook : ∀ s3, course_indexes s3 = course_indexes s2 →
                        structures s3 = structures s2 →
            _lookup_course (CourseLocator (Some g) (Some master) None) s3
            = (inr (Envelope (Some g) (Some master) (Some draft)), s3)).
  { intros s3 Hi3 Hs3.
    erewrite (lookup_course_head s3 _ g master index new_id);
      [|done|done| |by apply lookup_insert_eq|by left].
    - rewrite Hs3. simpl. by rewrite lookup_insert_eq.
    - rewrite Hi3. simpl. by rewrite lookup_insert_eq. }
  assert (Hget : ∀ s3, course_indexes s3 = course_indexes s2 →
                       structures s3 = structures s2 →
                       definitions s3 = definitions s2 →
            get_course (CourseLocator (Some g) (Some master) None) s3
            = (inr (Descriptor
                      (Locator (Some g) (Some master) (Some new_id)
                               (Some root_block_id))
                      (DefinitionId (next_oid s))
                      (_filter_special_fields (scope_content partitioned))
                      (scope_settings partitioned)
                      (bool_decide (is_Some (scope_children partitioned)))
                      (default [] (scope_children partitioned))),
               set_course_cache (λ c, {[ new_id ]} ∪ c) s3)).
  { intros s3 Hi3 Hs3 Hd3. unfold get_course.
    erewrite bind_ok by (by apply Hlook).
    erewrite bind_ok by reflexivity.
    erewrite bind_ok.
    2:{ unfold _load_items. simpl env_structure.
        erewrite bind_ok by reflexivity. erewrite bind_ok by reflexivity.
        simpl mapM.
        unfold load_item, _get_block_from_structure, encode_key_for_mongo.
        simpl s_blocks. simpl s_root. rewrite lookup_singleton_eq.
        unfold get_definition, gets. rewrite !bind_unfold.
        cbn [definitions set_course_cache]. rewrite Hd3.
        cbn [definitions s2 s1 set_course_indexes set_structures set_definitions].
        cbn [b_definition root]. rewrite lookup_insert_eq. reflexivity. }
    reflexivity. }
  split.
  { unfold create_course. cbv zeta. rewrite Hmaster.
    erewrite bind_ok by reflexivity.
    change (s_id _) with new_id.
    erewrite bind_ok by exact Hg1.
    erewrite bind_ok by reflexivity.
    erewrite bind_ok by reflexivity.
    apply (Hget s2); reflexivity. }
  split; [reflexivity|]. split; [reflexivity|]. split; [reflexivity|].
  split; [reflexivity|]. split; [|split].
  - etransitivity; [apply Hget; reflexivity|]. f_equal.
    unfold set_course_cache. simpl. f_equal.
    by rewrite (assoc_L (∪)), (idemp_L (∪)).
  - unfold get_course_history_info.
    erewrite bind_ok by (by apply Hlook). reflexivity.
  - unfold get_course_index_info, get_course_index, gets. simpl.
    by rewrite lookup_insert_eq.
Qed.

Lemma create_course_fresh_witness :
  ∃ d s',
    create_course "edu" "Education" "editor" None None "draft" None "course"
                  "course" forked_store
    = (inr d, s')
    ∧ x_location d
      = Locator (Some "edu1") (Some "draft") (Some 21%N) (Some "course")
    ∧ get_course (CourseLocator (Some "edu1") (Some "draft") None) s'
      = (inr d, s')
    ∧ get_course_history_info (CourseLocator (Some "edu1") (Some "draft") None)
                              s'
      = (inr (HistoryInfo 21 None "editor" 100), s').
Proof.
  destruct (create_course_fresh "edu" "Education" "editor" None None "draft"
              None "course" "course" forked_store eq_refl)
    as (g & d & s' & Hg & Hrun & _ & _ & _ & Hd & Hget & Hinfo & _).
  assert (Hedu : g = "edu1").
  { assert (Hgen : _generate_package_id "edu" forked_store
                   = (inr "edu1", forked_store)) by (by vm_compute).
    simpl in Hg. rewrite Hgen in Hg. by injection Hg as <-. }
  subst g. exists d, s'. split; [exact Hrun|].
  split; [by rewrite Hd|]. split; [exact Hget|]. exact Hinfo.
Defined.

(** ** The parents of a block *)

(** X21: [get_parent_locations] for a locator that names a block of a course that
    is found: the store is only read, and a block of the course is listed
    once for each time the block named occurs among its children, so the
    parents are the blocks that list it. Whether the block named exists is
    not looked at: a block that no block lists has no parents. *)
Theorem get_parent_locations_counts (l : locator) (b : BlockId) (s : store)
    (env : envelope) (st : structure) :
  l_block_id l = Some b →
  _lookup_course l s = (inr env, s) →
  env_structure env = Some st →
  ∃ ps,
    get_parent_locations l s = (inr ps, s)
    ∧ (∀ p, occurrences p ps
            = match s_blocks st !! p with
              | Some blk => occurrences b (get_children (b_fields blk))
              | None => 0%nat
              end)
    ∧ (∀ p, p ∈ ps
            ↔ ∃ blk, s_blocks st !! p = Some blk
                     ∧ b ∈ get_children (b_fields blk))
    ∧ ((∀ p blk, s_blocks st !! p = Some blk →
          b ∉ get_children (b_fields blk)) →
       ps = []).
Proof.
  intros Hb Hlook Hst. eexists. split.
  { unfold get_parent_locations. erewrite bind_ok by exact Hlook.
    rewrite Hst, Hb. reflexivity. }
  unfold decode_key_from_mongo. rewrite list_fmap_id.
  split; [apply get_parents_occurrences|]. split.
  - apply elem_of_get_parents.
  - intros Hnone.
    destruct (_get_parents_from_structure b st) as [|p ps] eqn:E; [done|].
    assert (Hin : p ∈ _get_parents_from_structure b st)
      by (rewrite E; by left).
    apply elem_of_get_parents in Hin as (blk & Hblk & Hin).
    by destruct (Hnone _ _ Hblk).
Qed.

Lemma get_parent_locations_counts_witness :
  ∃ ps,
    get_parent_locations chapter_locator forked_store = (inr ps, forked_store)
    ∧ (∀ p, p ∈ ps
            ↔ ∃ blk, s_blocks forked_head !! p = Some blk
                     ∧ "chapter1" ∈ get_children (b_fields blk)).
Proof.
  destruct (get_parent_locations_counts chapter_locator "chapter1" forked_store
              (Envelope (Some "edu") (Some "draft") (Some forked_head))
              forked_head eq_refl eq_refl eq_refl)
    as (ps & Hrun & _ & Hin & _).
  exists ps. split; [exact Hrun|]. exact Hin.
Defined.

(** ** Deleting a subtree *)

Lemma below_root (m : gmap string block) (roots : list string) (c : string) :
  c ∈ roots → below m roots c.
Proof. intros Hc. exists c. split; [done|]. apply rtc_refl. Qed.

Lemma below_child (m : gmap string block) (roots : list string) (x y : string) :
  below m roots x → child_in m x y → below m roots y.
Proof.
  intros (c & Hc & Hr) Hxy. exists c. split; [done|]. by eapply rtc_r.
Qed.

Lemma below_rtc (m : gmap string block) (roots : list string) (x y : string) :
  below m roots x → rtc (child_in m) x y → below m roots y.
Proof.
  intros (c & Hc & Hr) Hxy. exists c. split; [done|]. by etransitivity.
Qed.


Lemma removed_from_union (m ma m' : gmap string block) (D1 D2 : gset string) :
  removed_from m D1 ma → removed_from ma D2 m' → removed_from m (D1 ∪ D2) m'.
Proof.
  intros H1 H2 k. rewrite (H2 k), (H1 k).
  destruct (decide (k ∈ D1 ∪ D2)) as [Hu|Hu]; rewrite elem_of_union in Hu;
    destruct (decide (k ∈ D2)), (decide (k ∈ D1)); try done; tauto.
Qed.

Lemma removed_from_child (m m' : gmap string block) (D : gset string) x y :
  removed_from m D m' → child_in m' x y → child_in m x y.
Proof.
  intros Hm (blk & Hx & Hy). exists blk. split; [|done].
  rewrite (Hm x) in Hx. by destruct (decide (x ∈ D)).
Qed.

(** The loop over the children, for a body [f] that removes the descendants
    of a block. *)
Lemma remove_loop_sound (f : gmap string block → string → M (gmap string block)) :
  (∀ m b s m' s',
     f m b s = (inr m', s') →
     s' = s ∧ ∃ D : gset string,
                (∀ k, k ∈ D ↔ rtc (child_in m) b k) ∧ removed_from m D m') →
  ∀ cs m s m' s',
    foldM f m cs s = (inr m', s') →
    s' = s ∧ ∃ D : gset string,
               (∀ k, k ∈ D ↔ below m cs k) ∧ removed_from m D m'.
Proof.
  intros Hf. induction cs as [|c cs IHcs]; intros m s m' s' H.
  - injection H as <- <-. split; [done|]. exists ∅. split.
    + intros k. split; [by intros ?%elem_of_empty|].
      intros (c & Hc & _). by apply elem_of_nil in Hc.
    + intros k. by destruct (decide (k ∈ ∅)) as [?%elem_of_empty|].
  - simpl in H. inv_bind H ma sa Ha.
    apply Hf in Ha as (-> & D1 & HD1 & Hma).
    apply IHcs in H as (-> & D2 & HD2 & Hm').
    split; [done|]. exists (D1 ∪ D2).
    split; [|by eapply removed_from_union].
    intros k. rewrite elem_of_union, HD1, HD2. split.
    + intros [Hk|(c' & Hc' & Hk)].
      * exists c. split; [by left|done].
      * exists c'. split; [by right|].
        eapply rtc_subrel; [|exact Hk].
        intros x y. by apply removed_from_child with D1.
    + intros (c' & [->|Hc']%elem_of_cons & Hk); [by left|].
      assert (Hor : rtc (child_in m) c k ∨ rtc (child_in ma) c' k).
      { clear Hc'. induction Hk as [x|x y z Hxy Hyz IHk];
          [right; apply rtc_refl|].
        destruct IHk as [Hz|Hz]; [by left|].
        destruct (decide (x ∈ D1)) as [Hx|Hx].
        - left. apply HD1 in Hx. etransitivity; [exact Hx|].
          by eapply rtc_l.
        - right. eapply rtc_l; [|exact Hz].
          destruct Hxy as (blk & Hblk & Hy). exists blk.
          split; [|done]. rewrite (Hma x). by rewrite decide_False. }
      destruct Hor as [Hk'|Hk']; [by left|]. right. exists c'. eauto.
Qed.

(** Removing a subtree removes the descendants of its root, and only
    them. *)
Lemma remove_subtree_sound (fuel : nat) (m : gmap string block) (b : string)
    (s : store) (m' : gmap string block) (s' : store) :
  remove_subtree fuel m b s = (inr m', s') →
  s' = s
  ∧ ∃ D : gset string,
      (∀ k, k ∈ D ↔ rtc (child_in m) b k) ∧ removed_from m D m'.
Proof.
  revert m b s m' s'. induction fuel as [|fuel IH]; intros m b s m' s' H;
    [discriminate|].
  simpl in H. unfold encode_key_for_mongo in H.
  inv_bind H blk s1 H1.
  destruct (m !! b) as [blk0|] eqn:Hb; [|discriminate].
  injection H1 as <- <-.
  inv_bind H mn s2 H2.
  apply (remove_loop_sound _ IH) in H2 as (-> & Dn & HDn & Hmn).
  unfold del_block in H. case_bool_decide as Hin; [|discriminate].
  injection H as <- <-. split; [done|].
  exists ({[ b ]} ∪ Dn). split.
  - intros k. rewrite elem_of_union, elem_of_singleton, HDn. split.
    + intros [->|(c & Hc & Hk)]; [apply rtc_refl|].
      eapply rtc_l; [|exact Hk]. by exists blk0.
    + intros [->|(y & (blk' & Hblk' & Hy) & Hk)]%rtc_inv; [by left|].
      right. exists y. split; [|done]. congruence.
  - intros k. destruct (decide (k = b)) as [->|Hne].
    + rewrite lookup_delete_eq.
      rewrite decide_True; [done|]. apply elem_of_union. left.
      by apply elem_of_singleton.
    + rewrite lookup_delete_ne by done. rewrite (Hmn k).
      destruct (decide (k ∈ {[b]} ∪ Dn)) as [Hu|Hu];
        rewrite elem_of_union, elem_of_singleton in Hu;
        destruct (decide (k ∈ Dn)); try done; tauto.
Qed.

Lemma remove_forest_sound (fuel : nat) (cs : list string)
    (m : gmap string block) (s : store) (m' : gmap string block) (s' : store) :
  foldM (remove_subtree fuel) m cs s = (inr m', s') →
  s' = s
  ∧ ∃ D : gset string, (∀ k, k ∈ D ↔ below m cs k) ∧ removed_from m D m'.
Proof.
  apply remove_loop_sound. intros m0 b s0 m1 s1.
  apply remove_subtree_sound.
Qed.

Lemma forest_rank_le (m : gmap string block) (roots : list string)
    (rank : string → nat) (x y : string) :
  forest m roots rank → below m roots x → rtc (child_in m) x y →
  (rank y ≤ rank x)%nat.
Proof.
  intros F Hx Hxy. induction Hxy as [x|x y z Hxy Hyz IH]; [lia|].
  pose proof (forest_rank _ _ _ F x y Hx Hxy).
  assert (rank z ≤ rank y)%nat by (apply IH; by eapply below_child).
  lia.
Qed.

(** The trees of two roots share no block. *)
Lemma forest_disjoint (m : gmap string block) (roots : list string)
    (rank : string → nat) (c c' k : string) :
  forest m roots rank → c ∈ roots → c' ∈ roots → c ≠ c' →
  rtc (child_in m) c k → rtc (child_in m) c' k → False.
Proof.
  intros F Hc Hc' Hne Hk. revert k Hk.
  apply (rtc_ind_r (λ k, rtc (child_in m) c' k → False)).
  - intros [?|(y & Hy & Hyc)]%rtc_inv_r; [congruence|].
    apply (forest_top _ _ _ F y c); [by exists c'|done..].
  - intros y z Hy Hyz IH [<-|(y' & Hy' & Hyz')]%rtc_inv_r.
    + apply (forest_top _ _ _ F y c'); [by exists c|done..].
    + apply IH.
      rewrite (forest_parent _ _ _ F y y' z); [done| | |done..].
      * by exists c.
      * by exists c'.
Qed.

Lemma forest_sub (m : gmap string block) (roots roots' : list string)
    (rank : string → nat) :
  forest m roots rank → NoDup roots' → roots' ⊆ roots → forest m roots' rank.
Proof.
  intros F Hnd Hsub.
  assert (Hbelow : ∀ k, below m roots' k → below m roots k).
  { intros k (c & Hc & Hk). exists c. split; [by apply Hsub|done]. }
  split.
  - done.
  - intros k Hk. apply (forest_present _ _ _ F). by apply Hbelow.
  - intros x blk Hx. apply (forest_children _ _ _ F). by apply Hbelow.
  - intros x x' y Hx Hx'. apply (forest_parent _ _ _ F); by apply Hbelow.
  - intros x c Hx Hc. apply (forest_top _ _ _ F); [by apply Hbelow|].
    by apply Hsub.
  - intros x y Hx. apply (forest_rank _ _ _ F). by apply Hbelow.
Qed.

(** The children of a block of a forest are the roots of a forest. *)
Lemma forest_children_of (m : gmap string block) (roots : list string)
    (rank : string → nat) (b : string) (blk : block) :
  forest m roots rank → below m roots b → m !! b = Some blk →
  forest m (get_children (b_fields blk)) rank.
Proof.
  intros F Hb Hblk.
  assert (Hbelow : ∀ k, below m (get_children (b_fields blk)) k
                        → below m roots k).
  { intros k (c & Hc & Hk). eapply below_rtc; [|exact Hk].
    eapply below_child; [exact Hb|]. by exists blk. }
  split.
  - by eapply (forest_children _ _ _ F).
  - intros k Hk. apply (forest_present _ _ _ F). by apply Hbelow.
  - intros x blk' Hx. apply (forest_children _ _ _ F). by apply Hbelow.
  - intros x x' y Hx Hx'. apply (forest_parent _ _ _ F); by apply Hbelow.
  - intros x c Hx Hc Hxc.
    assert (Hbc : child_in m b c) by (by exists blk).
    assert (x = b).
    { apply (forest_parent _ _ _ F x b c); [by apply Hbelow|done..]. }
    subst x. destruct Hx as (c0 & Hc0 & Hc0b).
    assert (Hbc0 : child_in m b c0) by (by exists blk).
    pose proof (forest_rank _ _ _ F b c0 Hb Hbc0).
    assert (rank b ≤ rank c0)%nat.
    { eapply forest_rank_le; [exact F| |exact Hc0b].
      by eapply below_child. }
    lia.
  - intros x y Hx. apply (forest_rank _ _ _ F). by apply Hbelow.
Qed.

(** A forest stays one when blocks lose children, as long as the blocks
    below the roots are still there. *)
Lemma forest_shrink (m m1 : gmap string block) (roots : list string)
    (rank : string → nat) :
  forest m roots rank →
  (∀ k blk1, m1 !! k = Some blk1 →
     ∃ blk, m !! k = Some blk
            ∧ get_children (b_fields blk1)
              `sublist_of` get_children (b_fields blk)) →
  (∀ k, below m1 roots k → is_Some (m1 !! k)) →
  forest m1 roots rank.
Proof.
  intros F Hshrink Hpresent.
  assert (Hchild : ∀ x y, child_in m1 x y → child_in m x y).
  { intros x y (blk1 & Hx & Hy).
    destruct (Hshrink _ _ Hx) as (blk & Hblk & Hsub).
    exists blk. split; [done|]. by eapply sublist_subseteq. }
  assert (Hbelow : ∀ k, below m1 roots k → below m roots k).
  { intros k (c & Hc & Hk). exists c. split; [done|].
    by eapply rtc_subrel. }
  split.
  - apply (forest_roots _ _ _ F).
  - done.
  - intros x blk1 Hx Hblk1.
    destruct (Hshrink _ _ Hblk1) as (blk & Hblk & Hsub).
    eapply sublist_NoDup; [|exact Hsub].
    eapply (forest_children _ _ _ F); [|exact Hblk]. by apply Hbelow.
  - intros x x' y Hx Hx' Hxy Hx'y.
    apply (forest_parent _ _ _ F x x' y); auto.
  - intros x c Hx Hc Hxc. apply (forest_top _ _ _ F x c); auto.
  - intros x y Hx Hxy. apply (forest_rank _ _ _ F); auto.
Qed.

(** Removing the subtree of a block of a forest succeeds. *)
Lemma remove_subtree_runs (fuel : nat) (m : gmap string block) (b : string)
    (rank : string → nat) (s : store) :
  forest m [b] rank → (rank b < fuel)%nat →
  ∃ m', remove_subtree fuel m b s = (inr m', s).
Proof.
  revert m b. induction fuel as [|fuel IH]; intros m b F Hrank; [lia|].
  assert (Hb : below m [b] b) by (apply below_root; by left).
  destruct (forest_present _ _ _ F b Hb) as [blk Hblk].
  pose proof (forest_children_of _ _ _ _ _ F Hb Hblk) as Fcs.
  assert (Hranks : ∀ c, c ∈ get_children (b_fields blk) → (rank c < fuel)%nat).
  { intros c Hc.
    assert (rank c < rank b)%nat; [|lia].
    apply (forest_rank _ _ _ F b c Hb). by exists blk. }
  assert (Hloop : ∀ cs m0,
            forest m0 cs rank → (∀ c, c ∈ cs → (rank c < fuel)%nat) →
            ∃ m1, foldM (remove_subtree fuel) m0 cs s = (inr m1, s)).
  { clear -IH. induction cs as [|c cs IHcs]; intros m0 F Hranks.
    - by exists m0.
    - pose proof (forest_roots _ _ _ F) as Hnd.
      apply NoDup_cons in Hnd as [Hnotin Hnd].
      destruct (IH m0 c) as [ma Hma].
      { apply (forest_sub _ _ _ _ F); [apply NoDup_singleton|].
        intros x ->%list_elem_of_singleton. by left. }
      { apply Hranks. by left. }
      destruct (remove_subtree_sound _ _ _ _ _ _ Hma) as (_ & D1 & HD1 & Hrem).
      destruct (IHcs ma) as [m1 Hm1].
      { assert (Fcs : forest m0 cs rank).
        { apply (forest_sub _ _ _ _ F); [done|]. intros x Hx. by right. }
        apply (forest_shrink m0); [done| |].
        - intros k blk1 Hk. exists blk1. split; [|done].
          rewrite (Hrem k) in Hk. by destruct (decide (k ∈ D1)).
        - intros k Hk.
          assert (Hk0 : below m0 cs k).
          { destruct Hk as (c' & Hc' & Hk). exists c'. split; [done|].
            eapply rtc_subrel; [|exact Hk].
            intros x y. by apply removed_from_child with D1. }
          rewrite (Hrem k). destruct (decide (k ∈ D1)) as [HkD|_].
          + exfalso. apply HD1 in HkD. destruct Hk0 as (c' & Hc' & Hk0).
            apply (forest_disjoint m0 (c :: cs) rank c c' k F);
              [by left|by right| |done..].
            intros ->. done.
          + by apply (forest_present _ _ _ Fcs). }
      { intros c' Hc'. apply Hranks. by right. }
      exists m1. simpl. erewrite bind_ok by exact Hma. exact Hm1. }
  destruct (Hloop _ m Fcs Hranks) as [mn Hmn].
  destruct (remove_forest_sound _ _ _ _ _ _ Hmn) as (_ & Dn & HDn & Hrem).
  exists (delete b mn). simpl. unfold encode_key_for_mongo. rewrite Hblk.
  erewrite bind_ok by reflexivity.
  erewrite bind_ok by exact Hmn.
  unfold del_block. rewrite bool_decide_eq_true_2; [done|].
  rewrite (Hrem b). destruct (decide (b ∈ Dn)) as [HbD|_]; [|by eexists].
  exfalso. apply HDn in HbD as (c & Hc & Hcb).
  assert (Hbc : child_in m b c) by (by exists blk).
  pose proof (forest_rank _ _ _ F b c Hb Hbc).
  assert (rank b ≤ rank c)%nat.
  { eapply forest_rank_le; [exact F| |exact Hcb]. by eapply below_child. }
  lia.
Qed.

Lemma forallb_elem_of {A} (f : A → bool) (l : list A) :
  forallb f l = true ↔ ∀ x, x ∈ l → f x = true.
Proof.
  rewrite forallb_forall. split; intros H x Hx; apply H;
    by apply list_elem_of_In.
Qed.

Lemma child_in_children_of (m : gmap string block) (x y : string) :
  child_in m x y ↔ y ∈ children_of m x.
Proof.
  unfold child_in, children_of. split.
  - intros (blk & -> & Hy). done.
  - destruct (m !! x) as [blk|]; simpl; [eauto|]. by intros ?%elem_of_nil.
Qed.

Lemma forest_check_sound (m : gmap string block) (roots D : list string)
    (rank : string → nat) :
  forest_check m roots D rank = true → forest m roots rank.
Proof.
  unfold forest_check. rewrite !andb_true_iff, !forallb_elem_of.
  intros [[Hnd Hroots] HD]. apply bool_decide_eq_true in Hnd.
  assert (Hin : ∀ k, below m roots k → k ∈ D).
  { intros k (c & Hc & Hk).
    assert (Hc' : c ∈ D).
    { specialize (Hroots c Hc). by apply bool_decide_eq_true in Hroots. }
    clear Hc. induction Hk as [x|x y z Hxy Hyz IH]; [done|]. apply IH.
    specialize (HD x Hc'). rewrite !andb_true_iff, !forallb_elem_of in HD.
    destruct HD as [[_ Hcs] _].
    apply child_in_children_of in Hxy. specialize (Hcs y Hxy).
    rewrite !andb_true_iff in Hcs. destruct Hcs as [[Hy _] _].
    by apply bool_decide_eq_true in Hy. }
  split.
  - done.
  - intros k Hk. specialize (HD k (Hin k Hk)).
    rewrite !andb_true_iff in HD. destruct HD as [[[Hk' _] _] _].
    by apply bool_decide_eq_true in Hk'.
  - intros x blk Hx Hblk. specialize (HD x (Hin x Hx)).
    rewrite !andb_true_iff in HD. destruct HD as [[[_ Hcs] _] _].
    apply bool_decide_eq_true in Hcs. unfold children_of in Hcs.
    by rewrite Hblk in Hcs.
  - intros x x' y Hx Hx' Hxy Hx'y.
    specialize (HD x (Hin x Hx)).
    rewrite !andb_true_iff, !forallb_elem_of in HD. destruct HD as [_ Hpar].
    specialize (Hpar x' (Hin x' Hx')). apply orb_true_iff in Hpar.
    destruct Hpar as [Heq|Hno]; [by apply bool_decide_eq_true in Heq|].
    rewrite forallb_elem_of in Hno.
    apply child_in_children_of in Hxy, Hx'y.
    specialize (Hno y Hxy). apply bool_decide_eq_true in Hno. done.
  - intros x c Hx Hc Hxc. specialize (HD x (Hin x Hx)).
    rewrite !andb_true_iff, !forallb_elem_of in HD.
    destruct HD as [[_ Hcs] _].
    apply child_in_children_of in Hxc. specialize (Hcs c Hxc).
    rewrite !andb_true_iff in Hcs. destruct Hcs as [_ Hnr].
    apply bool_decide_eq_true in Hnr. done.
  - intros x y Hx Hxy. specialize (HD x (Hin x Hx)).
    rewrite !andb_true_iff, !forallb_elem_of in HD.
    destruct HD as [[_ Hcs] _].
    apply child_in_children_of in Hxy. specialize (Hcs y Hxy).
    rewrite !andb_true_iff in Hcs. destruct Hcs as [[_ Hr] _].
    by apply bool_decide_eq_true in Hr.
Qed.

(** X13: [delete_item] with [delete_children], at the head of a branch, for a
    block whose subtree is a tree of blocks of the course no higher than the
    recursion allows: a new structure that follows the head becomes the
    head. The block and all its descendants are gone from it, and so is
    every reference to the block: each block outside the subtree that
    listed it keeps its other children in their order and records the new
    version; the other blocks outside the subtree are as they were.
    [has_item] no longer finds the blocks of the subtree at the head. *)
Theorem delete_item_removes_subtree (fuel : nat) (s : store) (l : locator)
    user force p br idx h st bid blk (rank : string → nat) :
  l_package_id l = Some p → l_branch l = Some br → l_block_id l = Some bid →
  (l_version_guid l = None ∨ l_version_guid l = Some h) →
  course_indexes s !! p = Some idx → ci_id idx = p →
  ci_versions idx !! br = Some h →
  structures s !! h = Some st →
  s_blocks st !! bid = Some blk →
  s_root st ≠ bid →
  forest (s_blocks st) [bid] rank →
  (rank bid < fuel)%nat →
  let new_id := next_oid s in
  ∃ s' new_blocks,
    delete_item fuel l user true force s
    = (inr (CourseLocator (Some p) (Some br) (Some new_id)), s')
    ∧ structures s'
      = <[new_id := Structure new_id (s_root st) (Some (s_id st))
                      (s_original_version st) user (clock s) new_blocks]>
          (structures s)
    ∧ course_indexes s' = <[p := with_head idx br new_id]> (course_indexes s)
    ∧ definitions s' = definitions s
    ∧ (∀ k, rtc (child_in (s_blocks st)) bid k → new_blocks !! k = None)
    ∧ (∀ k kb, new_blocks !! k = Some kb → bid ∉ get_children (b_fields kb))
    ∧ (∀ k, ¬ rtc (child_in (s_blocks st)) bid k →
         option_Forall2 (detached bid user new_id)
                        (s_blocks st !! k) (new_blocks !! k))
    ∧ (∀ package_id k, rtc (child_in (s_blocks st)) bid k →
         has_item package_id (Locator (Some p) (Some br) None (Some k)) s'
         = (inr false, s')).
Proof.
  intros Hp Hb Hbid Hv Hidx Hid Hh Hst Hblk Hroot F Hrank new_id.
  unfold delete_item. rewrite Hbid.
  erewrite bind_ok by (eapply lookup_course_head; eauto).
  simpl env_structure. rewrite Hst.
  erewrite bind_ok by reflexivity.
  rewrite bool_decide_eq_false_2 by done.
  erewrite bind_ok by (eapply get_index_if_valid_head; eauto).
  erewrite bind_ok by reflexivity.
  set (s_a := Store _ _ _ (N.succ (next_oid s)) _ _).
  erewrite bind_ok.
  2:{ unfold get_parent_locations.
      erewrite bind_ok by (eapply (lookup_course_head s_a); eauto).
      simpl env_structure. subst s_a. simpl structures. rewrite Hst.
      erewrite bind_ok by reflexivity. rewrite Hbid.
      erewrite bind_ok by reflexivity. rewrite fmap_decode_key. reflexivity. }
  cbv zeta. simpl s_blocks. simpl s_id.
  destruct (detach_parents_run bid user (next_oid s)
              (_get_parents_from_structure bid st) (s_blocks st) s_a)
    as (m' & Hrun & Hrel).
  { intros k. apply get_parents_occurrences. }
  erewrite bind_ok by exact Hrun.
  (* the subtree is still a tree after the parents let go of the block *)
  assert (Hshrink : ∀ k blk1, m' !! k = Some blk1 →
            ∃ blk0, s_blocks st !! k = Some blk0
                    ∧ get_children (b_fields blk1)
                      = filter (λ c, c ≠ bid) (get_children (b_fields blk0))).
  { intros k blk1 Hk. specialize (Hrel k). rewrite Hk in Hrel.
    inversion Hrel as [blk0 ? Hd|]; subst. exists blk0. split; [done|].
    by destruct Hd as (_ & _ & _ & Hch & _). }
  assert (Hchild : ∀ x y, child_in m' x y → child_in (s_blocks st) x y).
  { intros x y (blk1 & Hx & Hy).
    destruct (Hshrink _ _ Hx) as (blk0 & Hblk0 & Hch).
    exists blk0. split; [done|]. rewrite Hch in Hy.
    by apply list_elem_of_filter in Hy as [_ Hy]. }
  assert (F' : forest m' [bid] rank).
  { apply (forest_shrink (s_blocks st)); [done| |].
    - intros k blk1 Hk. destruct (Hshrink _ _ Hk) as (blk0 & Hblk0 & Hch).
      exists blk0. split; [done|]. rewrite Hch. apply sublist_filter.
    - intros k (c & Hc & Hk).
      assert (Hk0 : below (s_blocks st) [bid] k).
      { exists c. split; [done|]. by eapply rtc_subrel. }
      destruct (forest_present _ _ _ F k Hk0) as [kb Hkb].
      specialize (Hrel k). rewrite Hkb in Hrel. inversion Hrel. by eexists. }
  destruct (remove_subtree_runs fuel m' bid rank s_a F' Hrank) as [nb Hnb].
  destruct (remove_subtree_sound _ _ _ _ _ _ Hnb) as (_ & D & HD & Hrem).
  assert (HD0 : ∀ k, k ∈ D ↔ rtc (child_in (s_blocks st)) bid k).
  { intros k. rewrite HD. split; [by apply rtc_subrel|].
    revert k. apply rtc_ind_r; [apply rtc_refl|].
    intros y z Hy Hyz IH. eapply rtc_r; [exact IH|].
    assert (Hby : below (s_blocks st) [bid] y).
    { exists bid. split; [by left|done]. }
    assert (Hne : z ≠ bid).
    { intros ->. apply (forest_top _ _ _ F y bid Hby); [by left|done]. }
    destruct Hyz as (blk0 & Hblk0 & Hz).
    specialize (Hrel y). rewrite Hblk0 in Hrel.
    inversion Hrel as [? kb' Hd Heq1 Heq2|]; subst.
    exists kb'. split; [done|].
    destruct Hd as (_ & _ & _ & Hch & _). rewrite Hch.
    by apply list_elem_of_filter. }
  erewrite bind_ok by exact Hnb.
  erewrite bind_ok by reflexivity.
  rewrite Hb, Hp. simpl.
  erewrite bind_ok by reflexivity.
  eexists _, nb. split; [reflexivity|].
  match goal with
  | |- context [has_item _ _ ?s1] =>
      assert (Hhas : ∀ package_id k, rtc (child_in (s_blocks st)) bid k →
                has_item package_id
                         (Locator (Some p) (Some br) None (Some k)) s1
                = (inr false, s1))
  end.
  { intros package_id k Hk.
    erewrite (has_item_at_head _ _ p br _ (next_oid s)
                (Structure (next_oid s) (s_root st) (Some (s_id st))
                           (s_original_version st) user (clock s) nb)).
    - simpl. rewrite (Hrem k). rewrite decide_True by (by apply HD0).
      rewrite bool_decide_eq_false_2; [reflexivity|]. by intros [? ?].
    - simpl. rewrite Hid. apply lookup_insert_eq.
    - simpl. apply lookup_insert_eq.
    - simpl. apply lookup_insert_eq. }
  match goal with
  | |- ?A ∧ ?B ∧ ?C ∧ ?D ∧ ?E ∧ ?F ∧ _ =>
      cut (A ∧ B ∧ C ∧ D ∧ E ∧ F);
      [intros (H1 & H2 & H3 & H4 & H5 & H6);
       exact (conj H1 (conj H2 (conj H3 (conj H4 (conj H5 (conj H6 Hhas))))))|]
  end.
  clear Hhas. simpl. unfold with_head. rewrite !Hid.
  split; [reflexivity|]. split; [reflexivity|]. split; [reflexivity|].
  split; [|split].
  - intros k Hk. apply HD0 in Hk. rewrite (Hrem k). by rewrite decide_True.
  - intros k kb Hk. rewrite (Hrem k) in Hk.
    destruct (decide (k ∈ D)); [discriminate|].
    destruct (Hshrink _ _ Hk) as (blk0 & _ & Hch). rewrite Hch.
    intros Hin. apply list_elem_of_filter in Hin as [Hne _]. by apply Hne.
  - intros k Hk. rewrite (Hrem k). rewrite decide_False; [apply Hrel|].
    intros HkD. by apply Hk, HD0.
Qed.

Lemma delete_item_removes_subtree_witness :
  ∃ s' new_blocks,
    delete_item 5 subtree_locator "editor" true false unpublished_store
    = (inr (CourseLocator (Some "edu") (Some "draft") (Some 3%N)), s')
    ∧ structures s' !! 3%N
      = Some (Structure 3 "course" (Some 1%N) 1 "editor" 100 new_blocks)
    ∧ new_blocks !! "a" = None
    ∧ new_blocks !! "b" = None
    ∧ new_blocks !! "c" = None
    ∧ ∀ k kb, new_blocks !! k = Some kb → "a" ∉ get_children (b_fields kb).
Proof.
  destruct (delete_item_removes_subtree 5 unpublished_store subtree_locator
              "editor" false "edu" "draft" (course_of [("draft", 1%N)]) 1
              (Structure 1 "course" None 1 "author" 0 subtree_blocks)
              "a" (leaf "chapter" 11 1 ["b"; "c"]) unpublished_rank
              eq_refl eq_refl eq_refl (or_introl eq_refl) eq_refl eq_refl
              eq_refl eq_refl eq_refl)
    as (s' & new_blocks & Hrun & Hs & _ & _ & Hgone & Hrefs & _ & _).
  - discriminate.
  - apply (forest_check_sound _ _ ["a"; "b"; "c"]). by vm_compute.
  - unfold unpublished_rank. simpl. lia.
  - exists s', new_blocks. split; [exact Hrun|].
    split; [rewrite Hs; apply lookup_insert_eq|].
    assert (Hchild : ∀ c, c ∈ ["b"; "c"] → child_in subtree_blocks "a" c).
    { intros c Hc. exists (leaf "chapter" 11 1 ["b"; "c"]). by split. }
    split; [apply Hgone, rtc_refl|].
    split; [apply Hgone, rtc_once, Hchild; by_decide|].
    split; [apply Hgone, rtc_once, Hchild; by_decide|].
    exact Hrefs.
Defined.

(** ** Publishing into a new branch *)

Lemma copied_into_copies user t blacklist src D dst dst' :
  copies_of user t blacklist src dst →
  copied_into user t blacklist src D dst dst' →
  copies_of user t blacklist src dst'.
Proof.
  intros Hc Hinto k db Hk. rewrite (Hinto k) in Hk.
  destruct (decide (k ∈ D)); [|by apply Hc].
  destruct (src !! k) as [sb|]; [|discriminate].
  injection Hk as <-. eauto.
Qed.

Lemma copied_into_union user t blacklist src D1 D2 dst dst1 dst2 :
  copied_into user t blacklist src D1 dst dst1 →
  copied_into user t blacklist src D2 dst1 dst2 →
  copied_into user t blacklist src (D1 ∪ D2) dst dst2.
Proof.
  intros H1 H2 k. rewrite (H2 k), (H1 k).
  destruct (decide (k ∈ D1 ∪ D2)) as [Hu|Hu]; rewrite elem_of_union in Hu;
    destruct (decide (k ∈ D2)), (decide (k ∈ D1)); try done; tauto.
Qed.

(** On a destination that holds only copies of source blocks,
    [_publish_subdag] copies the blocks that are reached from [block_id]
    through children that are not blacklisted, and finds no orphan. *)
Lemma publish_subdag_copies (fuel : nat) (user : UserId)
    (src : gmap string block) (blacklist : list BlockId)
    (rank : string → nat) (s : store) :
  ∀ (b : string) (dst : gmap string block),
    (∀ k, rtc (publish_link src blacklist) b k → is_Some (src !! k)) →
    (∀ x y, rtc (publish_link src blacklist) b x →
            publish_link src blacklist x y → (rank y < rank x)%nat) →
    (rank b < fuel)%nat →
    copies_of user (clock s) blacklist src dst →
    ∃ dst' (D : gset string),
      _publish_subdag fuel user b src dst blacklist s = (inr (∅, dst'), s)
      ∧ (∀ k, k ∈ D ↔ rtc (publish_link src blacklist) b k)
      ∧ copied_into user (clock s) blacklist src D dst dst'.
Proof.
  induction fuel as [|fuel IH]; intros b dst Hpresent Hrank Hfuel Hcopies;
    [lia|].
  destruct (Hpresent b) as [sb Hsb]; [apply rtc_refl|].
  set (copy := published_copy user (clock s) blacklist sb).
  set (cs := filter (λ child, child ∉ blacklist) (get_children (b_fields sb))).
  assert (Hlink : ∀ c, c ∈ cs ↔ publish_link src blacklist b c).
  { intros c. unfold cs. rewrite list_elem_of_filter. split.
    - intros [Hbl Hc]. by exists sb.
    - intros (sb' & Hsb' & Hc & Hbl). split; [done|]. congruence. }
  (* the block itself *)
  assert (Hblock :
    (match dst !! b with
     | Some destination_block =>
         if bool_decide (ei_update_version (b_edit_info destination_block)
                         ≠ ei_update_version (b_edit_info sb))
         then
           source_children ← getitem (f_children (b_fields sb));
           destination_children ←
             getitem (f_children (b_fields destination_block));
           let orphans : gset BlockId :=
             list_to_set (filter (λ child, child ∉ source_children)
                                 destination_children) in
           let previous_version := ei_update_version (b_edit_info sb) in
           ret (orphans,
                Block (b_category sb) (b_definition sb)
                      (_filter_blacklist (b_fields sb) blacklist)
                      (BlockEditInfo (ei_edited_on (b_edit_info sb))
                                     user (Some previous_version)
                                     (ei_update_version (b_edit_info sb))))
         else ret (∅, destination_block)
     | None =>
         b0 ← _new_block user (b_category sb)
               (_filter_blacklist (b_fields sb) blacklist)
               (b_definition sb) (ei_update_version (b_edit_info sb));
         ret (∅, b0)
     end) s = (inr (∅, copy), s)).
  { destruct (dst !! b) as [db|] eqn:Hdb; [|reflexivity].
    destruct (Hcopies _ _ Hdb) as (sb' & Hsb' & ->).
    assert (sb' = sb) by congruence. subst sb'.
    rewrite bool_decide_eq_false_2; [reflexivity|].
    intros Hne. by apply Hne. }
  (* the loop over the children *)
  assert (Hloop : ∀ cs0 dst0,
            (∀ c, c ∈ cs0 → publish_link src blacklist b c) →
            copies_of user (clock s) blacklist src dst0 →
            ∃ dst1 (D : gset string),
              foldM (λ '(orphans, destination_blocks) child,
                       if bool_decide (child ∈ blacklist)
                       then ret (orphans, destination_blocks)
                       else
                         '(more, destination_blocks) ←
                           _publish_subdag fuel user child src
                                           destination_blocks blacklist;
                         ret (orphans ∪ more, destination_blocks))
                    ((∅ : gset BlockId), dst0) cs0 s
              = (inr (∅, dst1), s)
              ∧ (∀ k, k ∈ D
                      ↔ ∃ c, c ∈ cs0 ∧ rtc (publish_link src blacklist) c k)
              ∧ copied_into user (clock s) blacklist src D dst0 dst1).
  { induction cs0 as [|c cs0 IHcs]; intros dst0 Hcs0 Hdst0.
    - exists dst0, ∅. split; [reflexivity|]. split.
      + intros k. split; [by intros ?%elem_of_empty|].
        intros (c & Hc & _). by apply elem_of_nil in Hc.
      + intros k. by destruct (decide (k ∈ ∅)) as [?%elem_of_empty|].
    - assert (Hbc : publish_link src blacklist b c) by (apply Hcs0; by left).
      destruct (IH c dst0) as (dst_a & D1 & Hrun1 & HD1 & Hinto1).
      { intros k Hk. apply Hpresent. by eapply rtc_l. }
      { intros x y Hx. apply Hrank. by eapply rtc_l. }
      { assert (rank c < rank b)%nat; [|lia].
        apply (Hrank b c); [apply rtc_refl|done]. }
      { done. }
      destruct (IHcs dst_a) as (dst1 & D2 & Hrun2 & HD2 & Hinto2).
      { intros c' Hc'. apply Hcs0. by right. }
      { by eapply copied_into_copies. }
      exists dst1, (D1 ∪ D2). split; [|split].
      + simpl foldM. erewrite bind_ok; [exact Hrun2|].
        rewrite bool_decide_eq_false_2
          by (by destruct Hbc as (? & _ & _ & Hbl)).
        erewrite bind_ok by exact Hrun1. cbv beta iota.
        by rewrite (left_id_L ∅ (∪)).
      + intros k. rewrite elem_of_union, HD1, HD2. split.
        * intros [Hk|(c' & Hc' & Hk)].
          -- exists c. split; [by left|done].
          -- exists c'. split; [by right|done].
        * intros (c' & [->|Hc']%elem_of_cons & Hk); [by left|].
          right. eauto.
      + by eapply copied_into_union. }
  destruct (Hloop cs dst) as (dst_n & Dn & Hrun & HDn & Hinto);
    [by intros c ?%Hlink|done|].
  exists (<[b := copy]> dst_n), ({[ b ]} ∪ Dn). split; [|split].
  - simpl _publish_subdag. unfold encode_key_for_mongo. rewrite Hsb.
    erewrite bind_ok by reflexivity.
    erewrite bind_ok by exact Hblock. cbv beta iota.
    change (get_children (b_fields copy)) with cs.
    erewrite bind_ok by exact Hrun. reflexivity.
  - intros k. rewrite elem_of_union, elem_of_singleton, HDn. split.
    + intros [->|(c & Hc & Hk)]; [apply rtc_refl|].
      eapply rtc_l; [|exact Hk]. by apply Hlink.
    + intros [->|(y & Hby & Hk)]%rtc_inv; [by left|].
      right. exists y. split; [by apply Hlink|done].
  - intros k. destruct (decide (k = b)) as [->|Hne].
    + rewrite lookup_insert_eq, Hsb.
      rewrite decide_True; [done|]. apply elem_of_union. left.
      by apply elem_of_singleton.
    + rewrite lookup_insert_ne by done. rewrite (Hinto k).
      destruct (decide (k ∈ {[b]} ∪ Dn)) as [Hu|Hu];
        rewrite elem_of_union, elem_of_singleton in Hu;
        destruct (decide (k ∈ Dn)); try done; tauto.
Qed.

Lemma publish_check_sound (src : gmap string block) (blacklist D : list string)
    (rank : string → nat) (b : string) :
  publish_check src blacklist D rank = true → b ∈ D →
  (∀ k, rtc (publish_link src blacklist) b k → k ∈ D)
  ∧ (∀ k, rtc (publish_link src blacklist) b k → is_Some (src !! k))
  ∧ (∀ x y, rtc (publish_link src blacklist) b x →
            publish_link src blacklist x y → (rank y < rank x)%nat).
Proof.
  unfold publish_check. rewrite forallb_elem_of. intros HD Hb.
  assert (Hstep : ∀ x y, x ∈ D → publish_link src blacklist x y →
                         y ∈ D ∧ (rank y < rank x)%nat).
  { intros x y Hx (sb & Hsb & Hy & Hbl). specialize (HD x Hx).
    rewrite andb_true_iff, forallb_elem_of in HD. destruct HD as [_ Hcs].
    specialize (Hcs y). unfold children_of in Hcs. rewrite Hsb in Hcs.
    specialize (Hcs Hy). rewrite orb_true_iff, andb_true_iff in Hcs.
    destruct Hcs as [Hin|[Hin Hr]].
    - by apply bool_decide_eq_true in Hin.
    - by apply bool_decide_eq_true in Hin, Hr. }
  assert (Hin : ∀ k, rtc (publish_link src blacklist) b k → k ∈ D).
  { intros k Hk. induction Hk as [x|x y z Hxy Hyz IH]; [done|].
    apply IH. by apply (Hstep x y). }
  split; [done|]. split.
  - intros k Hk. specialize (HD k (Hin k Hk)).
    rewrite andb_true_iff in HD. destruct HD as [Hk' _].
    by apply bool_decide_eq_true in Hk'.
  - intros x y Hx Hxy. by apply (Hstep x y); [apply Hin|].
Qed.

Lemma bind_ret {A B} (a : A) (k : A → M B) (s : store) :
  (ret a ≫= k) s = k a s.
Proof. reflexivity. Qed.

(** X22: [xblock_publish] of the root into a branch that the course does not have
    yet, from a source in which no block lists the root, every child that is
    reached is a block, and the children that are not blacklisted lead ever
    lower in some ranking, with a limit of recursion above the rank of the
    root: the branch is created with a new structure as its head, which has
    no previous version. Its blocks are the copies of the source blocks that
    are reached from the root through children that are not blacklisted:
    same category and definition, the settings and the children without the
    blacklisted ones, the [update_version] of the source, the publishing
    user and no previous version. Nothing else is written. *)
Theorem xblock_publish_new_branch (fuel : nat) (user : UserId)
    (source_course destination_course : locator) (blacklist : list BlockId)
    (s : store) (source : envelope) (src : structure) (p br : string)
    (idx : course_index) (rank : string → nat) :
  _lookup_course source_course s = (inr source, s) →
  env_structure source = Some src →
  l_package_id destination_course = Some p →
  l_branch destination_course = Some br →
  course_indexes s !! p = Some idx →
  ci_versions idx !! br = None →
  _get_parents_from_structure (s_root src) src = [] →
  (∀ k, rtc (publish_link (s_blocks src) blacklist) (s_root src) k →
        is_Some (s_blocks src !! k)) →
  (∀ x y, rtc (publish_link (s_blocks src) blacklist) (s_root src) x →
          publish_link (s_blocks src) blacklist x y → (rank y < rank x)%nat) →
  (rank (s_root src) < fuel)%nat →
  let new_id := next_oid s in
  ∃ s' blocks,
    xblock_publish fuel user source_course destination_course [s_root src]
                   blacklist s
    = (inr tt, s')
    ∧ structures s'
      = <[new_id := Structure new_id (s_root src) None new_id user (clock s)
                      blocks]>
          (structures s)
    ∧ course_indexes s'
      = <[ci_id idx := with_head idx br new_id]> (course_indexes s)
    ∧ definitions s' = definitions s
    ∧ (∀ k, rtc (publish_link (s_blocks src) blacklist) (s_root src) k →
            blocks !! k
            = published_copy user (clock s) blacklist <$> s_blocks src !! k)
    ∧ (∀ k, ¬ rtc (publish_link (s_blocks src) blacklist) (s_root src) k →
            blocks !! k = None).
Proof.
  intros Hsource Hsrc Hp Hbr Hidx Hhead Hparents Hpresent Hrank Hfuel new_id.
  set (s_a := Store (course_indexes s) (structures s) (definitions s)
                    (N.succ (next_oid s)) (clock s) (course_cache s)).
  destruct (publish_subdag_copies fuel user (s_blocks src) blacklist rank s_a
              (s_root src) ∅ Hpresent Hrank Hfuel)
    as (blocks & D & Hrun & HD & Hinto).
  { intros k db Hk. by rewrite lookup_empty in Hk. }
  exists (set_course_indexes (insert (ci_id idx) (with_head idx br new_id))
            (set_structures
               (insert new_id
                  (Structure new_id (s_root src) None new_id user (clock s)
                             blocks))
               s_a)),
         blocks.
  split.
  { unfold xblock_publish.
    erewrite bind_ok by exact Hsource. rewrite Hsrc.
    erewrite bind_ok by (unfold gets; rewrite Hp; simpl; rewrite Hidx; reflexivity).
    rewrite Hbr.
    change (Some br ≫= λ b : string, ci_versions idx !! b)
      with (ci_versions idx !! br).
    rewrite Hhead.
    erewrite bind_ok.
    2:{ erewrite bind_ok by reflexivity.
        rewrite bool_decide_eq_false_2
          by (intros Hnotin; apply Hnotin; by left).
        reflexivity. }
    fold s_a. simpl s_blocks.
    match goal with
    | |- context [foldM ?body (∅, ?d) [s_root src]] =>
        assert (Hfold : foldM body (∅, d) [s_root src] s_a
                        = (inr (∅, blocks), s_a))
    end.
    { simpl foldM. erewrite bind_ok; [reflexivity|]. cbv beta iota.
      rewrite bind_ret. rewrite Hparents. cbn [forallb negb foldM].
      rewrite bind_ret. cbv beta iota.
      erewrite bind_ok by exact Hrun. cbv beta iota.
      by rewrite (left_id_L ∅ (∪)). }
    erewrite bind_ok by exact Hfold.
    cbv beta iota. rewrite elements_empty. simpl foldM.
    erewrite bind_ok by reflexivity.
    erewrite bind_ok by reflexivity.
    reflexivity. }
  simpl. split; [reflexivity|]. split; [reflexivity|]. split; [reflexivity|].
  split.
  - intros k Hk. rewrite (Hinto k). rewrite decide_True; [done|]. by apply HD.
  - intros k Hk. rewrite (Hinto k). rewrite decide_False; [done|].
    intros HkD. by apply Hk, HD.
Qed.

Lemma xblock_publish_new_branch_witness :
  ∃ s' blocks,
    xblock_publish 5 "publisher" draft_course published_course ["course"]
                   ["c"] unpublished_store
    = (inr tt, s')
    ∧ structures s' !! 3%N
      = Some (Structure 3 "course" None 3 "publisher" 100 blocks)
    ∧ blocks !! "a"
      = Some (Block "chapter" 11 (BlockFields ∅ (Some ["b"]))
                    (BlockEditInfo 100 "publisher" None 1))
    ∧ blocks !! "c" = None.
Proof.
  destruct (publish_check_sound subtree_blocks ["c"] ["course"; "a"; "b"]
              unpublished_rank "course")
    as (Hclosed & Hpresent & Hrank); [by vm_compute|by_decide|].
  destruct (xblock_publish_new_branch 5 "publisher" draft_course
              published_course ["c"] unpublished_store
              (Envelope (Some "edu") (Some "draft")
                        (Some (Structure 1 "course" None 1 "author" 0
                                         subtree_blocks)))
              (Structure 1 "course" None 1 "author" 0 subtree_blocks)
              "edu" "published" (course_of [("draft", 1%N)]) unpublished_rank
              eq_refl eq_refl eq_refl eq_refl eq_refl eq_refl eq_refl
              Hpresent Hrank)
    as (s' & blocks & Hrun & Hs & _ & _ & Hcopied & Hrest).
  { unfold unpublished_rank. simpl. lia. }
  exists s', blocks. split; [exact Hrun|].
  split; [rewrite Hs; apply lookup_insert_eq|]. split.
  - rewrite Hcopied; [reflexivity|].
    apply rtc_once. exists (leaf "course" 10 1 ["a"]).
    split; [reflexivity|]. split; by_decide.
  - apply Hrest. intros Hc. apply Hclosed in Hc. revert Hc. by_decide.
Defined.

